(** * rn-demo-app: live trade feed, capped history, price alerts

    A shallow embedding of the application logic of the Expo / React Native
    demo (App.tsx and utils/market.ts) and the properties its design
    document states about it.

    Layout
    - [Js]      : the ECMAScript values the code computes with (binary64
                  numbers, truthiness, Math.max / Math.min, JSON values);
    - [Market]  : utils/market.ts, the pure analytics;
    - [Feed]    : the per-trade body of handleMessage and the updates buffer;
    - [Store]   : the two SQLite tables and the SQL statements the app runs;
    - [App]     : persistUpdate, checkAlertsForUpdate, handleSaveAlert,
                  handleRemoveAlert, loadAlerts, loadCachedUpdates, and the
                  interleavings of these asynchronous callbacks;
    - [Session] : the WebSocket effect (connect, reconnect timer, teardown);
    - [Hours]   : utils/market.ts, the market-hours test;
    - [Screen]  : what the screen derives from the buffer;
    - [Guards], [Owners] : predicates on the states of the component and
                  of the session.

    The modules named [...Facts] that follow hold the proofs.  Numbers are
    IEEE 754 binary64 throughout; the conversions of the language that the
    application calls (number printing, [Number(...)], [JSON.parse]) are
    parameters, class [Js.Builtins], and so is [toUpperCase].  Strings are
    UTF-8.  The statements of the database succeed, but for the INSERT
    into [price_updates] of a NaN, which the [NOT NULL] columns refuse:
    the source logs the error and goes on. *)

From Stdlib Require Import ZArith List String Ascii Bool Lia DecimalString.
From Stdlib Require Import Permutation Sorting.Sorted.
From Stdlib Require Import Floats.SpecFloat.
Import ListNotations.

Local Open Scope Z_scope.
Local Open Scope string_scope.
Local Open Scope list_scope.

(* ================================================================== *)
(** ** ECMAScript values *)
(* ================================================================== *)

Module Js.

(** A JavaScript [number] is an IEEE 754 binary64 value.  [spec_float] is
    the Standard Library's executable specification of such values; the
    operations below are its binary64 instances (53 bits of precision,
    infinities at exponent 1024, round to nearest even). *)
Definition number := spec_float.

Definition prec : Z := 53.
Definition emax : Z := 1024.

Definition NaN : number := S754_nan.
Definition Infinity : number := S754_infinity false.
Definition NegInfinity : number := S754_infinity true.
Definition pos_zero : number := S754_zero false.
Definition neg_zero : number := S754_zero true.

(** Integer literals of the source ([0], [1], [100], [3000], ...). *)
Definition lit (z : Z) : number := binary_normalize prec emax z 0 false.

Definition sub (x y : number) : number := SFsub prec emax x y.
Definition mul (x y : number) : number := SFmul prec emax x y.
Definition div (x y : number) : number := SFdiv prec emax x y.

(** [Number.isNaN]. *)
Definition isNaN (x : number) : bool :=
  match x with S754_nan => true | _ => false end.

(** [x === y], [x !== y], [x < y], [x <= y], [x > y], [x >= y] on numbers. *)
Definition strict_eq (x y : number) : bool := SFeqb x y.
Definition strict_neq (x y : number) : bool := negb (SFeqb x y).
Definition lt (x y : number) : bool := SFltb x y.
Definition le (x y : number) : bool := SFleb x y.
Definition gt (x y : number) : bool := SFltb y x.
Definition ge (x y : number) : bool := SFleb y x.

(** ToBoolean on a number: [+0], [-0] and [NaN] are falsy. *)
Definition truthy (x : number) : bool :=
  match x with
  | S754_zero _ | S754_nan => false
  | _ => true
  end.

(** [x || y] on numbers. *)
Definition or_else (x y : number) : number := if truthy x then x else y.

Definition is_finite (x : number) : bool :=
  match x with
  | S754_zero _ | S754_finite _ _ _ => true
  | _ => false
  end.

Definition is_zero (x : number) : Prop := exists s, x = S754_zero s.

(** The place of a number that is not [NaN] in the order of the numbers:
    its class (negative infinity, negative, zero, positive, positive
    infinity), then exponent and mantissa, both negated for a negative
    number. *)
Definition rank (x : number) : Z * Z * Z :=
  match x with
  | S754_infinity true => (-2, 0, 0)
  | S754_finite true m e => (-1, - e, - Z.pos m)
  | S754_zero _ | S754_nan => (0, 0, 0)
  | S754_finite false m e => (1, e, Z.pos m)
  | S754_infinity false => (2, 0, 0)
  end.

Definition rank_le (a b : Z * Z * Z) : Prop :=
  let '(c1, e1, m1) := a in
  let '(c2, e2, m2) := b in
  c1 < c2 \/ (c1 = c2 /\ (e1 < e2 \/ (e1 = e2 /\ m1 <= m2))).

(** [Math.max(...xs)]: starts from [-Infinity]; any [NaN] argument makes the
    result [NaN]; [+0] is considered larger than [-0]. *)
Definition max2 (highest x : number) : number :=
  if isNaN highest then NaN
  else if isNaN x then NaN
  else match highest, x with
       | S754_zero true, S754_zero false => x
       | _, _ => if gt x highest then x else highest
       end.

Definition Math_max (xs : list number) : number :=
  fold_left max2 xs NegInfinity.

(** [Math.min(...xs)]: starts from [+Infinity]; [-0] is smaller than [+0]. *)
Definition min2 (lowest x : number) : number :=
  if isNaN lowest then NaN
  else if isNaN x then NaN
  else match lowest, x with
       | S754_zero false, S754_zero true => x
       | _, _ => if lt x lowest then x else lowest
       end.

Definition Math_min (xs : list number) : number :=
  fold_left min2 xs Infinity.

(** The values [JSON.parse] can produce, and [undefined] for an absent
    property. *)
#[warnings="-register-all"]
Inductive value : Type :=
  | JUndefined
  | JNull
  | JBoolean (b : bool)
  | JNumber (n : number)
  | JString (s : string)
  | JArray (items : list value)
  | JObject (fields : list (string * value)).

(** Built-in conversions of the language that the application calls but
    that are no part of it: the digits [Number::toString] prints for a
    finite non-zero number, [Number.prototype.toFixed], [Number(v)] for a
    [v] that is not already a number, [JSON.parse] ([None] when it throws),
    a reading of [Date.now()], and [String.prototype.toUpperCase] (the case
    mapping of Unicode). *)
Class Builtins : Type := {
  finite_digits : bool -> positive -> Z -> string;
  toFixed : number -> nat -> string;
  ToNumber : value -> number;
  JSON_parse : string -> option value;
  Date_now : number;
  toUpperCase : string -> string
}.

(** [String(x)] / template-literal interpolation of a number: both zeros
    print as "0". *)
Definition toString `{Builtins} (x : number) : string :=
  match x with
  | S754_zero _ => "0"
  | S754_nan => "NaN"
  | S754_infinity false => "Infinity"
  | S754_infinity true => "-Infinity"
  | S754_finite s m e => finite_digits s m e
  end.

(** [typeof v === 'number' ? v : Number(v)]. *)
Definition number_of `{Builtins} (v : value) : number :=
  match v with
  | JNumber n => n
  | other => ToNumber other
  end.

(** [obj.name] (also [obj?.name]): [undefined] unless [obj] is an object
    that has the property; on duplicate keys the last one wins, as in
    [JSON.parse]. *)
Fixpoint lookup (name : string) (fields : list (string * value)) : value :=
  match fields with
  | [] => JUndefined
  | (k, v) :: rest =>
      match lookup name rest with
      | JUndefined => if String.eqb k name then v else JUndefined
      | found => found
      end
  end.

Definition get (obj : value) (name : string) : value :=
  match obj with
  | JObject fields => lookup name fields
  | _ => JUndefined
  end.

(** A string is the sequence of bytes of its UTF-8 encoding, as the string
    literals of this file are.

    [s.trim()] removes the white space and the line terminators of the
    language from both ends.  Those of one byte: U+0009 to U+000D and
    U+0020; of two bytes: U+00A0; of three bytes: U+1680, U+2000 to U+200A,
    U+2028, U+2029, U+202F, U+205F, U+3000 and U+FEFF. *)
Definition is_space (c : ascii) : bool :=
  let n := nat_of_ascii c in
  ((9 <=? n) && (n <=? 13) || (n =? 32))%nat.

Definition is_space2 (a b : ascii) : bool :=
  ((nat_of_ascii a =? 194) && (nat_of_ascii b =? 160))%nat.

Definition is_space3 (a b c : ascii) : bool :=
  let x := nat_of_ascii a in
  let y := nat_of_ascii b in
  let z := nat_of_ascii c in
  ((x =? 225) && (y =? 154) && (z =? 128)
   || (x =? 226) && (y =? 128)
      && ((128 <=? z) && (z <=? 138) || (z =? 168) || (z =? 169) || (z =? 175))
   || (x =? 226) && (y =? 129) && (z =? 159)
   || (x =? 227) && (y =? 128) && (z =? 128)
   || (x =? 239) && (y =? 187) && (z =? 191))%nat.

(** The string is one white space character. *)
Definition white (s : string) : bool :=
  match s with
  | String.String a EmptyString => is_space a
  | String.String a (String.String b EmptyString) => is_space2 a b
  | String.String a (String.String b (String.String c EmptyString)) =>
      is_space3 a b c
  | _ => false
  end.

Fixpoint trimStart (s : string) : string :=
  match s with
  | EmptyString => EmptyString
  | String.String a r1 =>
      if is_space a then trimStart r1
      else match r1 with
           | EmptyString => s
           | String.String b r2 =>
               if is_space2 a b then trimStart r2
               else match r2 with
                    | EmptyString => s
                    | String.String c r3 =>
                        if is_space3 a b c then trimStart r3 else s
                    end
           end
  end.

Fixpoint trimEnd (s : string) : string :=
  match s with
  | EmptyString => EmptyString
  | String.String c rest =>
      let kept := String.String c (trimEnd rest) in
      if white kept then EmptyString else kept
  end.

Definition trim (s : string) : string := trimEnd (trimStart s).

(** A string of white space only. *)
Inductive blank : string -> Prop :=
  | blank_empty : blank EmptyString
  | blank_more (w s : string) : white w = true -> blank s -> blank (w ++ s).

(** [toUpperCase] on strings of ASCII characters, where it maps the letters
    [a]-[z] and nothing else; the examples use it. *)
Definition upper (c : ascii) : ascii :=
  let n := nat_of_ascii c in
  if ((97 <=? n) && (n <=? 122))%nat then ascii_of_nat (n - 32) else c.

Fixpoint upper_ascii (s : string) : string :=
  match s with
  | EmptyString => EmptyString
  | String.String c rest => String.String (upper c) (upper_ascii rest)
  end.

End Js.

(* ================================================================== *)
(** ** utils/market.ts *)
(* ================================================================== *)

Module Market.
Import Js.

(** [PriceSample]: [symbol] is optional. *)
Record PriceSample : Type := {
  symbol : option string;
  price : number;
  timestamp : number
}.

Record Metrics : Type := {
  change : number;
  percentage : number;
  basis : option number;
  latest : option number
}.

(** [computeMetrics].  [entries[i]] is [nth_error entries i]; the guard on
    [entries.length] makes both reads defined. *)
Definition computeMetrics (entries : list PriceSample) : Metrics :=
  if (List.length entries =? 0)%nat then
    {| change := lit 0; percentage := lit 0; basis := None; latest := None |}
  else
    match nth_error entries 0, nth_error entries (List.length entries - 1) with
    | Some first, Some final =>
        let latest := price first in
        let oldest := price final in
        let change := sub latest oldest in
        let percentage :=
          if strict_neq oldest (lit 0) then mul (div change oldest) (lit 100)
          else lit 0 in
        {| change := change; percentage := percentage;
           basis := Some oldest; latest := Some latest |}
    | _, _ =>
        (* unreachable: a read of [undefined.price] would throw *)
        {| change := NaN; percentage := NaN; basis := None; latest := None |}
    end.

Record SparkPoint : Type := {
  key : number;
  point_price : number;
  normalized : number
}.

Record Sparkline : Type := {
  points : list SparkPoint;
  min : option number;
  max : option number
}.

(** [computeSparklinePoints]. *)
Definition computeSparklinePoints (entries : list PriceSample) : Sparkline :=
  if (List.length entries <? 2)%nat then
    {| points := []; min := None; max := None |}
  else
    let chronological := rev entries in
    let prices := map price chronological in
    let max := Math_max prices in
    let min := Math_min prices in
    let range := or_else (sub max min) (lit 1) in
    {| points :=
         map (fun item =>
                {| key := timestamp item;
                   point_price := price item;
                   normalized := div (sub (price item) min) range |})
             chronological;
       min := Some min;
       max := Some max |}.

(** Two samples at one price, newest first. *)
Definition two_at (p : number) : list PriceSample :=
  [ {| symbol := None; price := p; timestamp := lit 2000 |};
    {| symbol := None; price := p; timestamp := lit 1000 |} ].

End Market.

(* ================================================================== *)
(** ** App.tsx: the inbound message handler and the updates buffer *)
(* ================================================================== *)

Module Feed.
Import Js.

Record PriceUpdate : Type := {
  key : string;
  symbol : string;
  price : number;
  timestamp : number
}.

Definition MAX_ITEMS : nat := 20.

(** What the component state holds for the feed: [updates],
    [freshTimestamp], [errorMessage], and the calls
    [void persistAndCheckUpdate(update)] made so far (oldest first). *)
Record View : Type := {
  updates : list PriceUpdate;
  freshTimestamp : option number;
  errorMessage : option string;
  started : list PriceUpdate
}.

Definition initial : View :=
  {| updates := []; freshTimestamp := None; errorMessage := None;
     started := [] |}.

(** The updater passed to [setUpdates]:
    [[update, ...prev.filter(item => item.key !== update.key)].slice(0, MAX_ITEMS)]. *)
Definition pushUpdate (update : PriceUpdate) (prev : list PriceUpdate)
  : list PriceUpdate :=
  firstn MAX_ITEMS
    (update :: filter (fun item => negb (String.eqb (key item) (key update))) prev).

(** Outcome of the [forEach] callback on one element of [payload.data]. *)
Inductive Decoded : Type :=
  | Thrown                      (* reading [trade.s] of [null] throws *)
  | Dropped                     (* the early [return] *)
  | Accepted (update : PriceUpdate).

Section WithBuiltins.
Context `{Builtins}.

(** The template literal [`${symbol}-${timestamp}-${price}`]. *)
Definition update_key (symbol : string) (timestamp price : number) : string :=
  symbol ++ "-" ++ toString timestamp ++ "-" ++ toString price.

(** An update whose key is the one of its own fields, as [handleMessage]
    builds them. *)
Definition well_keyed (update : PriceUpdate) : Prop :=
  key update = update_key (symbol update) (timestamp update) (price update).

Definition decodeTrade (symbolForSession : string) (trade : value) : Decoded :=
  match trade with
  | JNull | JUndefined => Thrown
  | _ =>
      let symbol := match get trade "s" with JString s => Some s | _ => None end in
      let price := number_of (get trade "p") in
      let timestamp := number_of (get trade "t") in
      match symbol with
      | None => Dropped
      | Some symbol =>
          if String.eqb symbol "" || isNaN price || isNaN timestamp
             || negb (String.eqb symbol symbolForSession)
          then Dropped
          else Accepted {| key := update_key symbol timestamp price;
                           symbol := symbol;
                           price := price;
                           timestamp := timestamp |}
      end
  end.

(** The state changes of the callback for an accepted trade. *)
Definition acceptUpdate (update : PriceUpdate) (v : View) : View :=
  {| updates := pushUpdate update (updates v);
     freshTimestamp := Some (timestamp update);
     errorMessage := None;
     started := started v ++ [update] |}.

(** [trades.forEach(...)] inside the [try]: an exception ends the loop and
    is swallowed by the [catch]; what was done before it stays done. *)
Fixpoint forEachTrade (symbolForSession : string) (trades : list value)
  (v : View) : View :=
  match trades with
  | [] => v
  | trade :: rest =>
      match decodeTrade symbolForSession trade with
      | Thrown => v
      | Dropped => forEachTrade symbolForSession rest v
      | Accepted update =>
          forEachTrade symbolForSession rest (acceptUpdate update v)
      end
  end.

(** [handleMessage(data)] of the session bound to [symbolForSession]. *)
Definition handleMessage (symbolForSession : string) (data : string)
  (v : View) : View :=
  match JSON_parse data with
  | None => v
  | Some payload =>
      let trades := match get payload "data" with
                    | JArray items => items
                    | _ => []
                    end in
      forEachTrade symbolForSession trades v
  end.

End WithBuiltins.

(** The identity of a tick: [(symbol, timestamp, price)], compared the way
    the language compares strings and numbers ([===]). *)
Definition same_identity (a b : PriceUpdate) : bool :=
  String.eqb (symbol a) (symbol b)
  && strict_eq (timestamp a) (timestamp b)
  && strict_eq (price a) (price b).

(** The invariant of the buffer of the session bound to [bound]. *)
Definition buffer_invariant (bound : string) (buf : list PriceUpdate) : Prop :=
  Forall (fun update => symbol update = bound) buf
  /\ (List.length buf <= MAX_ITEMS)%nat
  /\ ForallOrdPairs (fun a b => same_identity a b = false) buf.

(** The same, with every key well formed: what the handler maintains. *)
Definition buffer_ok `{Builtins} (bound : string) (buf : list PriceUpdate)
  : Prop :=
  buffer_invariant bound buf /\ Forall well_keyed buf.

End Feed.

(* ================================================================== *)
(** ** The SQLite database: two tables and the statements run on them *)
(* ================================================================== *)

Module Store.
Import Js.

(** [price_updates (id INTEGER PRIMARY KEY AUTOINCREMENT, symbol TEXT,
    price REAL, timestamp INTEGER)]. *)
Record PriceUpdateRow : Type := {
  pu_id : Z;
  pu_symbol : string;
  pu_price : number;
  pu_timestamp : number
}.

(** [price_alerts (id INTEGER PRIMARY KEY AUTOINCREMENT, symbol TEXT,
    direction TEXT, price REAL, triggered INTEGER DEFAULT 0)]. *)
Record PriceAlertRow : Type := {
  pa_id : Z;
  pa_symbol : string;
  pa_direction : string;
  pa_price : number;
  pa_triggered : Z
}.

(** A table keeps its rows in insertion order; [*_seq] is the largest id
    the table ever handed out (AUTOINCREMENT never reuses one). *)
Record Db : Type := {
  price_updates : list PriceUpdateRow;
  price_updates_seq : Z;
  price_alerts : list PriceAlertRow;
  price_alerts_seq : Z
}.

Definition empty : Db :=
  {| price_updates := []; price_updates_seq := 0;
     price_alerts := []; price_alerts_seq := 0 |}.

(** [ORDER BY]: a stable insertion sort; [before a b] says that [a] may
    come before [b].  Rows that tie keep their table order. *)
Fixpoint insert_by {A : Type} (before : A -> A -> bool) (x : A) (l : list A)
  : list A :=
  match l with
  | [] => [x]
  | y :: l' => if before x y then x :: y :: l' else y :: insert_by before x l'
  end.

Fixpoint order_by {A : Type} (before : A -> A -> bool) (l : list A) : list A :=
  match l with
  | [] => []
  | x :: l' => insert_by before x (order_by before l')
  end.

(** [x IN (...)] on ids. *)
Definition id_in (x : Z) (ids : list Z) : bool := existsb (Z.eqb x) ids.

(** *** price_updates *)

(** The number a column of [price_updates] gives back for the number that
    was bound: SQLite keeps no sign on a zero, so that [-0] comes back as
    [0]; every other number that can be stored comes back as it was. *)
Definition stored_number (x : number) : number :=
  match x with
  | S754_zero _ => S754_zero false
  | _ => x
  end.

(** A NaN is bound as NULL, which the [NOT NULL] columns [price] and
    [timestamp] refuse: the statement throws and changes nothing. *)
Definition rejected (price timestamp : number) : bool :=
  isNaN price || isNaN timestamp.

(** [runAsync] of
    [INSERT INTO price_updates (symbol, price, timestamp) VALUES (?, ?, ?)]:
    the table with the new row, or [None] when the statement throws. *)
Definition run_insert_price_update (symbol : string) (price timestamp : number)
  (db : Db) : option Db :=
  if rejected price timestamp then None
  else
    let id := price_updates_seq db + 1 in
    Some {| price_updates :=
              price_updates db ++
              [{| pu_id := id; pu_symbol := symbol;
                  pu_price := stored_number price;
                  pu_timestamp := stored_number timestamp |}];
            price_updates_seq := id;
            price_alerts := price_alerts db;
            price_alerts_seq := price_alerts_seq db |}.

(** The table after the INSERT, whether it went through or threw. *)
Definition insert_price_update (symbol : string) (price timestamp : number)
  (db : Db) : Db :=
  match run_insert_price_update symbol price timestamp db with
  | Some inserted => inserted
  | None => db
  end.

(** [ORDER BY timestamp DESC]. *)
Definition timestamp_desc (a b : PriceUpdateRow) : bool :=
  ge (pu_timestamp a) (pu_timestamp b).

Definition updates_of (symbol : string) (db : Db) : list PriceUpdateRow :=
  filter (fun r => String.eqb (pu_symbol r) symbol) (price_updates db).

(** [SELECT ... FROM price_updates WHERE symbol = ? ORDER BY timestamp DESC
    LIMIT ?]. *)
Definition select_recent_updates (symbol : string) (limit : nat) (db : Db)
  : list PriceUpdateRow :=
  firstn limit (order_by timestamp_desc (updates_of symbol db)).

(** [DELETE FROM price_updates WHERE symbol = ? AND id NOT IN (SELECT id
    FROM price_updates WHERE symbol = ? ORDER BY timestamp DESC LIMIT ?)]. *)
Definition prune_price_updates (symbol : string) (limit : nat) (db : Db) : Db :=
  let keep := map pu_id (select_recent_updates symbol limit db) in
  {| price_updates :=
       filter (fun r => negb (String.eqb (pu_symbol r) symbol
                              && negb (id_in (pu_id r) keep)))
              (price_updates db);
     price_updates_seq := price_updates_seq db;
     price_alerts := price_alerts db;
     price_alerts_seq := price_alerts_seq db |}.

(** *** price_alerts *)

(** [INSERT INTO price_alerts (symbol, direction, price, triggered) VALUES
    (?, ?, ?, 0)]. *)
Definition insert_price_alert (symbol direction : string) (price : number)
  (db : Db) : Db :=
  let id := price_alerts_seq db + 1 in
  {| price_updates := price_updates db;
     price_updates_seq := price_updates_seq db;
     price_alerts :=
       price_alerts db ++
       [{| pa_id := id; pa_symbol := symbol; pa_direction := direction;
           pa_price := price; pa_triggered := 0 |}];
     price_alerts_seq := id |}.

(** [ORDER BY triggered ASC, id DESC]. *)
Definition triggered_asc_id_desc (a b : PriceAlertRow) : bool :=
  Z.ltb (pa_triggered a) (pa_triggered b)
  || (Z.eqb (pa_triggered a) (pa_triggered b) && Z.leb (pa_id b) (pa_id a)).

(** [ORDER BY triggered ASC, price ASC]. *)
Definition triggered_asc_price_asc (a b : PriceAlertRow) : bool :=
  Z.ltb (pa_triggered a) (pa_triggered b)
  || (Z.eqb (pa_triggered a) (pa_triggered b) && le (pa_price a) (pa_price b)).

Definition alerts_of (symbol : string) (db : Db) : list PriceAlertRow :=
  filter (fun r => String.eqb (pa_symbol r) symbol) (price_alerts db).

(** [DELETE FROM price_alerts WHERE symbol = ? AND id NOT IN (SELECT id FROM
    price_alerts WHERE symbol = ? ORDER BY triggered ASC, id DESC LIMIT ?)]. *)
Definition prune_price_alerts (symbol : string) (limit : nat) (db : Db) : Db :=
  let keep :=
    map pa_id (firstn limit (order_by triggered_asc_id_desc (alerts_of symbol db))) in
  {| price_updates := price_updates db;
     price_updates_seq := price_updates_seq db;
     price_alerts :=
       filter (fun r => negb (String.eqb (pa_symbol r) symbol
                              && negb (id_in (pa_id r) keep)))
              (price_alerts db);
     price_alerts_seq := price_alerts_seq db |}.

(** [SELECT id, direction, price FROM price_alerts WHERE symbol = ? AND
    triggered = 0]. *)
Definition select_untriggered (symbol : string) (db : Db) : list PriceAlertRow :=
  filter (fun r => String.eqb (pa_symbol r) symbol && Z.eqb (pa_triggered r) 0)
         (price_alerts db).

(** [UPDATE price_alerts SET triggered = 1 WHERE id IN (...)]. *)
Definition mark_triggered (ids : list Z) (db : Db) : Db :=
  {| price_updates := price_updates db;
     price_updates_seq := price_updates_seq db;
     price_alerts :=
       map (fun r =>
              if id_in (pa_id r) ids
              then {| pa_id := pa_id r; pa_symbol := pa_symbol r;
                      pa_direction := pa_direction r; pa_price := pa_price r;
                      pa_triggered := 1 |}
              else r)
           (price_alerts db);
     price_alerts_seq := price_alerts_seq db |}.

(** [DELETE FROM price_alerts WHERE id = ?]. *)
Definition delete_price_alert (id : Z) (db : Db) : Db :=
  {| price_updates := price_updates db;
     price_updates_seq := price_updates_seq db;
     price_alerts := filter (fun r => negb (Z.eqb (pa_id r) id)) (price_alerts db);
     price_alerts_seq := price_alerts_seq db |}.

(** [SELECT id, symbol, direction, price, triggered FROM price_alerts WHERE
    symbol = ? ORDER BY triggered ASC, price ASC LIMIT ?]. *)
Definition select_alerts (symbol : string) (limit : nat) (db : Db)
  : list PriceAlertRow :=
  firstn limit (order_by triggered_asc_price_asc (alerts_of symbol db)).

(** What the schema and the application's writes guarantee of the stored
    tables: ids are unique and no larger than the table's sequence; a stored
    timestamp is a number; [triggered] is 0 or 1. *)
Definition stored (r : PriceUpdateRow) : Prop :=
  isNaN (pu_timestamp r) = false.

Definition wf_updates (db : Db) : Prop :=
  NoDup (map pu_id (price_updates db))
  /\ Forall (fun r => pu_id r <= price_updates_seq db) (price_updates db)
  /\ Forall (fun r => isNaN (pu_timestamp r) = false) (price_updates db).

Definition wf_alerts (db : Db) : Prop :=
  NoDup (map pa_id (price_alerts db))
  /\ Forall (fun r => pa_id r <= price_alerts_seq db) (price_alerts db)
  /\ Forall (fun r => pa_triggered r = 0 \/ pa_triggered r = 1) (price_alerts db).

(** The same as decision procedures. *)
Fixpoint nodupb (ids : list Z) : bool :=
  match ids with
  | [] => true
  | x :: rest => negb (id_in x rest) && nodupb rest
  end.

Definition wf_updates_b (db : Db) : bool :=
  nodupb (map pu_id (price_updates db))
  && forallb (fun r => Z.leb (pu_id r) (price_updates_seq db)) (price_updates db)
  && forallb (fun r => negb (isNaN (pu_timestamp r))) (price_updates db).

Definition wf_alerts_b (db : Db) : bool :=
  nodupb (map pa_id (price_alerts db))
  && forallb (fun r => Z.leb (pa_id r) (price_alerts_seq db)) (price_alerts db)
  && forallb (fun r => Z.eqb (pa_triggered r) 0 || Z.eqb (pa_triggered r) 1)
             (price_alerts db).

(** A table of [n] trades of one symbol, one per millisecond, and a table
    of [n] alerts of one symbol, for examples. *)
Fixpoint sample_updates (symbol : string) (n : nat) : Db :=
  match n with
  | O => empty
  | S k => insert_price_update symbol (lit 100) (lit (Z.of_nat n))
             (sample_updates symbol k)
  end.

Fixpoint sample_alerts (symbol : string) (n : nat) : Db :=
  match n with
  | O => empty
  | S k => insert_price_alert symbol "above" (lit (Z.of_nat n))
             (sample_alerts symbol k)
  end.

End Store.

(* ================================================================== *)
(** ** App.tsx: persistence, alerts and their asynchronous callbacks *)
(* ================================================================== *)

Module App.
Import Js Store.

Definition DB_MAX_ITEMS : nat := 60.
Definition ALERT_MAX_ITEMS : nat := 20.

Inductive Direction : Type := above | below.

(** [AlertThreshold].  The source keeps [id] as [String(row.id)] and turns
    it back with [Number(alertId)]; the model keeps the integer. *)
Record AlertThreshold : Type := {
  id : Z;
  symbol : string;
  direction : Direction;
  price : number;
  triggered : bool
}.

(** The [content] passed to [Notifications.scheduleNotificationAsync]. *)
Record Notification : Type := {
  title : string;
  body : string
}.

(** [row.direction === 'below' ? 'below' : 'above']. *)
Definition direction_of (text : string) : Direction :=
  if String.eqb text "below" then below else above.

Definition direction_text (d : Direction) : string :=
  match d with above => "above" | below => "below" end.

(** [persistUpdate]: the INSERT, then the pruning DELETE; when the INSERT
    throws, the [catch] logs a warning and the DELETE is not run. *)
Definition persistUpdate (update : Feed.PriceUpdate) (db : Db) : Db :=
  match run_insert_price_update (Feed.symbol update) (Feed.price update)
          (Feed.timestamp update) db with
  | Some inserted =>
      prune_price_updates (Feed.symbol update) DB_MAX_ITEMS inserted
  | None => db
  end.

(** The test of [checkAlertsForUpdate] on one row. *)
Definition isTriggered (update : Feed.PriceUpdate) (row : PriceAlertRow) : bool :=
  let direction := direction_of (pa_direction row) in
  let priceValue := pa_price row in
  if isNaN priceValue then false
  else
    (match direction with above => true | below => false end
     && ge (Feed.price update) priceValue)
    || (match direction with below => true | above => false end
        && le (Feed.price update) priceValue).

(** [triggeredIds] after the [rows.map] callbacks have run. *)
Definition triggeredIds (update : Feed.PriceUpdate) (rows : list PriceAlertRow)
  : list Z :=
  map pa_id (filter (isTriggered update) rows).

(** [handleSaveAlert] once the guards have passed: the INSERT, then the
    pruning DELETE. *)
Definition saveAlert (activeSymbol : string) (alertDirection : Direction)
  (price : number) (db : Db) : Db :=
  prune_price_alerts activeSymbol ALERT_MAX_ITEMS
    (insert_price_alert activeSymbol (direction_text alertDirection) price db).

(** The rows of [loadAlerts] as [AlertThreshold]s. *)
Definition toThreshold (row : PriceAlertRow) : AlertThreshold :=
  {| id := pa_id row;
     symbol := pa_symbol row;
     direction := direction_of (pa_direction row);
     price := pa_price row;
     triggered := Z.eqb (pa_triggered row) 1 |}.

(** An asynchronous callback in flight, named by the [await] it is
    suspended at: the statement it has issued, or the result it is about to
    consume. *)
Inductive Stage : Type :=
  (* persistAndCheckUpdate(update) *)
  | PersistInsert (update : Feed.PriceUpdate)
  | PersistPrune (update : Feed.PriceUpdate)
  | CheckSelect (update : Feed.PriceUpdate)
  | CheckEvaluate (update : Feed.PriceUpdate) (rows : list PriceAlertRow)
  | CheckMark (update : Feed.PriceUpdate) (ids : list Z)
  (* loadAlerts(symbol) *)
  | AlertsSelect (symbol : string)
  | AlertsSet (rows : list PriceAlertRow)
  (* loadCachedUpdates(symbol) *)
  | CachedSelect (symbol : string)
  | CachedSet (rows : list PriceUpdateRow)
  (* handleSaveAlert, handleRemoveAlert *)
  | SaveInsert (symbol : string) (direction : Direction) (price : number)
  | SavePrune (symbol : string)
  | RemoveDelete (alertId : Z) (symbol : string)
  | Finished.

Record Task : Type := {
  tag : nat;
  stage : Stage
}.

(** One firing: the rule, and the callback (hence the tick) it fired for. *)
Record Firing : Type := {
  rule : Z;
  by_task : nat
}.

(** The component: React state ([activeSymbol], the feed, [alerts],
    [notificationAllowed]), whether [dbRef.current] is set, the database
    file, the notifications handed to [scheduleNotificationAsync], and the
    callbacks in flight.  A callback spawned later has a larger tag.
    [fired] is no variable of the source: it records every id pushed to
    [triggeredIds], with the callback that pushed it. *)
Record State : Type := {
  activeSymbol : string;
  feed : Feed.View;
  alerts : list AlertThreshold;
  dbOpen : bool;
  db : Db;
  notificationAllowed : bool;
  scheduled : list Notification;
  fired : list Firing;
  pool : list Task;
  next_tag : nat
}.

Definition DEFAULT_SYMBOL : string := "AAPL".

Definition initial (stored : Db) (allowed : bool) : State :=
  {| activeSymbol := DEFAULT_SYMBOL;
     feed := Feed.initial;
     alerts := [];
     dbOpen := false;
     db := stored;
     notificationAllowed := allowed;
     scheduled := [];
     fired := [];
     pool := [];
     next_tag := 0 |}.

Definition with_db (d : Db) (s : State) : State :=
  {| activeSymbol := activeSymbol s; feed := feed s; alerts := alerts s;
     dbOpen := dbOpen s; db := d; notificationAllowed := notificationAllowed s;
     scheduled := scheduled s; fired := fired s; pool := pool s;
     next_tag := next_tag s |}.

Definition with_alerts (a : list AlertThreshold) (s : State) : State :=
  {| activeSymbol := activeSymbol s; feed := feed s; alerts := a;
     dbOpen := dbOpen s; db := db s; notificationAllowed := notificationAllowed s;
     scheduled := scheduled s; fired := fired s; pool := pool s;
     next_tag := next_tag s |}.

Definition with_feed (v : Feed.View) (s : State) : State :=
  {| activeSymbol := activeSymbol s; feed := v; alerts := alerts s;
     dbOpen := dbOpen s; db := db s; notificationAllowed := notificationAllowed s;
     scheduled := scheduled s; fired := fired s; pool := pool s;
     next_tag := next_tag s |}.

Definition with_pool (p : list Task) (s : State) : State :=
  {| activeSymbol := activeSymbol s; feed := feed s; alerts := alerts s;
     dbOpen := dbOpen s; db := db s; notificationAllowed := notificationAllowed s;
     scheduled := scheduled s; fired := fired s; pool := p;
     next_tag := next_tag s |}.

(** A callback is called: it gets the next tag. *)
Definition spawn (st : Stage) (s : State) : State :=
  {| activeSymbol := activeSymbol s; feed := feed s; alerts := alerts s;
     dbOpen := dbOpen s; db := db s; notificationAllowed := notificationAllowed s;
     scheduled := scheduled s; fired := fired s;
     pool := match st with
             | Finished => pool s
             | _ => pool s ++ [{| tag := next_tag s; stage := st |}]
             end;
     next_tag := S (next_tag s) |}.

(** [loadAlerts(symbol)] up to its first [await]. *)
Definition loadAlerts (symbol : string) (s : State) : Stage * State :=
  if dbOpen s then (AlertsSelect symbol, s)
  else (Finished, with_alerts [] s).

(** [checkAlertsForUpdate(update)] up to its first [await]. *)
Definition checkAlertsForUpdate (update : Feed.PriceUpdate) (s : State)
  : Stage * State :=
  if dbOpen s then (CheckSelect update, s) else (Finished, s).

(** [persistAndCheckUpdate(update)] up to its first [await]. *)
Definition persistAndCheckUpdate (update : Feed.PriceUpdate) (s : State)
  : Stage * State :=
  if dbOpen s then (PersistInsert update, s)
  else checkAlertsForUpdate update s.

(** [loadCachedUpdates(symbol)] up to its first [await]. *)
Definition loadCachedUpdates (symbol : string) (s : State) : Stage * State :=
  if dbOpen s then (CachedSelect symbol, s) else (Finished, s).

(** A trade of AAPL at millisecond 61, for examples. *)
Definition sample_update : Feed.PriceUpdate :=
  {| Feed.key := "AAPL-61-100"; Feed.symbol := "AAPL";
     Feed.price := lit 100; Feed.timestamp := lit 61 |}.

Section WithBuiltins.
Context `{Builtins}.

(** The notification of one triggered row. *)
Definition notification (update : Feed.PriceUpdate) (row : PriceAlertRow)
  : Notification :=
  let priceValue := pa_price row in
  {| title := Feed.symbol update ++ " price alert";
     body :=
       match direction_of (pa_direction row) with
       | above => "Price moved above " ++ toFixed priceValue 2 ++ " (now "
                  ++ toFixed (Feed.price update) 2 ++ ")."
       | below => "Price fell below " ++ toFixed priceValue 2 ++ " (now "
                  ++ toFixed (Feed.price update) 2 ++ ")."
       end |}.

(** The [rows.map((row, index) => ...)] of [loadCachedUpdates]. *)
Fixpoint loadedFrom (index : nat) (rows : list PriceUpdateRow)
  : list Feed.PriceUpdate :=
  match rows with
  | [] => []
  | row :: rest =>
      let timestampValue := pu_timestamp row in
      {| Feed.key := pu_symbol row ++ "-" ++ toString timestampValue ++ "-"
                     ++ toString (lit (Z.of_nat index));
         Feed.symbol := pu_symbol row;
         Feed.price := if isNaN (pu_price row) then lit 0 else pu_price row;
         Feed.timestamp := if isNaN timestampValue then Date_now
                           else timestampValue |}
      :: loadedFrom (S index) rest
  end.

(** The statement a suspended callback waits for completes and the callback
    runs to its next [await] (or to its end). *)
Definition resume (t : nat) (st : Stage) (s : State) : Stage * State :=
  match st with
  | PersistInsert update =>
      match run_insert_price_update (Feed.symbol update) (Feed.price update)
              (Feed.timestamp update) (db s) with
      | Some inserted => (PersistPrune update, with_db inserted s)
      | None => checkAlertsForUpdate update s
      end
  | PersistPrune update =>
      checkAlertsForUpdate update
        (with_db (prune_price_updates (Feed.symbol update) DB_MAX_ITEMS (db s)) s)
  | CheckSelect update =>
      (CheckEvaluate update (select_untriggered (Feed.symbol update) (db s)), s)
  | CheckEvaluate update rows =>
      let hits := filter (isTriggered update) rows in
      let ids := triggeredIds update rows in
      let s' :=
        {| activeSymbol := activeSymbol s; feed := feed s; alerts := alerts s;
           dbOpen := dbOpen s; db := db s;
           notificationAllowed := notificationAllowed s;
           scheduled :=
             if notificationAllowed s
             then scheduled s ++ map (notification update) hits
             else scheduled s;
           fired := fired s ++ map (fun i => {| rule := i; by_task := t |}) ids;
           pool := pool s;
           next_tag := next_tag s |} in
      match ids with
      | [] => (Finished, s')
      | _ => (CheckMark update ids, s')
      end
  | CheckMark update ids =>
      loadAlerts (Feed.symbol update) (with_db (mark_triggered ids (db s)) s)
  | AlertsSelect symbol =>
      (AlertsSet (select_alerts symbol ALERT_MAX_ITEMS (db s)), s)
  | AlertsSet rows =>
      (Finished, with_alerts (map toThreshold rows) s)
  | CachedSelect symbol =>
      (CachedSet (select_recent_updates symbol Feed.MAX_ITEMS (db s)), s)
  | CachedSet rows =>
      (Finished,
       with_feed {| Feed.updates := loadedFrom 0 rows;
                    Feed.freshTimestamp := None;
                    Feed.errorMessage := None;
                    Feed.started := Feed.started (feed s) |} s)
  | SaveInsert symbol direction price =>
      (SavePrune symbol,
       with_db (insert_price_alert symbol (direction_text direction) price (db s)) s)
  | SavePrune symbol =>
      loadAlerts symbol
        (with_db (prune_price_alerts symbol ALERT_MAX_ITEMS (db s)) s)
  | RemoveDelete alertId symbol =>
      loadAlerts symbol (with_db (delete_price_alert alertId (db s)) s)
  | Finished => (Finished, s)
  end.

(** The pool once the callback tagged [t] has moved on to [st']. *)
Fixpoint settle (t : nat) (st' : Stage) (tasks : list Task) : list Task :=
  match tasks with
  | [] => []
  | task :: rest =>
      if Nat.eqb (tag task) t then
        match st' with
        | Finished => rest
        | _ => {| tag := t; stage := st' |} :: rest
        end
      else task :: settle t st' rest
  end.

(** Resume the callback tagged [t], if it is in flight. *)
Definition advance (t : nat) (s : State) : State :=
  match find (fun task => Nat.eqb (tag task) t) (pool s) with
  | None => s
  | Some task =>
      let '(st', s') := resume t (stage task) s in
      with_pool (settle t st' (pool s')) s'
  end.

(** Call an asynchronous function: run it to its first [await], keep the
    rest in flight. *)
Definition call (f : State -> Stage * State) (s : State) : State :=
  let '(st, s') := f s in spawn st s'.

(** The effect on [activeSymbol] / [isDbReady]: refill from SQLite. *)
Definition refillEffect (s : State) : State :=
  if dbOpen s
  then call (loadAlerts (activeSymbol s)) (call (loadCachedUpdates (activeSymbol s)) s)
  else s.

(** [applySymbol(rawSymbol)], followed by the effects its state change
    triggers. *)
Definition applySymbol (rawSymbol : string) (s : State) : State :=
  let normalized := toUpperCase (trim rawSymbol) in
  let v := feed s in
  if String.eqb normalized "" then
    with_feed {| Feed.updates := Feed.updates v;
                 Feed.freshTimestamp := Feed.freshTimestamp v;
                 Feed.errorMessage := Some "Enter a symbol to subscribe.";
                 Feed.started := Feed.started v |} s
  else if String.eqb normalized (activeSymbol s) then
    with_feed {| Feed.updates := Feed.updates v;
                 Feed.freshTimestamp := Feed.freshTimestamp v;
                 Feed.errorMessage := None;
                 Feed.started := Feed.started v |} s
  else
    refillEffect
      {| activeSymbol := normalized;
         feed := {| Feed.updates := [];
                    Feed.freshTimestamp := None;
                    Feed.errorMessage := None;
                    Feed.started := Feed.started v |};
         alerts := alerts s; dbOpen := dbOpen s; db := db s;
         notificationAllowed := notificationAllowed s;
         scheduled := scheduled s; fired := fired s; pool := pool s;
         next_tag := next_tag s |}.

(** [handleSaveAlert] up to its first [await]. *)
Definition handleSaveAlert (alertDirection : Direction) (alertPriceText : string)
  (s : State) : Stage * State :=
  if dbOpen s then
    let price := ToNumber (JString alertPriceText) in
    if isNaN price || le price (lit 0) then (Finished, s)
    else (SaveInsert (activeSymbol s) alertDirection price, s)
  else (Finished, s).

(** [handleRemoveAlert(alertId)] up to its first [await]. *)
Definition handleRemoveAlert (alertId : Z) (s : State) : Stage * State :=
  if dbOpen s then (RemoveDelete alertId (activeSymbol s), s)
  else (Finished, s).

(** A message on the socket of the session bound to [symbolForSession]:
    [handleMessage], then one [persistAndCheckUpdate] per accepted trade. *)
Definition onMessage (symbolForSession : string) (data : string) (s : State)
  : State :=
  let v := Feed.handleMessage symbolForSession data (feed s) in
  let accepted := skipn (List.length (Feed.started (feed s))) (Feed.started v) in
  fold_left (fun acc update => call (persistAndCheckUpdate update) acc)
            accepted (with_feed v s).

(** [initializeDbAsync] completes: [dbRef.current] is set, [isDbReady]
    turns true and the refill effect runs. *)
Definition onDbReady (s : State) : State :=
  if dbOpen s then s
  else refillEffect
         {| activeSymbol := activeSymbol s; feed := feed s; alerts := alerts s;
            dbOpen := true; db := db s;
            notificationAllowed := notificationAllowed s;
            scheduled := scheduled s; fired := fired s; pool := pool s;
            next_tag := next_tag s |}.

Inductive Event : Type :=
  | DbReady
  | Message (symbolForSession : string) (data : string)
  | Resume (t : nat)
  | ApplySymbol (rawSymbol : string)
  | SaveAlert (alertDirection : Direction) (alertPriceText : string)
  | RemoveAlert (alertId : Z).

Definition step (s : State) (e : Event) : State :=
  match e with
  | DbReady => onDbReady s
  | Message symbolForSession data => onMessage symbolForSession data s
  | Resume t => advance t s
  | ApplySymbol rawSymbol => applySymbol rawSymbol s
  | SaveAlert d text => call (handleSaveAlert d text) s
  | RemoveAlert alertId => call (handleRemoveAlert alertId) s
  end.

Definition run (events : list Event) (s : State) : State :=
  fold_left step events s.

End WithBuiltins.

(** *** Predicates on the component's state *)

(** The alert [i] is stored with its flag set. *)
Definition latched (i : Z) (d : Db) : Prop :=
  exists r, In r (price_alerts d) /\ pa_id r = i /\ pa_triggered r = 1.

(** No stored row of id [i] has its flag down, and the table has already
    handed out [i]. *)
Definition flag_held (i : Z) (d : Db) : Prop :=
  (forall r, In r (price_alerts d) -> pa_id r = i -> pa_triggered r = 1)
  /\ i <= price_alerts_seq d.

(** A callback that does not hold a result set in which [i] is still
    untriggered. *)
Definition safe (i : Z) (st : Stage) : Prop :=
  match st with
  | CheckEvaluate _ rows => ~ In i (map pa_id rows)
  | _ => True
  end.

(** A callback that holds no result set of the alert query at all. *)
Definition fresh (st : Stage) : Prop :=
  match st with
  | CheckEvaluate _ _ => False
  | _ => True
  end.

(** The part of the state the callbacks share. *)
Definition same_core (s' s : State) : Prop :=
  db s' = db s /\ pool s' = pool s /\ fired s' = fired s
  /\ next_tag s' = next_tag s /\ dbOpen s' = dbOpen s
  /\ notificationAllowed s' = notificationAllowed s.

(** An asynchronous function, up to its first [await], only looks. *)
Definition starter (f : State -> Stage * State) : Prop :=
  forall s, fresh (fst (f s)) /\ same_core (snd (f s)) s.

(** Every state the component can reach is of this kind. *)
Definition state_ok (s : State) : Prop :=
  wf_alerts (db s)
  /\ Forall (fun task => (tag task < next_tag s)%nat) (pool s).

(** The database after one of the statements the callbacks issue (or after
    none). *)
Inductive statement (d : Db) : Db -> Prop :=
  | no_statement : statement d d
  | insert_update (symbol : string) (price timestamp : number) :
      statement d (insert_price_update symbol price timestamp d)
  | prune_updates (symbol : string) (limit : nat) :
      statement d (prune_price_updates symbol limit d)
  | insert_alert (symbol direction : string) (price : number) :
      statement d (insert_price_alert symbol direction price d)
  | prune_alerts (symbol : string) (limit : nat) :
      statement d (prune_price_alerts symbol limit d)
  | mark_alerts (ids : list Z) :
      statement d (mark_triggered ids d)
  | delete_alert (alertId : Z) :
      statement d (delete_price_alert alertId d).

(** The callback tagged [t] is, in state [s], between the query whose
    result set showed [i] untriggered and the evaluation of that result
    set. *)
Definition holds_untriggered (i : Z) (s : State) (t : nat) : Prop :=
  exists update rows,
    In {| tag := t; stage := CheckEvaluate update rows |} (pool s)
    /\ In i (map pa_id rows).

(** With respect to the moment the flag of [i] was seen set (state [s0]):
    the flag is held; the only callbacks that hold [i] untriggered are ones
    that did so at that moment; and [i] has been fired since by those
    only. *)
Definition latch_inv (i : Z) (s0 s : State) : Prop :=
  flag_held i (db s)
  /\ Forall (fun task => safe i (stage task)
                         \/ holds_untriggered i s0 (tag task)) (pool s)
  /\ (forall f, In f (fired s) -> rule f = i ->
                 In f (fired s0) \/ holds_untriggered i s0 (by_task f)).

(** *** Examples *)

(** A message carrying one trade of AAPL at 101. *)
Definition tick_payload : value :=
  JObject [("type", JString "trade");
           ("data", JArray [JObject [("s", JString "AAPL");
                                     ("p", JNumber (lit 101));
                                     ("t", JNumber (lit 1000))]])].

(** Built-ins for the examples.  Numbers are printed as mantissa and binary
    exponent (distinct numbers print differently), [Number] knows [null] and
    the booleans, every message parses to [tick_payload], and strings are
    put to upper case as strings of ASCII characters are. *)
Definition demo_digits (s : bool) (m : positive) (e : Z) : string :=
  (if s then "-" else "")
  ++ NilEmpty.string_of_uint (Pos.to_uint m) ++ "e"
  ++ NilZero.string_of_int (Z.to_int e).

Definition demo_builtins : Builtins :=
  {| finite_digits := demo_digits;
     toFixed := fun x _ =>
       match x with
       | S754_finite s m e => demo_digits s m e
       | S754_zero _ => "0.00"
       | _ => "NaN"
       end;
     ToNumber := fun v =>
       match v with
       | JNull | JBoolean false => lit 0
       | JBoolean true => lit 1
       | _ => NaN
       end;
     JSON_parse := fun _ => Some tick_payload;
     Date_now := lit 0;
     toUpperCase := upper_ascii |}.

(** The trade of [tick_payload] was persisted by an earlier launch; on this
    launch the buffer is refilled from the cache and the feed then delivers
    that trade once more. *)
Definition one_stored_trade : Db :=
  insert_price_update "AAPL" (lit 101) (lit 1000) Store.empty.

Definition refill_trace : list Event := [DbReady; Resume 0; Resume 0]%nat.

Definition replay_trace : list Event :=
  [DbReady; Resume 0; Resume 0; Message "AAPL" "trade"]%nat.

(** Two stored alerts: AAPL at or above 100, TSLA at or below 50. *)
Definition two_alerts : Db :=
  insert_price_alert "TSLA" "below" (lit 50)
    (insert_price_alert "AAPL" "above" (lit 100) Store.empty).

(** A session on AAPL accepts a trade at 101; before the trade's
    [persistAndCheckUpdate] has run, the user switches to TSLA and TSLA's
    cache and alerts are loaded.  (Callbacks 0 and 1 are the refill for
    AAPL, 2 is the trade's, 3 and 4 the refill for TSLA.) *)
Definition switch_trace : list Event :=
  [DbReady; Resume 0; Resume 0; Resume 1; Resume 1;
   Message "AAPL" "trade"; ApplySymbol "tsla";
   Resume 3; Resume 3; Resume 4; Resume 4]%nat.

(** Then the trade's callback runs to its end. *)
Definition stale_completion : list Event := repeat (Resume 2) 7.

(** Two trades at 101 arrive back to back and their callbacks interleave:
    both read the alerts before either marks. *)
Definition overlap_trace : list Event :=
  [DbReady; Message "AAPL" "trade"; Message "AAPL" "trade";
   Resume 2; Resume 2; Resume 2; Resume 3; Resume 3; Resume 3;
   Resume 2; Resume 2; Resume 3]%nat.

(** The same up to the moment the first callback has marked the alert; the
    second callback, which holds the alert in its result set, has not yet
    evaluated it. *)
Definition overlap_head : list Event :=
  [DbReady; Message "AAPL" "trade"; Message "AAPL" "trade";
   Resume 2; Resume 2; Resume 2; Resume 3; Resume 3; Resume 3;
   Resume 2; Resume 2]%nat.

(** One trade fires the AAPL alert and marks it; then another one arrives
    and its callback runs to its end. *)
Definition first_trade : list Event :=
  [DbReady; Message "AAPL" "trade";
   Resume 2; Resume 2; Resume 2; Resume 2; Resume 2]%nat.

Definition second_trade : list Event :=
  Message "AAPL" "trade" :: repeat (Resume 3) 7.


Definition at_threshold_update : Feed.PriceUpdate :=
  {| Feed.key := "AAPL-1000-100"; Feed.symbol := "AAPL";
     Feed.price := lit 100; Feed.timestamp := lit 1000 |}.

End App.

(* ================================================================== *)
(** ** App.tsx: the WebSocket effect *)
(* ================================================================== *)

Module Session.
Import Js.

Inductive ConnectionStatus : Type := connecting | open | closed | error.

(** [(process.env.EXPO_PUBLIC_FINNHUB_TOKEN ?? '').trim()]. *)
Definition FINNHUB_TOKEN (EXPO_PUBLIC_FINNHUB_TOKEN : option string) : string :=
  trim (match EXPO_PUBLIC_FINNHUB_TOKEN with Some t => t | None => "" end).

(** [FINNHUB_TOKEN.length > 0]. *)
Definition hasToken (env : option string) : bool :=
  (0 <? String.length (FINNHUB_TOKEN env))%nat.

(** The variables one run of the effect closes over. *)
Record Closure : Type := {
  manualClose : bool;
  symbolForSession : string
}.

(** A pending [setTimeout]: its handle, its delay in milliseconds, and the
    effect run whose [connect] its callback calls. *)
Record Timer : Type := {
  handle : nat;
  delay : Z;
  scheduled_by : nat
}.

(** A constructed [WebSocket]: its URL and the effect run that made it. *)
Record Socket : Type := {
  url : string;
  created_by : nat
}.

(** What the component did to its sockets:
    [ws.send(JSON.stringify({ type: 'subscribe', symbol }))] and
    [ws.close()]. *)
Inductive Call : Type :=
  | SendSubscribe (socket : nat) (symbol : string)
  | Close (socket : nat).

Record State : Type := {
  connectionStatus : ConnectionStatus;
  errorMessage : option string;
  wsRef : option nat;              (* index into [sockets] *)
  reconnectTimerRef : option nat;  (* a timer handle *)
  closures : list Closure;         (* one per run of the effect *)
  current : option nat;            (* the run whose cleanup is still due *)
  sockets : list Socket;           (* every socket constructed so far *)
  timers : list Timer;             (* the timeouts pending in the runtime *)
  next_handle : nat;               (* handles are positive integers *)
  calls : list Call
}.

Definition initial : State :=
  {| connectionStatus := connecting;
     errorMessage := None;
     wsRef := None;
     reconnectTimerRef := None;
     closures := [];
     current := None;
     sockets := [];
     timers := [];
     next_handle := 1;
     calls := [] |}.

Definition RECONNECT_DELAY : Z := 3000.

(** [if (reconnectTimerRef.current)]: [null] and [0] are falsy. *)
Definition timer_set (s : State) : bool :=
  match reconnectTimerRef s with
  | Some h => negb (Nat.eqb h 0)
  | None => false
  end.

Definition manualClose_of (self : nat) (s : State) : bool :=
  match nth_error (closures s) self with
  | Some c => manualClose c
  | None => true
  end.

Definition symbol_of (self : nat) (s : State) : string :=
  match nth_error (closures s) self with
  | Some c => symbolForSession c
  | None => ""
  end.

(** [clearTimeout(reconnectTimerRef.current); reconnectTimerRef.current = null]
    under [if (reconnectTimerRef.current)]. *)
Definition clearReconnect (s : State) : State :=
  if timer_set s then
    {| connectionStatus := connectionStatus s; errorMessage := errorMessage s;
       wsRef := wsRef s;
       reconnectTimerRef := None;
       closures := closures s; current := current s; sockets := sockets s;
       timers := filter (fun t => negb (Nat.eqb (handle t)
                                          (match reconnectTimerRef s with
                                           | Some h => h | None => 0%nat end)))
                        (timers s);
       next_handle := next_handle s; calls := calls s |}
  else s.

(** [connect()] of the effect run [self]. *)
Definition connect (env : option string) (self : nat) (s : State) : State :=
  {| connectionStatus := connecting;
     errorMessage := None;
     wsRef := Some (List.length (sockets s));
     reconnectTimerRef := reconnectTimerRef s;
     closures := closures s; current := current s;
     sockets := sockets s ++
                [{| url := "wss://ws.finnhub.io?token=" ++ FINNHUB_TOKEN env;
                    created_by := self |}];
     timers := timers s; next_handle := next_handle s; calls := calls s |}.

(** [scheduleReconnect()] of the effect run [self]. *)
Definition scheduleReconnect (self : nat) (s : State) : State :=
  if manualClose_of self s || timer_set s then s
  else
    {| connectionStatus := connectionStatus s; errorMessage := errorMessage s;
       wsRef := wsRef s;
       reconnectTimerRef := Some (next_handle s);
       closures := closures s; current := current s; sockets := sockets s;
       timers := timers s ++
                 [{| handle := next_handle s; delay := RECONNECT_DELAY;
                     scheduled_by := self |}];
       next_handle := S (next_handle s); calls := calls s |}.

Definition setStatus (c : ConnectionStatus) (m : option (option string))
  (s : State) : State :=
  {| connectionStatus := c;
     errorMessage := match m with Some m' => m' | None => errorMessage s end;
     wsRef := wsRef s; reconnectTimerRef := reconnectTimerRef s;
     closures := closures s; current := current s; sockets := sockets s;
     timers := timers s; next_handle := next_handle s; calls := calls s |}.

(** [ws.onopen]. *)
Definition onopen (k : nat) (s : State) : State :=
  match nth_error (sockets s) k with
  | None => s
  | Some ws =>
      let s' := setStatus open None s in
      {| connectionStatus := connectionStatus s'; errorMessage := errorMessage s';
         wsRef := wsRef s'; reconnectTimerRef := reconnectTimerRef s';
         closures := closures s'; current := current s'; sockets := sockets s';
         timers := timers s'; next_handle := next_handle s';
         calls := calls s' ++ [SendSubscribe k (symbol_of (created_by ws) s)] |}
  end.

(** [ws.onerror]. *)
Definition onerror (k : nat) (s : State) : State :=
  match nth_error (sockets s) k with
  | None => s
  | Some _ =>
      setStatus error (Some (Some "Live feed error, attempting to reconnect...")) s
  end.

(** [ws.onclose]. *)
Definition onclose (k : nat) (s : State) : State :=
  match nth_error (sockets s) k with
  | None => s
  | Some ws =>
      if manualClose_of (created_by ws) s then s
      else scheduleReconnect (created_by ws) (setStatus closed None s)
  end.

(** The timeout with handle [h] elapses: the runtime drops it and runs
    [() => { reconnectTimerRef.current = null; connect(); }]. *)
Definition ontimeout (env : option string) (h : nat) (s : State) : State :=
  match find (fun t => Nat.eqb (handle t) h) (timers s) with
  | None => s
  | Some t =>
      connect env (scheduled_by t)
        {| connectionStatus := connectionStatus s; errorMessage := errorMessage s;
           wsRef := wsRef s;
           reconnectTimerRef := None;
           closures := closures s; current := current s; sockets := sockets s;
           timers := filter (fun t' => negb (Nat.eqb (handle t') h)) (timers s);
           next_handle := next_handle s; calls := calls s |}
  end.

(** [wsRef.current.close(); wsRef.current = null] under a null check. *)
Definition closeSocket (s : State) : State :=
  match wsRef s with
  | None => s
  | Some k =>
      {| connectionStatus := connectionStatus s; errorMessage := errorMessage s;
         wsRef := None;
         reconnectTimerRef := reconnectTimerRef s;
         closures := closures s; current := current s; sockets := sockets s;
         timers := timers s; next_handle := next_handle s;
         calls := calls s ++ [Close k] |}
  end.

Definition setManualClose (self : nat) (s : State) : State :=
  {| connectionStatus := connectionStatus s; errorMessage := errorMessage s;
     wsRef := wsRef s; reconnectTimerRef := reconnectTimerRef s;
     closures :=
       map (fun ic => if Nat.eqb (fst ic) self
                      then {| manualClose := true;
                              symbolForSession := symbolForSession (snd ic) |}
                      else snd ic)
           (combine (seq 0 (List.length (closures s))) (closures s));
     current := current s; sockets := sockets s; timers := timers s;
     next_handle := next_handle s; calls := calls s |}.

(** The function the effect returned, run by React before the next run of
    the effect and on unmount. *)
Definition cleanup (env : option string) (s : State) : State :=
  match current s with
  | None => s
  | Some self =>
      let s1 := setManualClose self s in
      let s2 := if hasToken env then closeSocket (clearReconnect s1) else s1 in
      {| connectionStatus := connectionStatus s2; errorMessage := errorMessage s2;
         wsRef := wsRef s2; reconnectTimerRef := reconnectTimerRef s2;
         closures := closures s2; current := None; sockets := sockets s2;
         timers := timers s2; next_handle := next_handle s2; calls := calls s2 |}
  end.

(** The body of the effect for [activeSymbol]. *)
Definition effect (env : option string) (activeSymbol : string) (s : State)
  : State :=
  let self := List.length (closures s) in
  let s0 :=
    {| connectionStatus := connectionStatus s; errorMessage := errorMessage s;
       wsRef := wsRef s; reconnectTimerRef := reconnectTimerRef s;
       closures := closures s ++
                   [{| manualClose := false; symbolForSession := activeSymbol |}];
       current := Some self; sockets := sockets s; timers := timers s;
       next_handle := next_handle s; calls := calls s |} in
  if negb (hasToken env) then
    setStatus error (Some (Some "Set EXPO_PUBLIC_FINNHUB_TOKEN to stream live data."))
      (closeSocket (clearReconnect s0))
  else connect env self s0.

Inductive Event : Type :=
  | Render (activeSymbol : string)   (* mount, or the dependencies changed *)
  | Unmount
  | Opened (socket : nat)
  | Errored (socket : nat)
  | Closed (socket : nat)
  | Elapsed (handle : nat)
  | SetErrorMessage (m : option string).  (* by the other callbacks *)

Definition step (env : option string) (s : State) (e : Event) : State :=
  match e with
  | Render activeSymbol => effect env activeSymbol (cleanup env s)
  | Unmount => cleanup env s
  | Opened k => onopen k s
  | Errored k => onerror k s
  | Closed k => onclose k s
  | Elapsed h => ontimeout env h s
  | SetErrorMessage m => setStatus (connectionStatus s) (Some m) s
  end.

Definition run (env : option string) (events : list Event) (s : State) : State :=
  fold_left (step env) events s.

(** The status block of the rendered screen, without the symbol line and
    the history button: the status line, the error message when there is
    one, and the token warning. *)
Definition status_text (c : ConnectionStatus) : string :=
  match c with
  | connecting => "connecting"
  | open => "open"
  | closed => "closed"
  | error => "error"
  end.

Definition TOKEN_WARNING : string :=
  "Set EXPO_PUBLIC_FINNHUB_TOKEN before running to stream live data.".

Definition statusBlock (env : option string) (s : State) : list string :=
  (["Status: " ++ status_text (connectionStatus s)]%string
   ++ match errorMessage s with
      | Some m => if String.eqb m "" then [] else [m]
      | None => []
      end
   ++ (if hasToken env then [] else [TOKEN_WARNING]))%list.

(** *** Predicates on the session state *)

(** At most the one timer [reconnectTimerRef] names is pending, with the
    reconnect delay; handles are positive. *)
Definition timer_inv (s : State) : Prop :=
  (0 < next_handle s)%nat
  /\ match reconnectTimerRef s with
     | None => timers s = []
     | Some h =>
         (0 < h < next_handle s)%nat
         /\ exists self, timers s = [{| handle := h; delay := RECONNECT_DELAY;
                                        scheduled_by := self |}]
     end.

(** Nothing was ever connected, scheduled or sent. *)
Definition quiet (s : State) : Prop :=
  sockets s = [] /\ timers s = [] /\ next_handle s = 1%nat /\ calls s = []
  /\ wsRef s = None /\ reconnectTimerRef s = None.

Definition is_render (e : Event) : bool :=
  match e with Render _ => true | _ => false end.

(** *** Examples *)

(** A session on AAPL whose socket has opened. *)
Definition streaming : list Event := [Render "AAPL"; Opened 0]%nat.

(** Without a token: a start, stray socket and timer events, a symbol
    switch, an error message cleared by another callback. *)
Definition tokenless : list Event :=
  [Render "AAPL"; Closed 0; Elapsed 1; SetErrorMessage None; Render "TSLA"]%nat.

End Session.

(* ================================================================== *)
(** ** utils/market.ts: market hours *)
(* ================================================================== *)

Module Hours.
Import Js.

Definition add (x y : number) : number := SFadd prec emax x y.

(** [isUsMarketOpen(date)], as a function of the three readings it takes of
    the date: [getUTCDay()], [getUTCHours()], [getUTCMinutes()] (each is
    [NaN] for an invalid date). *)
Definition isUsMarketOpen (day hour minute : number) : bool :=
  let minutesOfDay := add (mul hour (lit 60)) minute in
  let openMinutes := add (mul (lit 14) (lit 60)) (lit 30) in
  let closeMinutes := mul (lit 21) (lit 60) in
  let weekday := ge day (lit 1) && le day (lit 5) in
  weekday && ge minutesOfDay openMinutes && le minutesOfDay closeMinutes.

(** The answer on day [d] (0 is Sunday) at [h]:[m] UTC agrees with the
    opening hours written in minutes of the day. *)
Definition open_at (d h m : nat) : bool :=
  Bool.eqb (isUsMarketOpen (lit (Z.of_nat d)) (lit (Z.of_nat h)) (lit (Z.of_nat m)))
    ((1 <=? d) && (d <=? 5) && (14 * 60 + 30 <=? h * 60 + m)
     && (h * 60 + m <=? 21 * 60))%nat.

End Hours.

(* ================================================================== *)
(** ** App.tsx: what the screen derives from the buffer *)
(* ================================================================== *)

Module Screen.
Import Js Store App.

(** A [PriceUpdate] read as a [PriceSample]: App.tsx's own [computeMetrics]
    and [computeSparklinePoints] are those of utils/market.ts, applied to
    the buffer. *)
Definition toSample (u : Feed.PriceUpdate) : Market.PriceSample :=
  {| Market.symbol := Some (Feed.symbol u);
     Market.price := Feed.price u;
     Market.timestamp := Feed.timestamp u |}.

(** [useMemo(() => computeMetrics(updates), [updates])]. *)
Definition metrics (updates : list Feed.PriceUpdate) : Market.Metrics :=
  Market.computeMetrics (map toSample updates).

(** [freshTimestamp !== null && item.timestamp === freshTimestamp] of
    [renderItem]. *)
Definition isFresh (freshTimestamp : option number) (item : Feed.PriceUpdate)
  : bool :=
  match freshTimestamp with
  | Some fresh => strict_eq (Feed.timestamp item) fresh
  | None => false
  end.

End Screen.

(* ================================================================== *)
(** ** Guards the callbacks have passed, and what they maintain *)
(* ================================================================== *)

Module Guards.
Import Js Store App.

(** An update as [handleMessage] lets it through: price and timestamp are
    numbers. *)
Definition numeric (u : Feed.PriceUpdate) : Prop :=
  isNaN (Feed.price u) = false /\ isNaN (Feed.timestamp u) = false.

(** An alert row whose threshold is a number. *)
Definition priced (r : PriceAlertRow) : Prop := isNaN (pa_price r) = false.

(** A threshold as [handleSaveAlert] lets it through. *)
Definition positive (p : number) : Prop :=
  isNaN p = false /\ gt p (lit 0) = true.

(** What a callback in flight carries has passed the guard of the function
    that started it. *)
Definition timestamped (st : Stage) : Prop :=
  match st with
  | PersistInsert update => isNaN (Feed.timestamp update) = false
  | _ => True
  end.

Definition threshold_ok (st : Stage) : Prop :=
  match st with
  | SaveInsert _ _ price => positive price
  | _ => True
  end.

(** A result set of the refill query that fits the buffer. *)
Definition bounded (st : Stage) : Prop :=
  match st with
  | CachedSet rows => (List.length rows <= Feed.MAX_ITEMS)%nat
  | _ => True
  end.

(** A property [D] of the database together with a property [G] of every
    callback in flight. *)
Definition store_inv (D : Db -> Prop) (G : Stage -> Prop) (s : State) : Prop :=
  D (db s) /\ Forall (fun task => G (stage task)) (pool s).


(** The subscribed symbol is not empty and of the origin [P], and the
    buffer is within its bound. *)
Definition view_inv (P : string -> Prop) (s : State) : Prop :=
  activeSymbol s <> ""
  /\ P (activeSymbol s)
  /\ (List.length (Feed.updates (feed s)) <= Feed.MAX_ITEMS)%nat
  /\ Forall (fun task => bounded (stage task)) (pool s).

(** Built-ins as [demo_builtins], with a [Number] that reads every string
    as 150. *)
Definition quote_builtins : Builtins :=
  {| finite_digits := demo_digits;
     toFixed := toFixed (Builtins := demo_builtins);
     ToNumber := fun v =>
       match v with
       | JString _ => lit 150
       | other => ToNumber (Builtins := demo_builtins) other
       end;
     JSON_parse := JSON_parse (Builtins := demo_builtins);
     Date_now := lit 0;
     toUpperCase := upper_ascii |}.

(** A buffered trade of TSLA, for examples. *)
Definition other_update : Feed.PriceUpdate :=
  {| Feed.key := "TSLA-61-100"; Feed.symbol := "TSLA";
     Feed.price := lit 100; Feed.timestamp := lit 61 |}.

End Guards.

(* ================================================================== *)
(** ** The WebSocket effect: who owns what *)
(* ================================================================== *)

Module Owners.
Import Js Session.

(** Only the effect run whose cleanup is still due has its [manualClose]
    down. *)
Definition older_manual (s : State) : Prop :=
  forall i, manualClose_of i s = false -> current s = Some i.

(** A pending reconnect timer was scheduled by that run. *)
Definition timers_owned (s : State) : Prop :=
  Forall (fun t => current s = Some (scheduled_by t)) (timers s).

(** After the cleanup, before any new run of the effect. *)
Definition torn_down (s : State) : Prop :=
  current s = None
  /\ (forall i, manualClose_of i s = true)
  /\ timers s = [] /\ reconnectTimerRef s = None /\ wsRef s = None.

(** Every socket was made by a run of the effect, and every subscription
    sent names the symbol of the run that made the socket it was sent on. *)
Definition subscribes_own (s : State) : Prop :=
  Forall (fun ws => (created_by ws < List.length (closures s))%nat) (sockets s)
  /\ Forall (fun c => match c with
                      | SendSubscribe k sym =>
                          exists ws, nth_error (sockets s) k = Some ws
                                     /\ symbol_of (created_by ws) s = sym
                      | Close _ => True
                      end) (calls s).

(** The run whose cleanup is due is one of the runs so far. *)
Definition current_valid (s : State) : Prop :=
  forall i, current s = Some i -> (i < List.length (closures s))%nat.

(** A socket of AAPL opens, the user switches to TSLA, and the old socket
    closes. *)
Definition switched : list Event := [Render "AAPL"; Opened 0; Render "TSLA"]%nat.

(** After the unmount: the socket's close and a stray timer. *)
Definition after_unmount : list Event := [Closed 0; Elapsed 1; Opened 0]%nat.
End Owners.

(* ================================================================== *)
(** ** Facts about numbers *)
(* ================================================================== *)

Module JsFacts.
Import Js.

Lemma compare_cont_Eq (p q : positive) :
  Pos.compare_cont Eq p q = Pos.compare p q.
Proof. reflexivity. Qed.

(** A finite number minus itself is [+0]. *)
Lemma sub_diag_finite (s : bool) (m : positive) (e : Z) :
  sub (S754_finite s m e) (S754_finite s m e) = pos_zero.
Proof.
  unfold sub, SFsub, shl_align.
  rewrite Z.min_id, Z.sub_diag. reflexivity.
Qed.

(** [x === p] for a finite non-zero [p] means [x] is [p]. *)
Lemma strict_eq_finite (x : number) (s : bool) (m : positive) (e : Z) :
  strict_eq x (S754_finite s m e) = true -> x = S754_finite s m e.
Proof.
  unfold strict_eq, SFeqb, SFcompare.
  destruct x as [sx | sx | | sx mx ex]; try (destruct sx); try discriminate;
    try (destruct s; discriminate).
  - destruct s; try discriminate.
    destruct (Z.compare_spec ex e) as [-> | _ | _]; try discriminate.
    rewrite compare_cont_Eq.
    destruct (Pos.compare_spec mx m) as [-> | _ | _]; try discriminate.
    reflexivity.
  - destruct s; try discriminate.
    destruct (Z.compare_spec ex e) as [-> | _ | _]; try discriminate.
    rewrite compare_cont_Eq.
    destruct (Pos.compare_spec mx m) as [-> | _ | _]; try discriminate.
    reflexivity.
Qed.

(** [x === 0] means [x] is one of the two zeros. *)
Lemma strict_eq_zero (x : number) (s : bool) :
  strict_eq x (S754_zero s) = true -> exists sx, x = S754_zero sx.
Proof.
  unfold strict_eq, SFeqb, SFcompare.
  destruct x as [sx | sx | | sx mx ex]; try (destruct sx); try discriminate;
    eauto.
Qed.

Lemma lt_irrefl (x : number) : lt x x = false.
Proof.
  unfold lt, SFltb, SFcompare.
  destruct x as [s | s | | s m e]; try (destruct s); try reflexivity;
    rewrite Z.compare_refl, compare_cont_Eq, Pos.compare_refl; reflexivity.
Qed.

End JsFacts.

(* ================================================================== *)
(** ** Facts about utils/market.ts *)
(* ================================================================== *)

Module MarketFacts.
Import Js Market JsFacts.

Lemma nth_error_final {A : Type} (l : list A) (x d : A) :
  nth_error (x :: l) (List.length l) = Some (last (x :: l) d).
Proof.
  revert x. induction l as [| y l IH]; intro x; [reflexivity | ].
  cbn [List.length nth_error]. rewrite (IH y). reflexivity.
Qed.

(** C4.  [computeMetrics] on the empty sequence and on every non-empty
    newest-first sequence: [latest] is the price of element 0, [basis] the
    price of the last element, [change] their difference, [percentage] is 0
    when [basis === 0] and [(change / basis) * 100] otherwise; and the
    worked example of the test suite. *)
Theorem computeMetrics_spec :
  computeMetrics [] =
    {| change := lit 0; percentage := lit 0; basis := None; latest := None |}
  /\ (forall (first : PriceSample) (rest : list PriceSample),
        let entries := first :: rest in
        let latest_price := price first in
        let basis_price := price (last entries first) in
        computeMetrics entries =
          {| change := sub latest_price basis_price;
             percentage :=
               if strict_eq basis_price (lit 0) then lit 0
               else mul (div (sub latest_price basis_price) basis_price) (lit 100);
             basis := Some basis_price;
             latest := Some latest_price |})
  /\ computeMetrics
       [ {| symbol := None; price := lit 110; timestamp := lit 2000 |};
         {| symbol := None; price := lit 100; timestamp := lit 1000 |} ] =
     {| change := lit 10; percentage := lit 10;
        basis := Some (lit 100); latest := Some (lit 110) |}.
Proof.
  split; [reflexivity | split; [ | vm_compute; reflexivity]].
  intros first rest entries latest_price basis_price.
  unfold computeMetrics. subst entries.
  cbn [List.length Nat.eqb].
  replace (S (List.length rest) - 1)%nat with (List.length rest) by lia.
  rewrite (nth_error_final rest first first). cbn [nth_error].
  fold basis_price. fold latest_price.
  unfold strict_neq, strict_eq.
  destruct (SFeqb basis_price (lit 0)); reflexivity.
Qed.



(** *** The sparkline of equal prices *)

Lemma max2_same (s : bool) (m : positive) (e : Z) :
  max2 (S754_finite s m e) (S754_finite s m e) = S754_finite s m e.
Proof.
  unfold max2. cbn [isNaN]. unfold gt.
  change (SFltb (S754_finite s m e) (S754_finite s m e))
    with (lt (S754_finite s m e) (S754_finite s m e)).
  now rewrite lt_irrefl.
Qed.

Lemma min2_same (s : bool) (m : positive) (e : Z) :
  min2 (S754_finite s m e) (S754_finite s m e) = S754_finite s m e.
Proof.
  unfold min2. cbn [isNaN]. now rewrite lt_irrefl.
Qed.

Lemma fold_max2_same (s : bool) (m : positive) (e : Z) (l : list number) :
  Forall (fun x => x = S754_finite s m e) l ->
  fold_left max2 l (S754_finite s m e) = S754_finite s m e.
Proof.
  induction 1 as [| x l -> _ IH]; [reflexivity | ].
  cbn [fold_left]. now rewrite max2_same.
Qed.

Lemma fold_min2_same (s : bool) (m : positive) (e : Z) (l : list number) :
  Forall (fun x => x = S754_finite s m e) l ->
  fold_left min2 l (S754_finite s m e) = S754_finite s m e.
Proof.
  induction 1 as [| x l -> _ IH]; [reflexivity | ].
  cbn [fold_left]. now rewrite min2_same.
Qed.

Lemma max2_zeros (a b : bool) :
  max2 (S754_zero a) (S754_zero b) = S754_zero (a && b).
Proof. now destruct a, b. Qed.

Lemma min2_zeros (a b : bool) :
  min2 (S754_zero a) (S754_zero b) = S754_zero (a || b).
Proof. now destruct a, b. Qed.

Lemma fold_max2_zeros (l : list number) (a : bool) :
  Forall is_zero l -> is_zero (fold_left max2 l (S754_zero a)).
Proof.
  intro Hl. revert a.
  induction Hl as [| x l [b ->] _ IH]; intro a; [now exists a | ].
  cbn [fold_left]. rewrite max2_zeros. apply IH.
Qed.

(** Over zeros, [Math.min] answers [-0] as soon as one of them is [-0]. *)
Lemma fold_min2_zeros (l : list number) (a : bool) :
  Forall is_zero l ->
  exists s, fold_left min2 l (S754_zero a) = S754_zero s
            /\ (a = true -> s = true)
            /\ (In neg_zero l -> s = true).
Proof.
  intro Hl. revert a.
  induction Hl as [| x l [b ->] _ IH]; intro a.
  - exists a. repeat split; auto.
  - cbn [fold_left]. rewrite min2_zeros.
    destruct (IH (a || b)) as (s & Hs & Ha & Hin).
    exists s. split; [exact Hs | split].
    + intros ->. now apply Ha.
    + intros [E | I]; [ | now apply Hin].
      injection E as ->. apply Ha. now destruct a.
Qed.

(** A zero minus the least of the zeros it belongs to is [+0]. *)
Lemma sub_zero_min (sx smin : bool) :
  (sx = true -> smin = true) ->
  sub (S754_zero sx) (S754_zero smin) = pos_zero.
Proof. destruct sx, smin; intro Hs; try reflexivity. now specialize (Hs eq_refl). Qed.

Lemma normalized_equal_prices (p : number) (prices : list number) :
  is_finite p = true ->
  prices <> [] ->
  Forall (fun x => strict_eq x p = true) prices ->
  let max := Math_max prices in
  let min := Math_min prices in
  let range := or_else (sub max min) (lit 1) in
  Forall (fun x => div (sub x min) range = pos_zero) prices.
Proof.
  intros Hfin Hne Hall.
  destruct p as [sp | sp | | sp mp ep]; try discriminate Hfin.
  - (* every price is a zero *)
    assert (Hz : Forall is_zero prices).
    { revert Hall. apply Forall_impl. intros x Hx.
      exact (strict_eq_zero _ _ Hx). }
    destruct prices as [| x0 rest]; [congruence | ].
    pose proof Hz as Hz0. inversion Hz0 as [| ? ? [s0 ->] Hrest]; subst.
    unfold Math_max, Math_min. cbn [fold_left].
    change (max2 NegInfinity (S754_zero s0)) with (S754_zero s0).
    change (min2 Infinity (S754_zero s0)) with (S754_zero s0).
    destruct (fold_max2_zeros rest s0 Hrest) as [smax ->].
    destruct (fold_min2_zeros rest s0 Hrest) as (smin & -> & Hs0 & Hin).
    cbn zeta.
    assert (Hrange : or_else (sub (S754_zero smax) (S754_zero smin)) (lit 1) = lit 1)
      by now destruct smax, smin.
    rewrite Hrange.
    apply Forall_forall. intros x Hx.
    assert (Hxz : is_zero x) by (rewrite Forall_forall in Hz; now apply Hz).
    destruct Hxz as [sx ->].
    rewrite sub_zero_min; [reflexivity | ].
    intros ->. destruct Hx as [E | I].
    + injection E as ->. now apply Hs0.
    + now apply Hin.
  - (* every price is the same finite non-zero number *)
    assert (Hp : Forall (fun x => x = S754_finite sp mp ep) prices).
    { revert Hall. apply Forall_impl. intros x Hx.
      exact (strict_eq_finite _ _ _ _ Hx). }
    destruct prices as [| x0 rest]; [congruence | ].
    inversion Hp as [| ? ? -> Hrest]; subst.
    unfold Math_max, Math_min. cbn [fold_left].
    assert (Hmax : max2 NegInfinity (S754_finite sp mp ep) = S754_finite sp mp ep)
      by now destruct sp.
    assert (Hmin : min2 Infinity (S754_finite sp mp ep) = S754_finite sp mp ep)
      by now destruct sp.
    rewrite Hmax, Hmin, fold_max2_same, fold_min2_same by assumption.
    cbn zeta. rewrite sub_diag_finite.
    apply Forall_forall. intros x Hx.
    rewrite Forall_forall in Hp. rewrite (Hp x Hx), sub_diag_finite.
    reflexivity.
Qed.

(** C8, as the code has it.  When at least two ticks are given and all
    their prices are equal to one finite number, every point of the
    sparkline has [normalized] exactly [+0], and there is one point per
    tick. *)
Theorem sparkline_equal_finite_prices (p : number) (entries : list PriceSample) :
  is_finite p = true ->
  (2 <= List.length entries)%nat ->
  Forall (fun item => strict_eq (price item) p = true) entries ->
  let result := computeSparklinePoints entries in
  List.length (points result) = List.length entries
  /\ Forall (fun point => normalized point = pos_zero) (points result).
Proof.
  intros Hfin Hlen Hall. unfold computeSparklinePoints.
  destruct (Nat.ltb_spec (List.length entries) 2) as [Hlt | _]; [lia | ].
  cbn [points]. split.
  - now rewrite length_map, length_rev.
  - apply Forall_map. cbn [normalized].
    assert (Hprices : Forall (fun x => strict_eq x p = true)
                             (map price (rev entries))).
    { apply Forall_map, Forall_rev. exact Hall. }
    assert (Hne : map price (rev entries) <> []).
    { intro E. apply (f_equal (@List.length _)) in E.
      rewrite length_map, length_rev in E. cbn in E. lia. }
    pose proof (normalized_equal_prices p _ Hfin Hne Hprices) as Hn.
    cbn zeta in Hn. rewrite Forall_map in Hn. exact Hn.
Qed.

Lemma sparkline_equal_finite_prices_witness :
  List.length (points (computeSparklinePoints (two_at (lit 100)))) = 2%nat
  /\ Forall (fun point => normalized point = pos_zero)
            (points (computeSparklinePoints (two_at (lit 100)))).
Proof.
  apply (sparkline_equal_finite_prices (lit 100) (two_at (lit 100))).
  - reflexivity.
  - simpl. lia.
  - repeat constructor.
Defined.

(** C8, as stated, fails: two ticks whose prices are both [Infinity] are
    equal, and their points are normalized to [NaN], not to 0. *)
Lemma sparkline_equal_infinite_prices :
  (2 <= List.length (two_at Infinity))%nat
  /\ Forall (fun item => strict_eq (price item) Infinity = true) (two_at Infinity)
  /\ map normalized (points (computeSparklinePoints (two_at Infinity)))
     = [NaN; NaN]
  /\ strict_eq NaN (lit 0) = false.
Proof.
  split; [simpl; lia | ].
  split; [repeat constructor | ].
  split; reflexivity.
Qed.

(** The remaining cases of the test suite of utils/market.ts. *)
Example computeSparklinePoints_single :
  computeSparklinePoints
    [ {| symbol := None; price := lit 100; timestamp := lit 1000 |} ]
  = {| points := []; min := None; max := None |}.
Proof. reflexivity. Qed.

Example computeSparklinePoints_normalizes :
  let result :=
    computeSparklinePoints
      [ {| symbol := None; price := lit 100; timestamp := lit 1000 |};
        {| symbol := None; price := lit 110; timestamp := lit 2000 |};
        {| symbol := None; price := lit 105; timestamp := lit 3000 |} ] in
  Math_min (map normalized (points result)) = lit 0
  /\ Math_max (map normalized (points result)) = lit 1
  /\ min result = Some (lit 100)
  /\ max result = Some (lit 110).
Proof. vm_compute. repeat split; reflexivity. Qed.

End MarketFacts.

Module ListFacts.

Section Lists.
Context {A : Type}.
Implicit Types (l : list A) (f : A -> bool) (P : A -> Prop).

Lemma Forall_filter f P l : Forall P l -> Forall P (filter f l).
Proof.
  induction 1 as [| x l Hx _ IH]; cbn; [constructor | ].
  destruct (f x); [constructor | ]; assumption.
Qed.

Lemma Forall_firstn P l (n : nat) : Forall P l -> Forall P (firstn n l).
Proof.
  intro Hl. revert n.
  induction Hl as [| x l Hx _ IH]; intros [| n]; cbn; constructor; auto.
Qed.

Lemma In_firstn (x : A) l (n : nat) : In x (firstn n l) -> In x l.
Proof.
  revert n. induction l as [| y l IH]; intros [| n]; cbn; try tauto.
  intros [-> | I]; [now left | right; eauto].
Qed.

Lemma In_skipn (x : A) l (n : nat) : In x (skipn n l) -> In x l.
Proof.
  revert n. induction l as [| y l IH]; intros [| n]; cbn; try tauto.
  intro I. right. eauto.
Qed.

Lemma FOP_filter (R : A -> A -> Prop) f l :
  ForallOrdPairs R l -> ForallOrdPairs R (filter f l).
Proof.
  induction 1 as [| x l Hx _ IH]; cbn; [constructor | ].
  destruct (f x); [constructor | ]; auto using Forall_filter.
Qed.

Lemma FOP_firstn (R : A -> A -> Prop) l (n : nat) :
  ForallOrdPairs R l -> ForallOrdPairs R (firstn n l).
Proof.
  intro Hl. revert n.
  induction Hl as [| x l Hx _ IH]; intros [| n]; cbn; constructor;
    auto using Forall_firstn.
Qed.

End Lists.

End ListFacts.

Module FeedFacts.
Import Js JsFacts Feed ListFacts.

Section WithBuiltins.
Context `{Builtins}.

(** Numbers that are [===] print the same. *)
Lemma strict_eq_toString (x y : number) :
  strict_eq x y = true -> toString x = toString y.
Proof.
  destruct y as [sy | sy | | sy my ey].
  - intro E. destruct (strict_eq_zero _ _ E) as [sx ->]. reflexivity.
  - destruct x as [sx | sx | | sx mx ex]; try destruct sx; destruct sy;
      try discriminate; reflexivity.
  - destruct x as [sx | sx | | sx mx ex]; discriminate.
  - intro E. now rewrite (strict_eq_finite _ _ _ _ E).
Qed.

(** Two well-keyed updates of one identity carry one key. *)
Lemma same_identity_key (a b : PriceUpdate) :
  well_keyed a -> well_keyed b ->
  same_identity a b = true -> key a = key b.
Proof.
  unfold well_keyed, same_identity, update_key. intros -> ->.
  rewrite !andb_true_iff. intros [[Es Et] Ep].
  apply String.eqb_eq in Es. rewrite Es.
  now rewrite (strict_eq_toString _ _ Et), (strict_eq_toString _ _ Ep).
Qed.

Lemma decodeTrade_accepted (symbolForSession : string) (trade : value)
  (update : PriceUpdate) :
  decodeTrade symbolForSession trade = Accepted update ->
  symbol update = symbolForSession /\ well_keyed update.
Proof.
  unfold decodeTrade.
  set (s := match get trade "s" with JString s => Some s | _ => None end).
  set (p := number_of (get trade "p")).
  set (t := number_of (get trade "t")).
  intro D.
  assert (D' : match s with
               | None => Dropped
               | Some symbol =>
                   if String.eqb symbol "" || isNaN p || isNaN t
                      || negb (String.eqb symbol symbolForSession)
                   then Dropped
                   else Accepted {| key := update_key symbol t p;
                                    symbol := symbol; price := p;
                                    timestamp := t |}
               end = Accepted update)
    by (destruct trade; solve [discriminate D | exact D]).
  clear D. destruct s as [sym | ]; [ | discriminate].
  destruct (String.eqb sym "" || isNaN p || isNaN t
            || negb (String.eqb sym symbolForSession)) eqn:G; [discriminate | ].
  injection D' as <-. cbn.
  rewrite !orb_false_iff, negb_false_iff in G.
  destruct G as [_ G]. apply String.eqb_eq in G. split; [exact G | reflexivity].
Qed.

Lemma buffer_ok_nil (symbol : string) : buffer_ok symbol [].
Proof.
  repeat split; try constructor. cbn. unfold MAX_ITEMS. lia.
Qed.

Lemma pushUpdate_ok (sym : string) (update : PriceUpdate)
  (prev : list PriceUpdate) :
  symbol update = sym -> well_keyed update ->
  buffer_ok sym prev -> buffer_ok sym (pushUpdate update prev).
Proof.
  intros Hsym Hkey [(Hall & _ & Hpairs) Hkeys]. unfold pushUpdate.
  set (others := filter _ prev).
  assert (Hfresh : Forall (fun b => same_identity update b = false) others).
  { apply Forall_forall. intros b Hb. apply filter_In in Hb as [Hin Hne].
    rewrite Forall_forall in Hkeys.
    destruct (same_identity update b) eqn:E; [ | reflexivity].
    apply same_identity_key in E; auto.
    rewrite <- E, String.eqb_refl in Hne. discriminate. }
  split; [split; [ | split] | ].
  - apply Forall_firstn. constructor; [exact Hsym | now apply Forall_filter].
  - apply firstn_le_length.
  - apply FOP_firstn. constructor; [exact Hfresh | now apply FOP_filter].
  - apply Forall_firstn. constructor; [exact Hkey | now apply Forall_filter].
Qed.

Lemma forEachTrade_ok (sym : string) (trades : list value) (v : View) :
  buffer_ok sym (updates v) ->
  buffer_ok sym (updates (forEachTrade sym trades v)).
Proof.
  revert v. induction trades as [| trade rest IH]; intros v Hv; [exact Hv | ].
  cbn [forEachTrade].
  destruct (decodeTrade sym trade) as [ | | update] eqn:D; auto.
  apply IH. cbn [acceptUpdate updates].
  apply decodeTrade_accepted in D as [Hs Hk]. now apply pushUpdate_ok.
Qed.

Lemma handleMessage_ok (sym data : string) (v : View) :
  buffer_ok sym (updates v) ->
  buffer_ok sym (updates (handleMessage sym data v)).
Proof.
  intro Hv. unfold handleMessage.
  destruct (JSON_parse data); [ | exact Hv]. now apply forEachTrade_ok.
Qed.

(** C1.  The buffer of the session bound to [symbolForSession] holds its
    invariant and every element in it is keyed by its own
    [(symbol, timestamp, price)], as the empty buffer is and as every
    element put there by an accept is.  Then, whatever the session
    receives, trade by trade or message by message, the buffer keeps its
    invariant: every element carries the session's symbol, there are at
    most [MAX_ITEMS] = 20 elements, and no two elements have the same
    [(symbol, timestamp, price)].  (Every prefix of a sequence is a
    sequence, so this is the buffer after each accept.) *)
Theorem buffer_invariant_kept (symbolForSession : string) (v : View) :
  buffer_invariant symbolForSession (updates v) ->
  Forall well_keyed (updates v) ->
  (forall batches : list (list value),
      buffer_invariant symbolForSession
        (updates (fold_left (fun v trades => forEachTrade symbolForSession trades v)
                            batches v)))
  /\ (forall messages : list string,
         buffer_invariant symbolForSession
           (updates (fold_left (fun v data => handleMessage symbolForSession data v)
                               messages v))).
Proof.
  intros Hinv Hkeys.
  assert (Hv : buffer_ok symbolForSession (updates v)) by now split.
  clear Hinv Hkeys. split.
  - intro batches.
    enough (G : buffer_ok symbolForSession
                  (updates (fold_left (fun v trades =>
                                         forEachTrade symbolForSession trades v)
                                      batches v)))
      by apply G.
    revert v Hv. induction batches as [| b rest IH]; intros v Hv; [exact Hv | ].
    cbn [fold_left]. apply IH. now apply forEachTrade_ok.
  - intro messages.
    enough (G : buffer_ok symbolForSession
                  (updates (fold_left (fun v data =>
                                         handleMessage symbolForSession data v)
                                      messages v)))
      by apply G.
    revert v Hv. induction messages as [| m rest IH]; intros v Hv; [exact Hv | ].
    cbn [fold_left]. apply IH. now apply handleMessage_ok.
Qed.

End WithBuiltins.

(** On an example: the buffer that holds the trade of one message. *)
Lemma buffer_invariant_kept_witness :
  (forall batches : list (list value),
      buffer_invariant "AAPL"
        (updates (fold_left
                    (fun v trades =>
                       forEachTrade (H := App.demo_builtins) "AAPL" trades v)
                    batches
                    (handleMessage (H := App.demo_builtins) "AAPL" "trade"
                       initial))))
  /\ (forall messages : list string,
         buffer_invariant "AAPL"
           (updates (fold_left
                       (fun v data =>
                          handleMessage (H := App.demo_builtins) "AAPL" data v)
                       messages
                       (handleMessage (H := App.demo_builtins) "AAPL" "trade"
                          initial)))).
Proof.
  apply (buffer_invariant_kept (H := App.demo_builtins) "AAPL"
           (handleMessage (H := App.demo_builtins) "AAPL" "trade" initial)).
  - repeat split; [ repeat constructor | cbn; unfold MAX_ITEMS; lia
                  | repeat constructor ].
  - repeat constructor.
Defined.

End FeedFacts.

Module OrderFacts.
Import Js JsFacts.

(** [<=] on numbers that are not [NaN] is the lexicographic order of their
    ranks. *)
Lemma le_rank (x y : number) :
  isNaN x = false -> isNaN y = false ->
  (le x y = true <-> rank_le (rank x) (rank y)).
Proof.
  unfold le, SFleb, SFcompare, rank_le, rank.
  destruct x as [sx | sx | | sx mx ex]; destruct y as [sy | sy | | sy my ey];
    try discriminate; intros _ _;
    try destruct sx; try destruct sy;
    try (split; intro; try discriminate; try reflexivity; lia);
    rewrite ?compare_cont_Eq;
    destruct (Z.compare_spec ex ey); try destruct (Pos.compare_spec mx my);
    cbn; split; intro; try discriminate; try reflexivity; lia.
Qed.

Lemma le_total (x y : number) :
  isNaN x = false -> isNaN y = false -> le x y = true \/ le y x = true.
Proof.
  intros Hx Hy. rewrite (le_rank x y Hx Hy), (le_rank y x Hy Hx).
  unfold rank_le. destruct (rank x) as [[c1 e1] m1], (rank y) as [[c2 e2] m2].
  lia.
Qed.

Lemma le_trans (x y z : number) :
  isNaN x = false -> isNaN y = false -> isNaN z = false ->
  le x y = true -> le y z = true -> le x z = true.
Proof.
  intros Hx Hy Hz.
  rewrite (le_rank x y Hx Hy), (le_rank y z Hy Hz), (le_rank x z Hx Hz).
  unfold rank_le.
  destruct (rank x) as [[c1 e1] m1], (rank y) as [[c2 e2] m2],
    (rank z) as [[c3 e3] m3].
  lia.
Qed.

End OrderFacts.

Module SortFacts.
Import Store ListFacts.

Lemma id_in_In (x : Z) (ids : list Z) : id_in x ids = true <-> In x ids.
Proof.
  unfold id_in. rewrite existsb_exists. split.
  - intros (y & Hy & E). apply Z.eqb_eq in E. now subst.
  - intro Hx. exists x. split; [exact Hx | apply Z.eqb_refl].
Qed.

Lemma Permutation_filter {A : Type} (f : A -> bool) (l l' : list A) :
  Permutation l l' -> Permutation (filter f l) (filter f l').
Proof.
  induction 1 as [| x l l' _ IH | x y l | l l' l'' _ IH1 _ IH2]; cbn.
  - constructor.
  - destruct (f x); [now constructor | exact IH].
  - destruct (f x), (f y); try reflexivity. constructor.
  - now transitivity (filter f l').
Qed.

Lemma Forall_perm {A : Type} (P : A -> Prop) (l l' : list A) :
  Permutation l l' -> Forall P l -> Forall P l'.
Proof.
  intros Hp Hl. rewrite Forall_forall in *. intros x Hx.
  apply Hl. eapply Permutation_in; [symmetry; exact Hp | exact Hx].
Qed.

Lemma filter_all {A : Type} (f : A -> bool) (l : list A) :
  (forall x, In x l -> f x = true) -> filter f l = l.
Proof.
  induction l as [| x l IH]; intro Hf; cbn; [reflexivity | ].
  rewrite (Hf x (or_introl eq_refl)). f_equal. apply IH.
  intros y Hy. apply Hf. now right.
Qed.

Lemma filter_none {A : Type} (f : A -> bool) (l : list A) :
  (forall x, In x l -> f x = false) -> filter f l = [].
Proof.
  induction l as [| x l IH]; intro Hf; cbn; [reflexivity | ].
  rewrite (Hf x (or_introl eq_refl)). apply IH.
  intros y Hy. apply Hf. now right.
Qed.

Lemma id_injective {A : Type} (id : A -> Z) (l : list A) :
  NoDup (map id l) ->
  forall a b, In a l -> In b l -> id a = id b -> a = b.
Proof.
  induction l as [| x l' IH]; cbn; [tauto | ].
  intro Hnd. inversion Hnd as [| ? ? Hnotin Hnd']; subst.
  intros a b [-> | Ia] [-> | Ib] E; auto.
  - exfalso. apply Hnotin. rewrite E. now apply in_map.
  - exfalso. apply Hnotin. rewrite <- E. now apply in_map.
Qed.

Section OrderBy.
Context {A : Type}.
Variable before : A -> A -> bool.
Variable ok : A -> Prop.
Hypothesis before_total :
  forall a b, ok a -> ok b -> before a b = true \/ before b a = true.
Hypothesis before_trans :
  forall a b c, ok a -> ok b -> ok c ->
                before a b = true -> before b c = true -> before a c = true.

Let R (a b : A) : Prop := before a b = true.

Lemma insert_by_perm (x : A) (l : list A) :
  Permutation (insert_by before x l) (x :: l).
Proof.
  induction l as [| y l IH]; cbn; [reflexivity | ].
  destruct (before x y); [reflexivity | ].
  rewrite IH. constructor.
Qed.

Lemma order_by_perm (l : list A) : Permutation (order_by before l) l.
Proof.
  induction l as [| x l IH]; cbn; [reflexivity | ].
  rewrite insert_by_perm. now constructor.
Qed.

Lemma insert_by_sorted (x : A) (l : list A) :
  ok x -> Forall ok l -> StronglySorted R l ->
  StronglySorted R (insert_by before x l).
Proof.
  intros Hx Hl Hs. induction Hs as [| y l Hs IH Hy]; cbn.
  - repeat constructor.
  - inversion Hl as [| ? ? Hoky Hokl]; subst.
    destruct (before x y) eqn:E.
    + constructor; [now constructor | ].
      constructor; [exact E | ].
      rewrite Forall_forall in *. intros z Hz.
      apply (before_trans x y z); auto. now apply Hy.
    + constructor; [now apply IH | ].
      assert (Hyx : R y x).
      { destruct (before_total x y Hx Hoky) as [C | C]; [congruence | exact C]. }
      apply (Forall_perm _ (x :: l)).
      * symmetry. apply insert_by_perm.
      * now constructor.
Qed.

Lemma order_by_sorted (l : list A) :
  Forall ok l -> StronglySorted R (order_by before l).
Proof.
  induction 1 as [| x l Hx Hl IH]; cbn; [constructor | ].
  apply insert_by_sorted; auto.
  apply (Forall_perm _ l); [ | exact Hl].
  symmetry. apply order_by_perm.
Qed.

Lemma sorted_split (l : list A) (n : nat) (a b : A) :
  StronglySorted R l ->
  In a (firstn n l) -> In b (skipn n l) -> before a b = true.
Proof.
  intro Hs. revert n.
  induction Hs as [| x l Hs IH Hx]; intros [| n]; cbn; try tauto.
  intros [-> | Ia] Ib.
  - rewrite Forall_forall in Hx. apply Hx. eapply In_skipn, Ib.
  - eauto.
Qed.

(** What a [DELETE ... WHERE id NOT IN (SELECT id ... ORDER BY ... LIMIT n)]
    leaves of the rows [l] it ranges over, when ids are unique. *)
Variable id : A -> Z.
Variable l : list A.
Variable n : nat.
Hypothesis ids_unique : NoDup (map id l).
Hypothesis all_ok : Forall ok l.

Let chosen : list A := firstn n (order_by before l).
Let others : list A := skipn n (order_by before l).
Let keep (r : A) : bool := id_in (id r) (map id chosen).

Lemma chosen_others_perm : Permutation (chosen ++ others) l.
Proof.
  unfold chosen, others. rewrite firstn_skipn. apply order_by_perm.
Qed.

Lemma In_chosen_or_others (r : A) : In r l <-> In r chosen \/ In r others.
Proof.
  rewrite <- in_app_iff. split; apply Permutation_in;
    [symmetry | ]; apply chosen_others_perm.
Qed.

Lemma chosen_others_disjoint (r : A) : In r chosen -> In r others -> False.
Proof.
  intros Hc Ho.
  assert (Hnd : NoDup (map id (chosen ++ others))).
  { apply (Permutation_NoDup (l := map id l)); [ | exact ids_unique].
    apply Permutation_map. symmetry. apply chosen_others_perm. }
  rewrite map_app in Hnd.
  apply in_split in Hc as (c1 & c2 & Ec). rewrite Ec in Hnd.
  rewrite map_app in Hnd. cbn in Hnd. rewrite <- app_assoc in Hnd. cbn in Hnd.
  apply NoDup_remove_2 in Hnd. apply Hnd.
  rewrite !in_app_iff. right. right. now apply in_map.
Qed.

Lemma keep_chosen (r : A) : In r l -> (keep r = true <-> In r chosen).
Proof.
  intro Hr. unfold keep. rewrite id_in_In, in_map_iff. split.
  - intros (r' & E & Hr'). 
    assert (r' = r) as <-; [ | exact Hr'].
    apply (id_injective id l ids_unique); auto.
    apply In_chosen_or_others. now left.
  - intro Hc. now exists r.
Qed.

Lemma kept_perm : Permutation (filter keep l) chosen.
Proof.
  rewrite <- (Permutation_filter keep _ _ chosen_others_perm).
  rewrite filter_app, filter_all, filter_none, app_nil_r; [reflexivity | | ].
  - intros r Hr.
    assert (Hl : In r l) by (apply In_chosen_or_others; now right).
    destruct (keep r) eqn:E; [ | reflexivity].
    apply keep_chosen in E; [ | exact Hl].
    exfalso. eapply chosen_others_disjoint; eauto.
  - intros r Hr. apply keep_chosen; [ | exact Hr].
    apply In_chosen_or_others. now left.
Qed.

Lemma kept_length : List.length (filter keep l) = Nat.min n (List.length l).
Proof.
  rewrite (Permutation_length kept_perm). unfold chosen.
  rewrite length_firstn, (Permutation_length (order_by_perm l)). reflexivity.
Qed.

Lemma kept_before_dropped (k d : A) :
  In k l -> In d l -> keep k = true -> keep d = false -> before k d = true.
Proof.
  intros Hk Hd Ek Ed.
  apply keep_chosen in Ek; [ | exact Hk].
  assert (Hdo : In d others).
  { apply In_chosen_or_others in Hd as [Hc | Ho]; [ | exact Ho].
    apply keep_chosen in Hc; [congruence | ].
    apply In_chosen_or_others. now left. }
  apply (sorted_split (order_by before l) n); auto.
  now apply order_by_sorted.
Qed.

End OrderBy.

End SortFacts.

Module StoreFacts.
Import Js JsFacts OrderFacts Store App ListFacts SortFacts.

(** *** Shape of a pruning DELETE *)

Lemma prune_matching_rows {A : Type} (f k : A -> bool) (t : list A) :
  filter f (filter (fun r => negb (f r && negb (k r))) t)
  = filter k (filter f t).
Proof.
  induction t as [| a t IH]; cbn; [reflexivity | ].
  destruct (f a) eqn:F, (k a) eqn:K; cbn; rewrite ?F, ?K; cbn;
    rewrite ?IH; reflexivity.
Qed.

Lemma prune_keeps_others {A : Type} (f k : A -> bool) (t : list A) (r : A) :
  f r = false ->
  (In r (filter (fun r => negb (f r && negb (k r))) t) <-> In r t).
Proof.
  intro F. rewrite filter_In, F. cbn. tauto.
Qed.

Lemma NoDup_map_filter {A : Type} (id : A -> Z) (f : A -> bool) (t : list A) :
  NoDup (map id t) -> NoDup (map id (filter f t)).
Proof.
  induction t as [| a t IH]; cbn; intro Hnd; [constructor | ].
  inversion Hnd as [| ? ? Hnotin Hnd']; subst.
  destruct (f a); cbn; auto. constructor; auto.
  intro Hin. apply Hnotin. apply in_map_iff in Hin as (b & E & Hb).
  apply filter_In in Hb as [Hb _]. rewrite <- E. now apply in_map.
Qed.

Lemma NoDup_snoc {A : Type} (l : list A) (x : A) :
  NoDup l -> ~ In x l -> NoDup (l ++ [x]).
Proof.
  intros Hnd Hx. apply (Permutation_NoDup (l := x :: l)).
  - apply Permutation_cons_append.
  - now constructor.
Qed.

Lemma nodupb_sound (ids : list Z) : nodupb ids = true -> NoDup ids.
Proof.
  induction ids as [| x ids IH]; cbn; intro E; [constructor | ].
  apply andb_true_iff in E as [Hx Hr]. constructor; [ | now apply IH].
  rewrite <- id_in_In. now destruct (id_in x ids).
Qed.

Lemma wf_updates_sound (db : Db) : wf_updates_b db = true -> wf_updates db.
Proof.
  unfold wf_updates_b, wf_updates. rewrite !andb_true_iff.
  intros [[Hnd Hle] Hts]. repeat split.
  - now apply nodupb_sound.
  - apply Forall_forall. intros r Hr.
    rewrite forallb_forall in Hle. apply Z.leb_le. now apply Hle.
  - apply Forall_forall. intros r Hr.
    rewrite forallb_forall in Hts. specialize (Hts r Hr).
    now destruct (isNaN (pu_timestamp r)).
Qed.

Lemma wf_alerts_sound (db : Db) : wf_alerts_b db = true -> wf_alerts db.
Proof.
  unfold wf_alerts_b, wf_alerts. rewrite !andb_true_iff.
  intros [[Hnd Hle] Htr]. repeat split.
  - now apply nodupb_sound.
  - apply Forall_forall. intros r Hr.
    rewrite forallb_forall in Hle. apply Z.leb_le. now apply Hle.
  - apply Forall_forall. intros r Hr.
    rewrite forallb_forall in Htr. specialize (Htr r Hr).
    apply orb_true_iff in Htr as [E | E]; apply Z.eqb_eq in E; auto.
Qed.

(** *** price_updates *)

Lemma timestamp_desc_total (a b : PriceUpdateRow) :
  stored a -> stored b ->
  timestamp_desc a b = true \/ timestamp_desc b a = true.
Proof.
  intros Ha Hb. destruct (le_total _ _ Ha Hb); [right | left]; assumption.
Qed.

Lemma timestamp_desc_trans (a b c : PriceUpdateRow) :
  stored a -> stored b -> stored c ->
  timestamp_desc a b = true -> timestamp_desc b c = true ->
  timestamp_desc a c = true.
Proof.
  intros Ha Hb Hc Hab Hbc.
  exact (le_trans _ _ _ Hc Hb Ha Hbc Hab).
Qed.

Lemma isNaN_stored_number (x : number) : isNaN (stored_number x) = isNaN x.
Proof. now destruct x. Qed.

Lemma lt_stored_number (x y : number) : lt x (stored_number y) = lt x y.
Proof. destruct x as [ | | | [] ], y as [ [] | | | ]; reflexivity. Qed.

Lemma run_insert_rejected (symbol : string) (price timestamp : number)
  (db : Db) :
  rejected price timestamp = true ->
  run_insert_price_update symbol price timestamp db = None.
Proof. intro E. unfold run_insert_price_update. now rewrite E. Qed.

Lemma run_insert_accepted (symbol : string) (price timestamp : number)
  (db : Db) :
  rejected price timestamp = false ->
  run_insert_price_update symbol price timestamp db
  = Some (insert_price_update symbol price timestamp db).
Proof.
  intro E. unfold insert_price_update, run_insert_price_update. now rewrite E.
Qed.

(** Split on whether the INSERT of the goal goes through. *)
Ltac insert_cases :=
  match goal with
  | |- context [run_insert_price_update ?a ?b ?c ?d] =>
      let R := fresh "R" in
      destruct (rejected b c) eqn:R;
      [ rewrite (run_insert_rejected a b c d R)
      | rewrite (run_insert_accepted a b c d R) ]
  end.

Lemma insert_rejected (symbol : string) (price timestamp : number) (db : Db) :
  rejected price timestamp = true ->
  insert_price_update symbol price timestamp db = db.
Proof.
  intro E. unfold insert_price_update. now rewrite run_insert_rejected.
Qed.

Lemma insert_accepted (symbol : string) (price timestamp : number) (db : Db) :
  rejected price timestamp = false ->
  insert_price_update symbol price timestamp db
  = {| price_updates :=
         price_updates db ++
         [{| pu_id := price_updates_seq db + 1; pu_symbol := symbol;
             pu_price := stored_number price;
             pu_timestamp := stored_number timestamp |}];
       price_updates_seq := price_updates_seq db + 1;
       price_alerts := price_alerts db;
       price_alerts_seq := price_alerts_seq db |}.
Proof.
  intro E. unfold insert_price_update, run_insert_price_update. now rewrite E.
Qed.

Lemma insert_price_update_alerts (symbol : string) (price timestamp : number)
  (db : Db) :
  price_alerts (insert_price_update symbol price timestamp db)
  = price_alerts db
  /\ price_alerts_seq (insert_price_update symbol price timestamp db)
     = price_alerts_seq db.
Proof.
  unfold insert_price_update, run_insert_price_update.
  now destruct (rejected price timestamp).
Qed.

Lemma persistUpdate_rejected (update : Feed.PriceUpdate) (db : Db) :
  rejected (Feed.price update) (Feed.timestamp update) = true ->
  persistUpdate update db = db.
Proof.
  intro E. unfold persistUpdate. now rewrite run_insert_rejected.
Qed.

Lemma persistUpdate_accepted (update : Feed.PriceUpdate) (db : Db) :
  rejected (Feed.price update) (Feed.timestamp update) = false ->
  persistUpdate update db
  = prune_price_updates (Feed.symbol update) DB_MAX_ITEMS
      (insert_price_update (Feed.symbol update) (Feed.price update)
         (Feed.timestamp update) db).
Proof.
  intro E. unfold persistUpdate. now rewrite run_insert_accepted.
Qed.

Lemma insert_price_update_wf (symbol : string) (price timestamp : number)
  (db : Db) :
  isNaN timestamp = false -> wf_updates db ->
  wf_updates (insert_price_update symbol price timestamp db).
Proof.
  intros Ht Hwf.
  destruct (rejected price timestamp) eqn:E;
    [now rewrite insert_rejected | rewrite (insert_accepted _ _ _ _ E)].
  destruct Hwf as (Hnd & Hle & Hts). unfold wf_updates. cbn.
  rewrite map_app. cbn. repeat split.
  - apply NoDup_snoc; [exact Hnd | ].
    intro Hin. apply in_map_iff in Hin as (r & Er & Hr).
    rewrite Forall_forall in Hle. specialize (Hle r Hr). lia.
  - apply Forall_app. split.
    + revert Hle. apply Forall_impl. intros r Hr. lia.
    + repeat constructor. cbn. lia.
  - apply Forall_app. split; [exact Hts | ].
    repeat constructor. cbn. now rewrite isNaN_stored_number.
Qed.

(** What the pruning DELETE of [price_updates] leaves. *)
Lemma prune_price_updates_spec (symbol : string) (limit : nat) (db : Db) :
  wf_updates db ->
  let db' := prune_price_updates symbol limit db in
  List.length (updates_of symbol db')
    = Nat.min limit (List.length (updates_of symbol db))
  /\ incl (price_updates db') (price_updates db)
  /\ (forall kept dropped,
         In kept (updates_of symbol db') ->
         In dropped (updates_of symbol db) ->
         ~ In dropped (price_updates db') ->
         ge (pu_timestamp kept) (pu_timestamp dropped) = true)
  /\ (forall r, pu_symbol r <> symbol ->
                (In r (price_updates db') <-> In r (price_updates db))).
Proof.
  intros (Hnd & _ & Hts) db'.
  set (l := updates_of symbol db).
  assert (Hndl : NoDup (map pu_id l)) by now apply NoDup_map_filter.
  assert (Hokl : Forall stored l) by now apply Forall_filter.
  assert (Hrows : updates_of symbol db'
                  = filter (fun r => id_in (pu_id r)
                                       (map pu_id (select_recent_updates symbol limit db)))
                           l).
  { unfold db', updates_of, prune_price_updates. cbn [price_updates].
    apply (prune_matching_rows (fun r => String.eqb (pu_symbol r) symbol)). }
  repeat split.
  - rewrite Hrows. unfold select_recent_updates. fold l.
    now apply kept_length.
  - unfold db', prune_price_updates. cbn [price_updates]. apply incl_filter.
  - intros kept dropped Hk Hd Hgone.
    rewrite Hrows in Hk. apply filter_In in Hk as [Hkl Hkeep].
    change (timestamp_desc kept dropped = true).
    apply (kept_before_dropped timestamp_desc stored timestamp_desc_total
             timestamp_desc_trans pu_id l limit Hndl Hokl); auto.
    destruct (id_in (pu_id dropped) _) eqn:E; [ | reflexivity].
    exfalso. apply Hgone.
    unfold db', prune_price_updates. cbn [price_updates].
    apply filter_In. split.
    + now apply filter_In in Hd as [Hd _].
    + unfold select_recent_updates. fold l. rewrite E.
      now rewrite andb_false_r.
  - unfold db', prune_price_updates. cbn [price_updates].
    apply prune_keeps_others. now apply String.eqb_neq.
  - unfold db', prune_price_updates. cbn [price_updates].
    apply prune_keeps_others. now apply String.eqb_neq.
Qed.

Lemma updates_of_insert (symbol : string) (price timestamp : number) (db : Db) :
  rejected price timestamp = false ->
  List.length (updates_of symbol (insert_price_update symbol price timestamp db))
  = S (List.length (updates_of symbol db)).
Proof.
  intro E. rewrite (insert_accepted _ _ _ _ E).
  unfold updates_of. cbn [price_updates pu_symbol].
  rewrite filter_app, length_app. cbn. rewrite String.eqb_refl. cbn. lia.
Qed.

(** C7.  A symbol's history is at the cap [DB_MAX_ITEMS] = 60 and a new
    record is persisted: afterwards the symbol has exactly 60 records, all
    of them among the 61 that were there after the INSERT, and every record
    that was kept is at least as new as the one that was dropped; records of
    other symbols are untouched.  (When the INSERT is refused, for a price
    that is NaN, the table after it is the table before it and nothing is
    dropped.) *)
Theorem persistUpdate_keeps_newest (update : Feed.PriceUpdate) (db : Db) :
  wf_updates db ->
  isNaN (Feed.timestamp update) = false ->
  List.length (updates_of (Feed.symbol update) db) = DB_MAX_ITEMS ->
  let symbol := Feed.symbol update in
  let inserted :=
    insert_price_update symbol (Feed.price update) (Feed.timestamp update) db in
  let db' := persistUpdate update db in
  List.length (updates_of symbol db') = DB_MAX_ITEMS
  /\ incl (price_updates db') (price_updates inserted)
  /\ (forall kept dropped,
         In kept (updates_of symbol db') ->
         In dropped (updates_of symbol inserted) ->
         ~ In dropped (price_updates db') ->
         ge (pu_timestamp kept) (pu_timestamp dropped) = true)
  /\ (forall r, pu_symbol r <> symbol ->
                (In r (price_updates db') <-> In r (price_updates db))).
Proof.
  intros Hwf Ht Hfull symbol inserted db'.
  destruct (rejected (Feed.price update) (Feed.timestamp update)) eqn:Erej.
  - (* the INSERT throws: nothing is written, nothing is pruned *)
    assert (Hi : inserted = db) by now apply insert_rejected.
    assert (Hd : db' = db) by now apply persistUpdate_rejected.
    rewrite Hd, Hi.
    split; [exact Hfull|]. split; [apply incl_refl|]. split; [|tauto].
    intros kept dropped _ Hdrop Hgone. exfalso. apply Hgone.
    now apply filter_In in Hdrop as [Hdrop _].
  - assert (Hwf' : wf_updates inserted) by now apply insert_price_update_wf.
    pose proof (prune_price_updates_spec symbol DB_MAX_ITEMS inserted Hwf')
      as Hspec.
    cbn zeta in Hspec.
    assert (Hd : prune_price_updates symbol DB_MAX_ITEMS inserted = db')
      by (symmetry; now apply persistUpdate_accepted).
    rewrite Hd in Hspec.
    destruct Hspec as (Hlen & Hincl & Hnew & Hother).
    repeat split.
    + rewrite Hlen. unfold inserted. rewrite updates_of_insert by exact Erej.
      fold symbol in Hfull. rewrite Hfull. reflexivity.
    + exact Hincl.
    + exact Hnew.
    + intro Hr. apply Hother in Hr; [ | assumption].
      unfold inserted in Hr. rewrite (insert_accepted _ _ _ _ Erej) in Hr.
      cbn [price_updates] in Hr.
      apply in_app_or in Hr as [Hr | [<- | []]]; [exact Hr | ].
      now cbn in H.
    + intro Hr. apply Hother; [assumption | ].
      unfold inserted. rewrite (insert_accepted _ _ _ _ Erej).
      cbn [price_updates]. apply in_or_app. now left.
Qed.

Lemma persistUpdate_keeps_newest_witness :
  List.length (updates_of (Feed.symbol sample_update) (sample_updates "AAPL" 60))
  = DB_MAX_ITEMS
  /\ List.length (updates_of (Feed.symbol sample_update)
                    (persistUpdate sample_update (sample_updates "AAPL" 60)))
     = DB_MAX_ITEMS.
Proof.
  assert (Hfull : List.length (updates_of (Feed.symbol sample_update)
                                 (sample_updates "AAPL" 60)) = DB_MAX_ITEMS)
    by (vm_compute; reflexivity).
  split; [exact Hfull | ].
  refine (proj1 (persistUpdate_keeps_newest sample_update
                   (sample_updates "AAPL" 60) _ _ Hfull)).
  - apply wf_updates_sound. vm_compute. reflexivity.
  - reflexivity.
Defined.

End StoreFacts.

Module AlertStoreFacts.
Import Js JsFacts Store App ListFacts SortFacts StoreFacts.

(** *** price_alerts *)

Lemma triggered_asc_id_desc_spec (a b : PriceAlertRow) :
  triggered_asc_id_desc a b = true <->
  pa_triggered a < pa_triggered b
  \/ (pa_triggered a = pa_triggered b /\ pa_id b <= pa_id a).
Proof.
  unfold triggered_asc_id_desc.
  rewrite orb_true_iff, andb_true_iff, Z.ltb_lt, Z.eqb_eq, Z.leb_le. tauto.
Qed.

Lemma triggered_asc_id_desc_total (a b : PriceAlertRow) :
  True -> True ->
  triggered_asc_id_desc a b = true \/ triggered_asc_id_desc b a = true.
Proof. intros _ _. rewrite !triggered_asc_id_desc_spec. lia. Qed.

Lemma triggered_asc_id_desc_trans (a b c : PriceAlertRow) :
  True -> True -> True ->
  triggered_asc_id_desc a b = true -> triggered_asc_id_desc b c = true ->
  triggered_asc_id_desc a c = true.
Proof. intros _ _ _. rewrite !triggered_asc_id_desc_spec. lia. Qed.

Lemma insert_price_alert_wf (symbol direction : string) (price : number)
  (db : Db) :
  wf_alerts db -> wf_alerts (insert_price_alert symbol direction price db).
Proof.
  intros (Hnd & Hle & Htr). unfold wf_alerts, insert_price_alert. cbn.
  rewrite map_app. cbn. repeat split.
  - apply NoDup_snoc; [exact Hnd | ].
    intro Hin. apply in_map_iff in Hin as (r & E & Hr).
    rewrite Forall_forall in Hle. specialize (Hle r Hr). lia.
  - apply Forall_app. split.
    + revert Hle. apply Forall_impl. intros r Hr. lia.
    + repeat constructor. cbn. lia.
  - apply Forall_app. split; [exact Htr | repeat constructor; now left].
Qed.

Lemma filter_drops {A : Type} (f : A -> bool) (l : list A) :
  (List.length (filter f l) < List.length l)%nat ->
  exists x, In x l /\ f x = false.
Proof.
  induction l as [| a l IH]; cbn; [lia | ].
  destruct (f a) eqn:F; cbn; intro Hlt.
  - destruct IH as (x & Hx & Fx); [lia | ]. exists x. auto.
  - exists a. auto.
Qed.

Lemma filter_partition_length {A : Type} (f : A -> bool) (l : list A) :
  (List.length (filter f l) + List.length (filter (fun x => negb (f x)) l)
   = List.length l)%nat.
Proof.
  induction l as [| a l IH]; cbn; [reflexivity | ].
  destruct (f a); cbn; lia.
Qed.

(** What the pruning DELETE of [price_alerts] leaves. *)
Lemma prune_price_alerts_spec (symbol : string) (limit : nat) (db : Db) :
  wf_alerts db ->
  let db' := prune_price_alerts symbol limit db in
  let keep := fun r =>
    id_in (pa_id r)
      (map pa_id (firstn limit (order_by triggered_asc_id_desc
                                          (alerts_of symbol db)))) in
  alerts_of symbol db' = filter keep (alerts_of symbol db)
  /\ List.length (alerts_of symbol db')
     = Nat.min limit (List.length (alerts_of symbol db))
  /\ (forall r, In r (alerts_of symbol db) ->
                (In r (price_alerts db') <-> keep r = true))
  /\ (forall kept deleted,
         In kept (alerts_of symbol db') ->
         In deleted (alerts_of symbol db) ->
         ~ In deleted (price_alerts db') ->
         pa_triggered kept < pa_triggered deleted
         \/ (pa_triggered kept = pa_triggered deleted
             /\ pa_id deleted < pa_id kept))
  /\ (forall r, pa_symbol r <> symbol ->
                (In r (price_alerts db') <-> In r (price_alerts db))).
Proof.
  intros (Hnd & _ & _) db' keep.
  set (l := alerts_of symbol db).
  assert (Hndl : NoDup (map pa_id l)) by now apply NoDup_map_filter.
  assert (Hokl : Forall (fun _ => True) l) by now apply Forall_forall.
  assert (Hrows : alerts_of symbol db' = filter keep l).
  { unfold db', alerts_of, prune_price_alerts. cbn [price_alerts].
    apply (prune_matching_rows (fun r => String.eqb (pa_symbol r) symbol)). }
  assert (Hin : forall r, In r l -> (In r (price_alerts db') <-> keep r = true)).
  { intros r Hr. unfold db', prune_price_alerts. cbn [price_alerts].
    rewrite filter_In. fold l.
    apply filter_In in Hr as [Hr Hs]. rewrite Hs. cbn.
    change (id_in (pa_id r) _) with (keep r).
    destruct (keep r); cbn; intuition congruence. }
  split; [exact Hrows | ]. split; [ | split; [exact Hin | split]].
  - rewrite Hrows. now apply kept_length.
  - intros kept deleted Hk Hd Hgone.
    rewrite Hrows in Hk. apply filter_In in Hk as [Hkl Hkeep].
    assert (Hdrop : keep deleted = false).
    { destruct (keep deleted) eqn:E; [ | reflexivity].
      exfalso. apply Hgone. now apply Hin. }
    assert (Hb : triggered_asc_id_desc kept deleted = true).
    { apply (kept_before_dropped triggered_asc_id_desc (fun _ => True)
               triggered_asc_id_desc_total triggered_asc_id_desc_trans
               pa_id l limit Hndl Hokl); auto. }
    apply triggered_asc_id_desc_spec in Hb.
    assert (Hne : pa_id deleted <> pa_id kept).
    { intro E. apply (id_injective pa_id l Hndl) in E; auto.
      subst. congruence. }
    lia.
  - intros r Hr. unfold db', prune_price_alerts. cbn [price_alerts].
    apply prune_keeps_others. now apply String.eqb_neq.
Qed.

(** C10.  Saving an alert: the symbol is left with at most
    [ALERT_MAX_ITEMS] = 20 alerts, the new one among them; whatever was
    deleted comes, in the order [triggered ASC, id DESC], after everything
    that was kept (a kept alert is less triggered, or equally triggered and
    of larger id); when the symbol already had 20 alerts, exactly one of
    them is deleted, without a word to the user; other symbols are left
    alone. *)
Theorem saveAlert_prunes (symbol : string) (d : Direction) (price : number)
  (db : Db) :
  wf_alerts db ->
  let inserted := insert_price_alert symbol (direction_text d) price db in
  let created :=
    {| pa_id := price_alerts_seq db + 1; pa_symbol := symbol;
       pa_direction := direction_text d; pa_price := price;
       pa_triggered := 0 |} in
  let db' := saveAlert symbol d price db in
  (List.length (alerts_of symbol db') <= ALERT_MAX_ITEMS)%nat
  /\ In created (price_alerts db')
  /\ incl (price_alerts db') (price_alerts inserted)
  /\ (forall kept deleted,
         In kept (alerts_of symbol db') ->
         In deleted (alerts_of symbol inserted) ->
         ~ In deleted (price_alerts db') ->
         pa_triggered kept < pa_triggered deleted
         \/ (pa_triggered kept = pa_triggered deleted
             /\ pa_id deleted < pa_id kept))
  /\ (List.length (alerts_of symbol db) = ALERT_MAX_ITEMS ->
      List.length (alerts_of symbol db') = ALERT_MAX_ITEMS
      /\ exists deleted,
           In deleted (alerts_of symbol db)
           /\ forall r, In r (alerts_of symbol db) ->
                        (In r (price_alerts db') <-> r <> deleted))
  /\ (forall r, pa_symbol r <> symbol ->
                (In r (price_alerts db') <-> In r (price_alerts db))).
Proof.
  intros Hwf inserted created db'.
  assert (Hwf' : wf_alerts inserted) by now apply insert_price_alert_wf.
  pose proof (prune_price_alerts_spec symbol ALERT_MAX_ITEMS inserted Hwf')
    as Hspec.
  cbn zeta in Hspec.
  change (prune_price_alerts symbol ALERT_MAX_ITEMS inserted) with db' in Hspec.
  set (keep := fun r => id_in (pa_id r) _) in Hspec.
  destruct Hspec as (Hrows & Hlen & Hin & Hord & Hother).
  set (old := alerts_of symbol db) in *.
  assert (Hl : alerts_of symbol inserted = old ++ [created]).
  { unfold alerts_of, inserted, insert_price_alert. cbn [price_alerts].
    rewrite filter_app. cbn. now rewrite String.eqb_refl. }
  assert (Hold : forall r, In r old ->
                   pa_id r <= price_alerts_seq db
                   /\ (pa_triggered r = 0 \/ pa_triggered r = 1)).
  { intros r Hr. apply filter_In in Hr as [Hr _].
    destruct Hwf as (_ & Hle & Htr). rewrite Forall_forall in Hle, Htr. auto. }
  assert (Hcl : In created (alerts_of symbol inserted)).
  { rewrite Hl. apply in_or_app. right. now left. }
  assert (Hkc : keep created = true).
  { destruct (keep created) eqn:E; [reflexivity | exfalso].
    assert (Hnone : filter keep (alerts_of symbol inserted) = []).
    { apply filter_none. intros k Hk.
      destruct (keep k) eqn:Ek; [exfalso | reflexivity].
      assert (Hkd : In k (alerts_of symbol db')).
      { rewrite Hrows. apply filter_In. auto. }
      assert (Hgone : ~ In created (price_alerts db')).
      { intro Hc. apply Hin in Hc; [congruence | exact Hcl]. }
      specialize (Hord k created Hkd Hcl Hgone). cbn in Hord.
      rewrite Hl in Hk. apply in_app_or in Hk as [Hk | [<- | []]];
        [ | congruence].
      destruct (Hold k Hk) as [Hid Htr']. clear - Hord Hid Htr'. lia. }
    rewrite Hrows, Hnone, Hl, length_app in Hlen.
    cbn [List.length] in Hlen. unfold ALERT_MAX_ITEMS in Hlen. lia. }
  split; [rewrite Hlen; apply Nat.le_min_l | ].
  split; [now apply Hin | ].
  split; [unfold db', saveAlert, prune_price_alerts; cbn [price_alerts];
          apply incl_filter | ].
  split; [exact Hord | ].
  split; [ | intros r Hr; rewrite (Hother r Hr);
             unfold inserted, insert_price_alert; cbn [price_alerts];
             rewrite in_app_iff; cbn; split;
             [intros [I | [<- | []]]; [exact I | now cbn in Hr] | now left]].
  intro Hfull. split.
  - rewrite Hlen, Hl, length_app, Hfull. reflexivity.
  - pose proof (filter_partition_length keep (alerts_of symbol inserted)) as Hp.
    rewrite <- Hrows, Hlen, Hl, length_app, Hfull in Hp.
    unfold ALERT_MAX_ITEMS in Hp.
    destruct (filter (fun x => negb (keep x)) (old ++ [created]))
      as [| deleted [| ? ?]] eqn:Ed; cbn [List.length] in Hp; try lia.
    assert (Hd : In deleted (old ++ [created]) /\ negb (keep deleted) = true).
    { apply (filter_In (fun x => negb (keep x))). rewrite Ed. now left. }
    destruct Hd as [Hdl Hdk]. apply negb_true_iff in Hdk.
    apply in_app_or in Hdl as [Hdo | [<- | []]]; [ | congruence].
    exists deleted. split; [exact Hdo | ].
    intros r Hr.
    assert (Hrl : In r (alerts_of symbol inserted)).
    { rewrite Hl. apply in_or_app. now left. }
    rewrite (Hin r Hrl). split.
    + intros Hk ->. congruence.
    + intro Hne. destruct (keep r) eqn:Ek; [reflexivity | exfalso].
      assert (Hrd : In r (filter (fun x => negb (keep x)) (old ++ [created]))).
      { apply filter_In. rewrite <- Hl. split; [exact Hrl | now rewrite Ek]. }
      rewrite Ed in Hrd. destruct Hrd as [-> | []]. now apply Hne.
Qed.

Lemma saveAlert_prunes_witness :
  List.length (alerts_of "AAPL" (sample_alerts "AAPL" 20)) = ALERT_MAX_ITEMS
  /\ List.length (alerts_of "AAPL"
                    (saveAlert "AAPL" above (lit 150) (sample_alerts "AAPL" 20)))
     = ALERT_MAX_ITEMS.
Proof.
  assert (Hfull : List.length (alerts_of "AAPL" (sample_alerts "AAPL" 20))
                  = ALERT_MAX_ITEMS) by (vm_compute; reflexivity).
  split; [exact Hfull | ].
  refine (proj1 (proj1 (proj2 (proj2 (proj2 (proj2
            (saveAlert_prunes "AAPL" above (lit 150) (sample_alerts "AAPL" 20) _)))))
            Hfull)).
  apply wf_alerts_sound. vm_compute. reflexivity.
Defined.

End AlertStoreFacts.

Module AppFacts.
Import Js JsFacts Store App ListFacts SortFacts StoreFacts AlertStoreFacts.

(** *** The test of one alert *)





(** *** The statements and the flag of one alert *)

Lemma flag_held_insert (i : Z) (symbol direction : string) (price : number)
  (d : Db) :
  flag_held i d -> flag_held i (insert_price_alert symbol direction price d).
Proof.
  intros [Hrows Hseq]. split; cbn.
  - intros r Hr E. apply in_app_or in Hr as [Hr | [<- | []]]; [now apply Hrows | ].
    cbn in E. lia.
  - lia.
Qed.

Lemma flag_held_filter (i : Z) (f : PriceAlertRow -> bool) (d d' : Db) :
  price_alerts d' = filter f (price_alerts d) ->
  price_alerts_seq d' = price_alerts_seq d ->
  flag_held i d -> flag_held i d'.
Proof.
  intros Hrows Hseq [Hheld Hle]. split; [ | now rewrite Hseq].
  intros r Hr E. rewrite Hrows in Hr. apply filter_In in Hr as [Hr _].
  now apply Hheld.
Qed.

Lemma flag_held_mark (i : Z) (ids : list Z) (d : Db) :
  flag_held i d -> flag_held i (mark_triggered ids d).
Proof.
  intros [Hrows Hseq]. split; [ | exact Hseq]. cbn.
  intros r Hr E. apply in_map_iff in Hr as (r0 & <- & Hr0).
  destruct (id_in (pa_id r0) ids); [reflexivity | ].
  now apply Hrows.
Qed.

Lemma flag_held_same_alerts (i : Z) (d d' : Db) :
  price_alerts d' = price_alerts d ->
  price_alerts_seq d' = price_alerts_seq d ->
  flag_held i d -> flag_held i d'.
Proof.
  intros Hrows Hseq [Hheld Hle]. split; [ | now rewrite Hseq].
  intros r Hr. rewrite Hrows in Hr. now apply Hheld.
Qed.

(** Evaluation only reads alerts whose flag is down. *)
Lemma select_untriggered_skips (i : Z) (symbol : string) (d : Db) :
  flag_held i d -> ~ In i (map pa_id (select_untriggered symbol d)).
Proof.
  intros [Hrows _] Hin. apply in_map_iff in Hin as (r & E & Hr).
  apply filter_In in Hr as [Hr Hc]. apply andb_true_iff in Hc as [_ Hz].
  apply Z.eqb_eq in Hz. specialize (Hrows r Hr E). lia.
Qed.

Lemma triggeredIds_incl (update : Feed.PriceUpdate) (rows : list PriceAlertRow)
  (i : Z) :
  In i (triggeredIds update rows) -> In i (map pa_id rows).
Proof.
  unfold triggeredIds. rewrite !in_map_iff. intros (r & E & Hr).
  apply filter_In in Hr as [Hr _]. now exists r.
Qed.

Lemma wf_alerts_filter (f : PriceAlertRow -> bool) (d d' : Db) :
  price_alerts d' = filter f (price_alerts d) ->
  price_alerts_seq d' = price_alerts_seq d ->
  wf_alerts d -> wf_alerts d'.
Proof.
  intros Hrows Hseq (Hnd & Hle & Htr). unfold wf_alerts.
  rewrite Hrows, Hseq. repeat split.
  - now apply NoDup_map_filter.
  - now apply Forall_filter.
  - now apply Forall_filter.
Qed.

Lemma wf_alerts_mark (ids : list Z) (d : Db) :
  wf_alerts d -> wf_alerts (mark_triggered ids d).
Proof.
  intros (Hnd & Hle & Htr). unfold wf_alerts, mark_triggered. cbn.
  repeat split.
  - rewrite map_map.
    erewrite map_ext; [exact Hnd | ].
    intro r. now destruct (id_in (pa_id r) ids).
  - apply Forall_map. revert Hle. apply Forall_impl.
    intros r Hr. now destruct (id_in (pa_id r) ids).
  - apply Forall_map. revert Htr. apply Forall_impl.
    intros r Hr. destruct (id_in (pa_id r) ids); [now right | exact Hr].
Qed.

Lemma wf_alerts_same_alerts (d d' : Db) :
  price_alerts d' = price_alerts d ->
  price_alerts_seq d' = price_alerts_seq d ->
  wf_alerts d -> wf_alerts d'.
Proof.
  intros Hrows Hseq Hwf. unfold wf_alerts. now rewrite Hrows, Hseq.
Qed.

End AppFacts.
Module AsyncFacts.
Import Js JsFacts Store App ListFacts SortFacts StoreFacts AlertStoreFacts AppFacts.

Lemma statement_wf (d d' : Db) : statement d d' -> wf_alerts d -> wf_alerts d'.
Proof.
  intros [ | symbol price timestamp | symbol limit | symbol direction price
           | symbol limit | ids | alertId ] Hwf.
  - exact Hwf.
  - now apply (wf_alerts_same_alerts d); try apply insert_price_update_alerts.
  - now apply (wf_alerts_same_alerts d).
  - now apply insert_price_alert_wf.
  - eapply wf_alerts_filter; [ | | exact Hwf]; reflexivity.
  - now apply wf_alerts_mark.
  - eapply wf_alerts_filter; [ | | exact Hwf]; reflexivity.
Qed.

(** The only mutation of a stored flag is setting it. *)
Lemma statement_flag (i : Z) (d d' : Db) :
  statement d d' -> flag_held i d -> flag_held i d'.
Proof.
  intros [ | symbol price timestamp | symbol limit | symbol direction price
           | symbol limit | ids | alertId ] Hf.
  - exact Hf.
  - now apply (flag_held_same_alerts i d); try apply insert_price_update_alerts.
  - now apply (flag_held_same_alerts i d).
  - now apply flag_held_insert.
  - eapply flag_held_filter; [ | | exact Hf]; reflexivity.
  - now apply flag_held_mark.
  - eapply flag_held_filter; [ | | exact Hf]; reflexivity.
Qed.

Section WithBuiltins.
Context `{Builtins}.

Ltac resume_cases E :=
  match type of E with
  | resume _ ?st _ = _ =>
      destruct st; cbn [resume] in E;
      try match type of E with
          | context [run_insert_price_update ?a ?b ?c ?d] =>
              let R := fresh "R" in
              destruct (rejected b c) eqn:R;
              [ rewrite (run_insert_rejected a b c d R) in E
              | rewrite (run_insert_accepted a b c d R) in E ]
          end;
      cbn in E;
      unfold checkAlertsForUpdate, loadAlerts in E; cbn in E;
      try match type of E with
          | context [dbOpen ?s] => destruct (dbOpen s)
          end;
      try match type of E with
          | context [triggeredIds ?u ?rows] =>
              destruct (triggeredIds u rows) eqn:?
          end;
      injection E as <- <-; cbn
  end.

Lemma resume_pool (t : nat) (st st' : Stage) (s s' : State) :
  resume t st s = (st', s') ->
  pool s' = pool s /\ next_tag s' = next_tag s.
Proof. intro E. resume_cases E; split; reflexivity. Qed.

Lemma resume_statement (t : nat) (st st' : Stage) (s s' : State) :
  resume t st s = (st', s') -> statement (db s) (db s').
Proof. intro E. resume_cases E; constructor. Qed.

(** A result set of the alert query is only ever obtained by running the
    query. *)
Lemma resume_stage (t : nat) (st st' : Stage) (s s' : State) :
  resume t st s = (st', s') ->
  fresh st'
  \/ exists update, st' = CheckEvaluate update
                            (select_untriggered (Feed.symbol update) (db s)).
Proof.
  intro E. resume_cases E; try (left; exact I).
  right. eexists. reflexivity.
Qed.

(** What is fired is fired by this callback, out of the result set it
    holds. *)
Lemma resume_fired (t : nat) (st st' : Stage) (s s' : State) :
  resume t st s = (st', s') ->
  exists ids,
    fired s' = fired s ++ map (fun i => {| rule := i; by_task := t |}) ids
    /\ forall i, In i ids -> ~ safe i st.
Proof.
  intro E.
  assert (Hquiet : fresh st -> fired s' = fired s).
  { intro Hf. resume_cases E; solve [reflexivity | destruct Hf]. }
  destruct st as [u | u | u | update rows | u ids | sym | rs | sym | rs
                  | sym d p | sym | a sym | ];
    try (exists []; split;
         [cbn [map]; rewrite app_nil_r; apply Hquiet; exact I | intros i []]).
  exists (triggeredIds update rows). split.
  - cbn in E. destruct (triggeredIds update rows); injection E as <- <-;
      reflexivity.
  - intros i Hi Hsafe. apply Hsafe. now apply triggeredIds_incl in Hi.
Qed.

(** *** The scheduler *)

Lemma settle_Forall (Q : Task -> Prop) (t : nat) (st' : Stage)
  (tasks : list Task) :
  Forall Q tasks -> Q {| tag := t; stage := st' |} ->
  Forall Q (settle t st' tasks).
Proof.
  intros Htasks Hnew. induction Htasks as [| task rest Htask Hrest IH]; cbn.
  - constructor.
  - destruct (Nat.eqb (tag task) t); [ | now constructor].
    destruct st'; try exact Hrest; now constructor.
Qed.

Lemma fresh_safe (i : Z) (st : Stage) : fresh st -> safe i st.
Proof. destruct st; cbn; tauto. Qed.

Lemma latch_inv_ext (i : Z) (s0 s s' : State) :
  db s' = db s -> pool s' = pool s -> fired s' = fired s ->
  latch_inv i s0 s -> latch_inv i s0 s'.
Proof. unfold latch_inv. now intros -> -> ->. Qed.

Lemma state_ok_ext (s s' : State) :
  db s' = db s -> pool s' = pool s -> next_tag s' = next_tag s ->
  state_ok s -> state_ok s'.
Proof. unfold state_ok. now intros -> -> ->. Qed.

Lemma advance_latch (i : Z) (s0 : State) (t : nat) (s : State) :
  latch_inv i s0 s -> latch_inv i s0 (advance t s).
Proof.
  intros Hs. pose proof Hs as (Hflag & Hpool & Hlog). unfold advance.
  destruct (find _ (pool s)) as [task | ] eqn:F; [ | exact Hs].
  apply find_some in F as [Htask Htag]. apply Nat.eqb_eq in Htag.
  destruct (resume t (stage task) s) as [st' s'] eqn:E.
  destruct (resume_pool _ _ _ _ _ E) as [Ep _].
  pose proof (resume_statement _ _ _ _ _ E) as Hst.
  destruct (resume_fired _ _ _ _ _ E) as (ids & Ef & Hids).
  repeat split; cbn.
  - now apply (statement_flag i (db s)).
  - now apply (statement_flag i (db s)).
  - rewrite Ep. apply settle_Forall; [exact Hpool | ]. cbn. left.
    destruct (resume_stage _ _ _ _ _ E) as [Hfresh | (update & ->)].
    + now apply fresh_safe.
    + cbn. now apply select_untriggered_skips.
  - intros f Hf Hrule. rewrite Ef in Hf.
    apply in_app_or in Hf as [Hf | Hf]; [now apply Hlog | right].
    apply in_map_iff in Hf as (j & <- & Hj). cbn in *. subst j.
    rewrite Forall_forall in Hpool.
    destruct (Hpool task Htask) as [Hsafe | Hheld].
    + destruct (Hids i Hj Hsafe).
    + now rewrite <- Htag.
Qed.

Lemma advance_ok (t : nat) (s : State) : state_ok s -> state_ok (advance t s).
Proof.
  intros Hs. pose proof Hs as (Hwf & Hpool). unfold advance.
  destruct (find _ (pool s)) as [task | ] eqn:F; [ | exact Hs].
  apply find_some in F as [Htask Htag]. apply Nat.eqb_eq in Htag.
  destruct (resume t (stage task) s) as [st' s'] eqn:E.
  destruct (resume_pool _ _ _ _ _ E) as [Ep En].
  pose proof (resume_statement _ _ _ _ _ E) as Hst.
  split; cbn.
  - now apply (statement_wf (db s)).
  - rewrite Ep, En. apply settle_Forall; [exact Hpool | ]. cbn.
    rewrite Forall_forall in Hpool. rewrite <- Htag. now apply Hpool.
Qed.

Lemma loadAlerts_starter (symbol : string) : starter (loadAlerts symbol).
Proof. intro s. unfold loadAlerts. destruct (dbOpen s); repeat split. Qed.

Lemma loadCachedUpdates_starter (symbol : string) :
  starter (loadCachedUpdates symbol).
Proof. intro s. unfold loadCachedUpdates. destruct (dbOpen s); repeat split. Qed.

Lemma persistAndCheckUpdate_starter (update : Feed.PriceUpdate) :
  starter (persistAndCheckUpdate update).
Proof.
  intro s. unfold persistAndCheckUpdate, checkAlertsForUpdate.
  destruct (dbOpen s); repeat split.
Qed.

Lemma handleSaveAlert_starter (d : Direction) (text : string) :
  starter (handleSaveAlert d text).
Proof.
  intro s. unfold handleSaveAlert. destruct (dbOpen s); [ | repeat split].
  destruct (isNaN _ || le _ _); repeat split.
Qed.

Lemma handleRemoveAlert_starter (alertId : Z) :
  starter (handleRemoveAlert alertId).
Proof. intro s. unfold handleRemoveAlert. destruct (dbOpen s); repeat split. Qed.

Lemma call_latch (i : Z) (s0 : State) (f : State -> Stage * State)
  (s : State) :
  starter f -> latch_inv i s0 s -> latch_inv i s0 (call f s).
Proof.
  intros Hf (Hflag & Hpool & Hlog). unfold call.
  destruct (Hf s) as [Hfresh (Ed & Ep & Efi & _)].
  destruct (f s) as [st s1]. cbn in *.
  unfold latch_inv, spawn. cbn. rewrite Ed, Ep, Efi.
  repeat split; try apply Hflag; [ | exact Hlog].
  destruct st; try (destruct Hfresh); try exact Hpool;
    (apply Forall_app; split; [exact Hpool | repeat constructor; now left]).
Qed.

Lemma call_ok (f : State -> Stage * State) (s : State) :
  starter f -> state_ok s -> state_ok (call f s).
Proof.
  intros Hf (Hwf & Hpool). unfold call.
  destruct (Hf s) as [Hfresh (Ed & Ep & _ & En & _)].
  destruct (f s) as [st s1]. cbn in *.
  unfold state_ok, spawn. cbn. rewrite Ed, Ep, En.
  split; [exact Hwf | ].
  assert (Hweak : Forall (fun task => (tag task < S (next_tag s))%nat) (pool s)).
  { revert Hpool. apply Forall_impl. intros task Ht. lia. }
  destruct st; try exact Hweak;
    (apply Forall_app; split; [exact Hweak | repeat constructor; cbn; lia]).
Qed.

Lemma refillEffect_latch (i : Z) (s0 s : State) :
  latch_inv i s0 s -> latch_inv i s0 (refillEffect s).
Proof.
  intro Hs. unfold refillEffect. destruct (dbOpen s); [ | exact Hs].
  apply call_latch; [apply loadAlerts_starter | ].
  apply call_latch; [apply loadCachedUpdates_starter | exact Hs].
Qed.

Lemma refillEffect_ok (s : State) : state_ok s -> state_ok (refillEffect s).
Proof.
  intro Hs. unfold refillEffect. destruct (dbOpen s); [ | exact Hs].
  apply call_ok; [apply loadAlerts_starter | ].
  apply call_ok; [apply loadCachedUpdates_starter | exact Hs].
Qed.

Lemma step_latch (i : Z) (s0 s : State) (e : Event) :
  latch_inv i s0 s -> latch_inv i s0 (step s e).
Proof.
  intro Hs. destruct e as [ | sym data | t | raw | d text | a]; cbn [step].
  - unfold onDbReady. destruct (dbOpen s); [exact Hs | ].
    apply refillEffect_latch. revert Hs. now apply latch_inv_ext.
  - unfold onMessage.
    set (v := Feed.handleMessage sym data (feed s)).
    generalize (skipn (List.length (Feed.started (feed s))) (Feed.started v)).
    assert (Hv : latch_inv i s0 (with_feed v s))
      by (revert Hs; now apply latch_inv_ext).
    revert Hv. generalize (with_feed v s). intros s1 Hs1 accepted.
    revert s1 Hs1. induction accepted as [| u rest IH]; intros s1 Hs1;
      [exact Hs1 | ].
    cbn [fold_left]. apply IH. apply call_latch; [ | exact Hs1].
    apply persistAndCheckUpdate_starter.
  - now apply advance_latch.
  - unfold applySymbol.
    destruct (String.eqb _ ""); [revert Hs; now apply latch_inv_ext | ].
    destruct (String.eqb _ (activeSymbol s));
      [revert Hs; now apply latch_inv_ext | ].
    apply refillEffect_latch. revert Hs. now apply latch_inv_ext.
  - apply call_latch; [apply handleSaveAlert_starter | exact Hs].
  - apply call_latch; [apply handleRemoveAlert_starter | exact Hs].
Qed.

Lemma step_ok (s : State) (e : Event) : state_ok s -> state_ok (step s e).
Proof.
  intro Hs. destruct e as [ | sym data | t | raw | d text | a]; cbn [step].
  - unfold onDbReady. destruct (dbOpen s); [exact Hs | ].
    apply refillEffect_ok. revert Hs. now apply state_ok_ext.
  - unfold onMessage.
    set (v := Feed.handleMessage sym data (feed s)).
    generalize (skipn (List.length (Feed.started (feed s))) (Feed.started v)).
    assert (Hv : state_ok (with_feed v s))
      by (revert Hs; now apply state_ok_ext).
    revert Hv. generalize (with_feed v s). intros s0 Hs0 accepted.
    revert s0 Hs0. induction accepted as [| u rest IH]; intros s0 Hs0;
      [exact Hs0 | ].
    cbn [fold_left]. apply IH. apply call_ok; [ | exact Hs0].
    apply persistAndCheckUpdate_starter.
  - now apply advance_ok.
  - unfold applySymbol.
    destruct (String.eqb _ ""); [revert Hs; now apply state_ok_ext | ].
    destruct (String.eqb _ (activeSymbol s));
      [revert Hs; now apply state_ok_ext | ].
    apply refillEffect_ok. revert Hs. now apply state_ok_ext.
  - apply call_ok; [apply handleSaveAlert_starter | exact Hs].
  - apply call_ok; [apply handleRemoveAlert_starter | exact Hs].
Qed.

Lemma run_latch (i : Z) (s0 : State) (events : list Event) (s : State) :
  latch_inv i s0 s -> latch_inv i s0 (run events s).
Proof.
  revert s. induction events as [| e rest IH]; intros s Hs; [exact Hs | ].
  cbn [run fold_left]. apply IH. now apply step_latch.
Qed.

Lemma run_ok (events : list Event) (s : State) :
  state_ok s -> state_ok (run events s).
Proof.
  revert s. induction events as [| e rest IH]; intros s Hs; [exact Hs | ].
  cbn [run fold_left]. apply IH. now apply step_ok.
Qed.

Lemma initial_ok (stored : Db) (allowed : bool) :
  wf_alerts stored -> state_ok (initial stored allowed).
Proof. intro Hwf. split; [exact Hwf | constructor]. Qed.

Lemma latch_inv_start (i : Z) (s : State) :
  state_ok s -> latched i (db s) -> latch_inv i s s.
Proof.
  intros ((Hnd & Hle & _) & _) (r0 & Hr0 & Hid & Hflag). repeat split.
  - intros r Hr E.
    assert (r = r0) as -> by
        (apply (id_injective pa_id (price_alerts (db s)) Hnd); congruence).
    exact Hflag.
  - rewrite Forall_forall in Hle. rewrite <- Hid. now apply Hle.
  - apply Forall_forall. intros [t st] Ht.
    destruct st as [u | u | u | update rows | u ids | sym | rs | sym | rs
                    | sym d p | sym | a sym | ];
      try (left; exact I).
    destruct (in_dec Z.eq_dec i (map pa_id rows)) as [Hin | Hout].
    + right. now exists update, rows.
    + now left.
  - intros f Hf _. now left.
Qed.

(** C2.  In any run of the component over a well-formed database: once an
    alert is stored with its flag at 1, then whatever happens next (ticks,
    callbacks resuming in any order, alerts saved or removed, symbol
    switches), every stored row of that id still has its flag at 1, and
    whatever fires the alert from then on is a callback that was spawned
    before and, at that moment, already held a result set of the query for
    untriggered alerts with the alert in it.  So the alert is fired on no
    later tick; no evaluation that reads the table from then on fires it.
    (A removed alert is gone; saving one again makes a new id.) *)
Theorem fired_flag_latches (stored : Db) (allowed : bool)
  (pre post : list Event) (i : Z) :
  wf_alerts stored ->
  let s := run pre (initial stored allowed) in
  latched i (db s) ->
  let s' := run post s in
  (forall r, In r (price_alerts (db s')) -> pa_id r = i -> pa_triggered r = 1)
  /\ (forall f, In f (fired s') -> rule f = i ->
                 In f (fired s)
                 \/ ((by_task f < next_tag s)%nat
                     /\ holds_untriggered i s (by_task f)))
  /\ ((forall t, ~ holds_untriggered i s t) ->
      forall f, In f (fired s') -> rule f = i -> In f (fired s)).
Proof.
  intros Hwf s Hlatched s'.
  assert (Hok : state_ok s) by (apply run_ok, initial_ok, Hwf).
  pose proof (latch_inv_start i s Hok Hlatched) as Hinv.
  destruct (run_latch i s post s Hinv) as ((Hheld & _) & _ & Hlog).
  fold s' in Hheld, Hlog.
  assert (Hlog' : forall f, In f (fired s') -> rule f = i ->
                    In f (fired s)
                    \/ ((by_task f < next_tag s)%nat
                        /\ holds_untriggered i s (by_task f))).
  { intros f Hf Hr. destruct (Hlog f Hf Hr) as [Hold | Hh]; [now left | right].
    split; [ | exact Hh].
    destruct Hh as (update & rows & Hin & _).
    destruct Hok as (_ & Htags). rewrite Forall_forall in Htags.
    exact (Htags _ Hin). }
  split; [exact Hheld | split; [exact Hlog' | ]].
  intros Hnone f Hf Hr.
  destruct (Hlog' f Hf Hr) as [Hold | [_ Hh]]; [exact Hold | ].
  destruct (Hnone _ Hh).
Qed.

(** *** A callback that outlives its session *)

(** No callback of a tick touches the buffer: only the refill from the
    cache sets it. *)
Lemma completion_leaves_feed (t : nat) (st : Stage) (s : State) :
  (forall rows, st <> CachedSet rows) ->
  feed (snd (resume t st s)) = feed s
  /\ activeSymbol (snd (resume t st s)) = activeSymbol s.
Proof.
  intro Hst.
  destruct st; cbn [resume];
    try (destruct (run_insert_price_update _ _ _ _));
    cbn; unfold checkAlertsForUpdate, loadAlerts; cbn;
    try (destruct (dbOpen s)); try (destruct (triggeredIds _ _));
    cbn; try (split; reflexivity).
  all: now destruct (Hst rows).
Qed.

(** An evaluation fires alerts of its own tick's symbol only. *)
Lemma evaluation_fires_own_symbol (update : Feed.PriceUpdate) (d : Db) (i : Z) :
  In i (triggeredIds update (select_untriggered (Feed.symbol update) d)) ->
  exists r, In r (price_alerts d) /\ pa_id r = i
            /\ pa_symbol r = Feed.symbol update.
Proof.
  intro Hi. apply triggeredIds_incl, in_map_iff in Hi as (r & E & Hr).
  apply filter_In in Hr as [Hr Hc]. apply andb_true_iff in Hc as [Hs _].
  apply String.eqb_eq in Hs. now exists r.
Qed.

End WithBuiltins.

(** On an example: the first trade at 101 fires the AAPL alert and marks
    it; the second one does not fire it. *)
Lemma fired_flag_latches_witness :
  latched 1 (db (@run demo_builtins first_trade (initial two_alerts true)))
  /\ (forall f,
        In f (fired (@run demo_builtins second_trade
                       (@run demo_builtins first_trade
                          (initial two_alerts true)))) ->
        rule f = 1 ->
        In f (fired (@run demo_builtins first_trade (initial two_alerts true)))
        \/ ((by_task f
             < next_tag (@run demo_builtins first_trade
                           (initial two_alerts true)))%nat
            /\ holds_untriggered 1
                 (@run demo_builtins first_trade (initial two_alerts true))
                 (by_task f))).
Proof.
  assert (Hl : latched 1 (db (@run demo_builtins first_trade
                                (initial two_alerts true)))).
  { exists {| pa_id := 1; pa_symbol := "AAPL"; pa_direction := "above";
              pa_price := lit 100; pa_triggered := 1 |}.
    split; [vm_compute; left; reflexivity | split; reflexivity]. }
  split; [exact Hl | ].
  refine (proj1 (proj2 (@fired_flag_latches demo_builtins two_alerts true
                          first_trade second_trade 1 _ Hl))).
  apply wf_alerts_sound. vm_compute. reflexivity.
Defined.

(** An evaluation that read the alerts before the flag was set still
    fires: two trades back to back fire the alert once each. *)
Remark overlapping_evaluations_fire_twice :
  fired (@run demo_builtins overlap_trace (initial two_alerts true))
  = [ {| rule := 1; by_task := 2 |}; {| rule := 1; by_task := 3 |} ]%nat.
Proof. vm_compute. reflexivity. Qed.

(** C2 at a failing input.  Two trades arrive back to back and both
    evaluations read the alerts before either marks.  When the first has
    marked the AAPL alert (its stored flag is 1, it has fired once), the
    evaluation of the second trade, the later tick, still fires it: the
    alert is fired a second time after its flag was set, and a second
    notification is scheduled. *)
Lemma overlapping_evaluation_fires_marked_alert :
  overlap_trace = overlap_head ++ [Resume 3]
  /\ latched 1 (db (@run demo_builtins overlap_head (initial two_alerts true)))
  /\ fired (@run demo_builtins overlap_head (initial two_alerts true))
     = [ {| rule := 1; by_task := 2 |} ]%nat
  /\ fired (@run demo_builtins overlap_trace (initial two_alerts true))
     = [ {| rule := 1; by_task := 2 |}; {| rule := 1; by_task := 3 |} ]%nat
  /\ List.length
       (scheduled (@run demo_builtins overlap_trace (initial two_alerts true)))
     = 2%nat.
Proof.
  split; [reflexivity | ]. split.
  - exists {| pa_id := 1; pa_symbol := "AAPL"; pa_direction := "above";
              pa_price := lit 100; pa_triggered := 1 |}.
    split; [vm_compute; left; reflexivity | split; reflexivity].
  - repeat split; vm_compute; reflexivity.
Qed.

(** C1 at a failing start.  The buffer of the session on AAPL was refilled
    from the cache, where the trade of [tick_payload] is stored: it holds
    that trade, keyed by its row index, and its invariant holds.  Then the
    feed delivers the trade once more and it is accepted: the buffer holds
    two elements of one [(symbol, timestamp, price)]. *)
Lemma accept_after_refill_breaks_invariant :
  Feed.buffer_invariant "AAPL"
    (Feed.updates (feed (@run demo_builtins refill_trace
                           (initial one_stored_trade true))))
  /\ ~ Feed.buffer_invariant "AAPL"
         (Feed.updates
            (Feed.handleMessage (H := demo_builtins) "AAPL" "trade"
               (feed (@run demo_builtins refill_trace
                        (initial one_stored_trade true))))).
Proof.
  split.
  - repeat split; [ repeat constructor | vm_compute; lia | repeat constructor ].
  - intros (_ & _ & Hpairs). vm_compute in Hpairs.
    inversion Hpairs as [ | a l Hfirst _ ]; subst.
    inversion Hfirst as [ | b l' Hsame _ ]; subst.
    vm_compute in Hsame. discriminate.
Qed.

(** The invariant of the buffer is the one of the handler, not of the
    refill: a row loaded from the cache is keyed by its index, so the same
    trade arriving again is not recognised and the buffer holds it twice. *)
Remark refilled_buffer_holds_replayed_trade :
  exists a b,
    Feed.updates (feed (@run demo_builtins replay_trace
                          (initial one_stored_trade true))) = [a; b]
    /\ Feed.same_identity a b = true.
Proof. do 2 eexists. split; vm_compute; reflexivity. Qed.

(** C5 at a failing input.  The session has moved to TSLA and shows
    TSLA's alert; then the callback of the AAPL trade completes.  It leaves
    the buffer alone and fires AAPL's alert only, but it replaces the alert
    list on screen by AAPL's while the active symbol is still TSLA. *)
Theorem stale_completion_overwrites_alerts :
  let before := @run demo_builtins switch_trace (initial two_alerts true) in
  let after := @run demo_builtins stale_completion before in
  (activeSymbol before = "TSLA"
   /\ map symbol (alerts before) = ["TSLA"])
  /\ (activeSymbol after = "TSLA"
      /\ map symbol (alerts after) = ["AAPL"])
  /\ Feed.updates (feed after) = Feed.updates (feed before)
  /\ map rule (fired after) = [1]
  /\ map title (scheduled after) = ["AAPL price alert"].
Proof. vm_compute. repeat split; reflexivity. Qed.

End AsyncFacts.

Module SessionFacts.
Import Js Session.

Section WithEnv.
Variable env : option string.

Lemma clearReconnect_inv (s : State) :
  timer_inv s ->
  timer_inv (clearReconnect s)
  /\ timers (clearReconnect s) = []
  /\ reconnectTimerRef (clearReconnect s) = None
  /\ next_handle (clearReconnect s) = next_handle s.
Proof.
  intros [Hn Href]. unfold clearReconnect, timer_set.
  destruct (reconnectTimerRef s) as [h | ] eqn:R.
  - destruct Href as [Hh (self & Ht)].
    destruct (Nat.eqb_spec h 0) as [-> | _]; [lia | ]. cbn.
    rewrite Ht. cbn. rewrite Nat.eqb_refl. cbn.
    repeat split; auto.
  - cbn. rewrite R. repeat split; auto. unfold timer_inv. now rewrite R.
Qed.

Lemma closeSocket_inv (s : State) :
  timer_inv s -> timer_inv (closeSocket s).
Proof. unfold closeSocket. now destruct (wsRef s). Qed.

Lemma setManualClose_inv (self : nat) (s : State) :
  timer_inv s -> timer_inv (setManualClose self s).
Proof. intro Hs. exact Hs. Qed.

Lemma connect_inv (self : nat) (s : State) :
  timer_inv s -> timer_inv (connect env self s).
Proof. intro Hs. exact Hs. Qed.

Lemma setStatus_inv (c : ConnectionStatus) (m : option (option string))
  (s : State) :
  timer_inv s -> timer_inv (setStatus c m s).
Proof. intro Hs. exact Hs. Qed.

Lemma cleanup_inv (s : State) : timer_inv s -> timer_inv (cleanup env s).
Proof.
  intro Hs. unfold cleanup. destruct (current s) as [self | ]; [ | exact Hs].
  destruct (hasToken env).
  - apply (closeSocket_inv (clearReconnect (setManualClose self s))).
    now apply clearReconnect_inv.
  - exact Hs.
Qed.

Lemma effect_inv (activeSymbol : string) (s : State) :
  timer_inv s -> timer_inv (effect env activeSymbol s).
Proof.
  intro Hs. unfold effect. destruct (hasToken env); cbn [negb].
  - exact Hs.
  - apply setStatus_inv.
    match goal with |- timer_inv (closeSocket (clearReconnect ?s0)) =>
      apply (closeSocket_inv (clearReconnect s0));
      apply (clearReconnect_inv s0) end.
    exact Hs.
Qed.

(** [scheduleReconnect]: with a timer pending it does nothing; with none it
    schedules exactly one, at the reconnect delay. *)
Lemma scheduleReconnect_spec (self : nat) (s : State) :
  timer_inv s ->
  manualClose_of self s = false ->
  let s' := scheduleReconnect self s in
  timer_inv s'
  /\ (exists h by_run,
         timers s' = [{| handle := h; delay := RECONNECT_DELAY;
                         scheduled_by := by_run |}]
         /\ reconnectTimerRef s' = Some h)
  /\ (timers s <> [] -> timers s' = timers s /\ next_handle s' = next_handle s)
  /\ (timers s = [] -> next_handle s' = S (next_handle s)).
Proof.
  intros [Hn Href] Hm. unfold scheduleReconnect, timer_set. rewrite Hm.
  destruct (reconnectTimerRef s) as [h | ] eqn:R.
  - destruct Href as [Hh (by_run & Ht)].
    destruct (Nat.eqb_spec h 0) as [-> | _]; [lia | ]. cbn.
    split; [unfold timer_inv; rewrite R; eauto | ].
    split; [exists h, by_run; auto | ].
    split; [auto | ]. rewrite Ht. discriminate.
  - cbn. rewrite Href. cbn.
    split; [unfold timer_inv; cbn; split; [lia | split; [lia | eauto]] | ].
    split; [eauto | ]. split; [congruence | reflexivity].
Qed.

Lemma onclose_inv (k : nat) (s : State) : timer_inv s -> timer_inv (onclose k s).
Proof.
  intro Hs. unfold onclose. destruct (nth_error (sockets s) k) as [ws | ];
    [ | exact Hs].
  destruct (manualClose_of (created_by ws) s) eqn:M; [exact Hs | ].
  apply (scheduleReconnect_spec (created_by ws) (setStatus closed None s));
    [exact Hs | exact M].
Qed.

Lemma ontimeout_inv (h : nat) (s : State) :
  timer_inv s -> timer_inv (ontimeout env h s).
Proof.
  intros [Hn Href]. unfold ontimeout.
  destruct (find _ (timers s)) as [t | ] eqn:F; [ | now split].
  apply find_some in F as [Hin Hh]. apply Nat.eqb_eq in Hh.
  unfold timer_inv. cbn. split; [exact Hn | ].
  destruct (reconnectTimerRef s) as [h0 | ].
  - destruct Href as [_ (self & Ht)]. rewrite Ht in Hin |- *.
    destruct Hin as [<- | []]. cbn in Hh. subst h. cbn.
    now rewrite Nat.eqb_refl.
  - rewrite Href in Hin. destruct Hin.
Qed.

Lemma step_inv (s : State) (e : Event) : timer_inv s -> timer_inv (step env s e).
Proof.
  intro Hs. destruct e as [sym | | k | k | k | h | m]; cbn [step].
  - now apply effect_inv, cleanup_inv.
  - now apply cleanup_inv.
  - unfold onopen. now destruct (nth_error (sockets s) k).
  - unfold onerror. now destruct (nth_error (sockets s) k).
  - now apply onclose_inv.
  - now apply ontimeout_inv.
  - exact Hs.
Qed.

Lemma run_inv (events : list Event) (s : State) :
  timer_inv s -> timer_inv (run env events s).
Proof.
  revert s. induction events as [| e rest IH]; intros s Hs; [exact Hs | ].
  cbn [run fold_left]. apply IH. now apply step_inv.
Qed.

Lemma initial_inv : timer_inv initial.
Proof. split; [cbn; lia | reflexivity]. Qed.

Lemma timer_inv_length (s : State) : timer_inv s -> (List.length (timers s) <= 1)%nat.
Proof.
  intros [_ Href]. destruct (reconnectTimerRef s).
  - destruct Href as [_ (self & ->)]. cbn. lia.
  - rewrite Href. cbn. lia.
Qed.

(** C6.  In every state the session can reach, at most one reconnect timer
    is pending.  When a socket of a session that was not closed on purpose
    closes, then afterwards exactly one timer is pending, with the fixed
    delay of 3000 ms, and [reconnectTimerRef] names it; if a timer was
    already pending the close schedules nothing, and if none was it
    schedules one. *)
Theorem one_reconnect_timer (events : list Event) :
  let s := run env events initial in
  (List.length (timers s) <= 1)%nat
  /\ forall k ws,
       nth_error (sockets s) k = Some ws ->
       manualClose_of (created_by ws) s = false ->
       let s' := step env s (Closed k) in
       connectionStatus s' = closed
       /\ (exists h by_run,
              timers s' = [{| handle := h; delay := 3000;
                              scheduled_by := by_run |}]
              /\ reconnectTimerRef s' = Some h)
       /\ (timers s <> [] ->
           timers s' = timers s /\ next_handle s' = next_handle s)
       /\ (timers s = [] -> next_handle s' = S (next_handle s)).
Proof.
  intro s.
  assert (Hs : timer_inv s) by (apply run_inv, initial_inv).
  split; [now apply timer_inv_length | ].
  intros k ws Hk Hm s'. subst s'. cbn [step]. unfold onclose.
  rewrite Hk, Hm.
  destruct (scheduleReconnect_spec (created_by ws) (setStatus closed None s)
              Hs Hm) as (_ & Hone & Hsame & Hnew).
  split; [ | split; [exact Hone | split; [exact Hsame | exact Hnew]]].
  unfold scheduleReconnect. now destruct (_ || _).
Qed.

End WithEnv.

Lemma one_reconnect_timer_witness :
  nth_error (sockets (run (Some "token") streaming initial)) 0
  = Some {| url := "wss://ws.finnhub.io?token=token"; created_by := 0 |}
  /\ manualClose_of 0 (run (Some "token") streaming initial) = false
  /\ exists h by_run,
       timers (step (Some "token") (run (Some "token") streaming initial)
                    (Closed 0))
       = [{| handle := h; delay := 3000; scheduled_by := by_run |}]
       /\ reconnectTimerRef (step (Some "token")
                               (run (Some "token") streaming initial)
                               (Closed 0))
          = Some h.
Proof.
  split; [reflexivity | split; [reflexivity | ]].
  exact (proj1 (proj2 (proj2 (one_reconnect_timer (Some "token") streaming)
                         0%nat
                         {| url := "wss://ws.finnhub.io?token=token";
                            created_by := 0 |}
                         eq_refl eq_refl))).
Defined.

(** *** Without a token *)

Section NoToken.
Variable env : option string.
Hypothesis no_token : hasToken env = false.

Lemma cleanup_quiet (s : State) :
  quiet s ->
  quiet (cleanup env s) /\ connectionStatus (cleanup env s) = connectionStatus s.
Proof.
  intro Hq. unfold cleanup. destruct (current s); [ | now split].
  rewrite no_token. split; [exact Hq | reflexivity].
Qed.

Lemma effect_quiet (activeSymbol : string) (s : State) :
  quiet s ->
  quiet (effect env activeSymbol s)
  /\ connectionStatus (effect env activeSymbol s) = error
  /\ errorMessage (effect env activeSymbol s)
     = Some "Set EXPO_PUBLIC_FINNHUB_TOKEN to stream live data.".
Proof.
  intros (Hso & Hti & Hn & Hc & Hw & Hr). unfold effect.
  rewrite no_token. cbn [negb].
  unfold clearReconnect, timer_set, closeSocket. cbn.
  rewrite Hr, Hw. cbn. repeat split; assumption.
Qed.

Lemma step_quiet (s : State) (e : Event) :
  quiet s ->
  quiet (step env s e)
  /\ (is_render e = true -> connectionStatus (step env s e) = error)
  /\ (is_render e = false ->
      connectionStatus (step env s e) = connectionStatus s).
Proof.
  intro Hq. pose proof Hq as (Hso & Hti & Hn & Hc & Hw & Hr).
  destruct e as [sym | | k | k | k | h | m]; cbn [step is_render].
  - destruct (cleanup_quiet s Hq) as [Hq' _].
    destruct (effect_quiet sym (cleanup env s) Hq') as (Hq'' & Hst & _).
    repeat split; try apply Hq''; auto. discriminate.
  - destruct (cleanup_quiet s Hq) as [Hq' Hst].
    repeat split; try apply Hq'; auto. discriminate.
  - unfold onopen. rewrite Hso. destruct k; cbn;
      (split; [exact Hq | split; [discriminate | reflexivity]]).
  - unfold onerror. rewrite Hso. destruct k; cbn;
      (split; [exact Hq | split; [discriminate | reflexivity]]).
  - unfold onclose. rewrite Hso. destruct k; cbn;
      (split; [exact Hq | split; [discriminate | reflexivity]]).
  - unfold ontimeout. rewrite Hti. cbn.
    split; [exact Hq | split; [discriminate | reflexivity]].
  - cbn. split; [exact Hq | split; [discriminate | reflexivity]].
Qed.

Lemma run_quiet (events : list Event) (s : State) :
  quiet s ->
  quiet (run env events s)
  /\ (existsb is_render events = true ->
      connectionStatus (run env events s) = error)
  /\ (existsb is_render events = false ->
      connectionStatus (run env events s) = connectionStatus s).
Proof.
  revert s. induction events as [| e rest IH]; intros s Hq.
  - cbn. split; [exact Hq | split; [discriminate | reflexivity]].
  - cbn [run fold_left existsb].
    destruct (step_quiet s e Hq) as (Hq' & Hyes & Hno).
    destruct (IH (step env s e) Hq') as (Hq'' & Hyes' & Hno').
    split; [exact Hq'' | ]. unfold run in *.
    destruct (is_render e); cbn [orb].
    + split; [intros _ | discriminate].
      destruct (existsb is_render rest); [now apply Hyes' | ].
      rewrite Hno' by reflexivity. now apply Hyes.
    + split; [exact Hyes' | ].
      intro E. rewrite (Hno' E). now apply Hno.
Qed.

Lemma initial_quiet : quiet initial.
Proof. repeat split. Qed.

(** C9.  With no token configured, whatever happens: no socket is ever
    constructed, no timer is ever scheduled (the runtime has handed out no
    handle), nothing is sent or closed; starting a session puts the status
    to [error] with the configuration message, and from the first start on
    the status stays [error] and the screen keeps showing the token
    warning. *)
Theorem no_token_no_connection (events : list Event) :
  let s := run env events initial in
  (sockets s = [] /\ timers s = [] /\ next_handle s = 1%nat /\ calls s = [])
  /\ (forall activeSymbol,
         connectionStatus (step env s (Render activeSymbol)) = error
         /\ errorMessage (step env s (Render activeSymbol))
            = Some "Set EXPO_PUBLIC_FINNHUB_TOKEN to stream live data.")
  /\ (existsb is_render events = true -> connectionStatus s = error)
  /\ In TOKEN_WARNING (statusBlock env s).
Proof.
  intro s.
  destruct (run_quiet events initial initial_quiet) as (Hq & Hst & _).
  fold s in Hq, Hst.
  split; [ | split; [ | split; [exact Hst | ]]].
  - destruct Hq as (Hso & Hti & Hn & Hc & _). auto.
  - intro sym. cbn [step].
    destruct (cleanup_quiet s Hq) as [Hq' _].
    destruct (effect_quiet sym (cleanup env s) Hq') as (_ & He & Hm). auto.
  - unfold statusBlock. rewrite no_token.
    apply in_or_app. right. apply in_or_app. right. now left.
Qed.

End NoToken.

Lemma no_token_no_connection_witness :
  hasToken (Some "   ") = false
  /\ sockets (run (Some "   ") tokenless initial) = []
  /\ connectionStatus (run (Some "   ") tokenless initial) = error.
Proof.
  split; [reflexivity | ].
  pose proof (no_token_no_connection (Some "   ") eq_refl tokenless)
    as ((Hso & _) & _ & Hst & _).
  split; [exact Hso | exact (Hst eq_refl)].
Defined.

End SessionFacts.

(* ================================================================== *)
(** ** More about numbers *)
(* ================================================================== *)

Module JsMore.
Import Js JsFacts OrderFacts.

Lemma lt_rank (x y : number) :
  isNaN x = false -> isNaN y = false ->
  (lt x y = true <-> ~ rank_le (rank y) (rank x)).
Proof.
  unfold lt, SFltb, SFcompare, rank_le, rank.
  destruct x as [sx | sx | | sx mx ex]; destruct y as [sy | sy | | sy my ey];
    try discriminate; intros _ _;
    try destruct sx; try destruct sy;
    try (split; intro; try discriminate; try reflexivity; lia);
    rewrite ?compare_cont_Eq;
    destruct (Z.compare_spec ex ey); try destruct (Pos.compare_spec mx my);
    cbn; split; intro; try discriminate; try reflexivity; lia.
Qed.

Lemma le_refl (x : number) : isNaN x = false -> le x x = true.
Proof.
  intros Hx. apply (le_rank x x Hx Hx). unfold rank_le.
  destruct (rank x) as [[c e] m]. lia.
Qed.

Lemma lt_not_le (x y : number) :
  isNaN x = false -> isNaN y = false -> lt x y = negb (le y x).
Proof.
  intros Hx Hy. destruct (lt x y) eqn:L, (le y x) eqn:R; try reflexivity; exfalso.
  - apply (lt_rank x y Hx Hy) in L. now apply (le_rank y x Hy Hx) in R.
  - assert (Hn : ~ lt x y = true) by congruence. apply Hn.
    apply (lt_rank x y Hx Hy). intro R'. apply (le_rank y x Hy Hx) in R'.
    congruence.
Qed.

End JsMore.

(* ================================================================== *)
(** ** More about utils/market.ts *)
(* ================================================================== *)

Module MarketMore.
Import Js Market JsFacts OrderFacts MarketFacts JsMore Hours.

Lemma min2_spec (lowest x : number) :
  isNaN lowest = false -> isNaN x = false ->
  isNaN (min2 lowest x) = false
  /\ le (min2 lowest x) lowest = true /\ le (min2 lowest x) x = true
  /\ (min2 lowest x = lowest \/ min2 lowest x = x).
Proof.
  intros Hl Hx. unfold min2. rewrite Hl, Hx.
  assert (Hgen : let r := if lt x lowest then x else lowest in
            isNaN r = false /\ le r lowest = true /\ le r x = true
            /\ (r = lowest \/ r = x)).
  { cbv zeta. destruct (lt x lowest) eqn:E.
    - repeat split; auto using le_refl.
      destruct (le_total x lowest Hx Hl) as [T|T]; [exact T|].
      apply (lt_rank x lowest Hx Hl) in E.
      now apply (le_rank lowest x Hl Hx) in T.
    - repeat split; auto using le_refl.
      destruct (le x lowest) eqn:L.
      + destruct (le lowest x) eqn:L'; [reflexivity|].
        destruct (le_total x lowest Hx Hl) as [T|T]; [|congruence].
        exfalso.
        assert (Hn : ~ lt x lowest = true) by congruence.
        apply Hn. apply (lt_rank x lowest Hx Hl).
        intro R. apply (le_rank lowest x Hl Hx) in R. congruence.
      + destruct (le_total x lowest Hx Hl) as [T|T]; congruence. }
  destruct lowest as [[|]| | |]; destruct x as [[|]| | |]; try exact Hgen;
    try discriminate.
  repeat split; auto.
Qed.

Lemma max2_spec (highest x : number) :
  isNaN highest = false -> isNaN x = false ->
  isNaN (max2 highest x) = false
  /\ le highest (max2 highest x) = true /\ le x (max2 highest x) = true
  /\ (max2 highest x = highest \/ max2 highest x = x).
Proof.
  intros Hl Hx. unfold max2. rewrite Hl, Hx.
  assert (Hgen : let r := if gt x highest then x else highest in
            isNaN r = false /\ le highest r = true /\ le x r = true
            /\ (r = highest \/ r = x)).
  { cbv zeta. unfold gt. change (SFltb highest x) with (lt highest x).
    destruct (lt highest x) eqn:E.
    - repeat split; auto using le_refl.
      destruct (le_total highest x Hl Hx) as [T|T]; [exact T|].
      apply (lt_rank highest x Hl Hx) in E.
      now apply (le_rank x highest Hx Hl) in T.
    - repeat split; auto using le_refl.
      destruct (le x highest) eqn:L'; [reflexivity|].
      destruct (le_total highest x Hl Hx) as [T|T]; [|congruence].
      exfalso.
      assert (Hn : ~ lt highest x = true) by congruence.
      apply Hn. apply (lt_rank highest x Hl Hx).
      intro R. apply (le_rank x highest Hx Hl) in R. congruence. }
  destruct highest as [[|]| | |]; destruct x as [[|]| | |]; try exact Hgen;
    try discriminate.
  repeat split; auto.
Qed.

Lemma fold_min2_spec (l : list number) (init : number) :
  isNaN init = false -> Forall (fun x => isNaN x = false) l ->
  let r := fold_left min2 l init in
  isNaN r = false /\ le r init = true
  /\ Forall (fun x => le r x = true) l /\ (r = init \/ In r l).
Proof.
  intros Hi Hl. revert init Hi.
  induction Hl as [|x l Hx Hl IH]; intros init Hi; cbn [fold_left].
  - repeat split; auto using le_refl.
  - destruct (min2_spec init x Hi Hx) as (Hn & Hli & Hlx & Hor).
    destruct (IH _ Hn) as (Hrn & Hr & Hall & Hin).
    repeat split; auto.
    + now apply (le_trans _ (min2 init x) _).
    + constructor; [|exact Hall]. now apply (le_trans _ (min2 init x) _).
    + destruct Hin as [E|I]; [|right; now right].
      destruct Hor as [E'|E']; [left|right; left]; congruence.
Qed.

Lemma fold_max2_spec (l : list number) (init : number) :
  isNaN init = false -> Forall (fun x => isNaN x = false) l ->
  let r := fold_left max2 l init in
  isNaN r = false /\ le init r = true
  /\ Forall (fun x => le x r = true) l /\ (r = init \/ In r l).
Proof.
  intros Hi Hl. revert init Hi.
  induction Hl as [|x l Hx Hl IH]; intros init Hi; cbn [fold_left].
  - repeat split; auto using le_refl.
  - destruct (max2_spec init x Hi Hx) as (Hn & Hli & Hlx & Hor).
    destruct (IH _ Hn) as (Hrn & Hr & Hall & Hin).
    repeat split; auto.
    + now apply (le_trans _ (max2 init x) _).
    + constructor; [|exact Hall]. now apply (le_trans _ (max2 init x) _).
    + destruct Hin as [E|I]; [|right; now right].
      destruct Hor as [E'|E']; [left|right; left]; congruence.
Qed.

Lemma le_Infinity (x : number) : isNaN x = false -> le Infinity x = true -> x = Infinity.
Proof. destruct x as [s|[|]| |s m e]; try discriminate; try reflexivity;
  try (destruct s; discriminate). Qed.

Lemma le_NegInfinity (x : number) : isNaN x = false -> le x NegInfinity = true -> x = NegInfinity.
Proof. destruct x as [s|[|]| |s m e]; try discriminate; try reflexivity;
  try (destruct s; discriminate). Qed.

Lemma Math_min_spec (l : list number) :
  l <> [] -> Forall (fun x => isNaN x = false) l ->
  In (Math_min l) l /\ Forall (fun x => le (Math_min l) x = true) l.
Proof.
  intros Hne Hl. unfold Math_min.
  destruct (fold_min2_spec l Infinity eq_refl Hl) as (Hn & _ & Hall & [E|I]).
  - split; [|exact Hall]. rewrite E. rewrite E in Hall.
    destruct l as [|x l]; [congruence|]. left.
    inversion Hall; subst. inversion Hl; subst. now apply le_Infinity.
  - now split.
Qed.

Lemma Math_max_spec (l : list number) :
  l <> [] -> Forall (fun x => isNaN x = false) l ->
  In (Math_max l) l /\ Forall (fun x => le x (Math_max l) = true) l.
Proof.
  intros Hne Hl. unfold Math_max.
  destruct (fold_max2_spec l NegInfinity eq_refl Hl) as (Hn & _ & Hall & [E|I]).
  - split; [|exact Hall]. rewrite E. rewrite E in Hall.
    destruct l as [|x l]; [congruence|]. left.
    inversion Hall; subst. inversion Hl; subst. now apply le_NegInfinity.
  - now split.
Qed.

(** X10.  For two or more samples whose prices are numbers, the sparkline
    reports a [min] and a [max] that are prices of the input and bound
    every price of the input, and its points are the samples in reverse
    order (oldest first), each with its timestamp as key and its price. *)
Theorem sparkline_min_max_bound_prices (entries : list PriceSample) :
  (2 <= List.length entries)%nat ->
  Forall (fun e => isNaN (price e) = false) entries ->
  exists lo hi,
    min (computeSparklinePoints entries) = Some lo
    /\ max (computeSparklinePoints entries) = Some hi
    /\ In lo (map price entries) /\ In hi (map price entries)
    /\ Forall (fun e => le lo (price e) = true /\ le (price e) hi = true) entries
    /\ map key (points (computeSparklinePoints entries)) = rev (map timestamp entries)
    /\ map point_price (points (computeSparklinePoints entries)) = rev (map price entries).
Proof.
  intros Hlen Hnan. unfold computeSparklinePoints.
  destruct (Nat.ltb_spec (List.length entries) 2) as [Hlt|_]; [lia|].
  cbn [min max points].
  set (prices := map price (rev entries)).
  assert (Hne : prices <> []).
  { subst prices. intro E. apply (f_equal (@List.length _)) in E.
    rewrite length_map, length_rev in E. cbn in E. lia. }
  assert (Hp : Forall (fun x => isNaN x = false) prices).
  { subst prices. apply Forall_map. apply Forall_rev. exact Hnan. }
  destruct (Math_min_spec prices Hne Hp) as (Hin & Hlo).
  destruct (Math_max_spec prices Hne Hp) as (Hax & Hhi).
  exists (Math_min prices), (Math_max prices).
  assert (Hmem : forall x, In x prices -> In x (map price entries)).
  { subst prices. intros x Hx. rewrite map_rev in Hx. now apply in_rev in Hx. }
  repeat split; auto.
  - apply Forall_forall. intros e He.
    assert (Hpe : In (price e) prices).
    { subst prices. apply in_map. now apply in_rev in He. }
    rewrite Forall_forall in Hlo, Hhi. split; auto.
  - rewrite map_map. cbn. now rewrite map_rev.
  - rewrite map_map. cbn. now rewrite map_rev.
Qed.

Lemma sparkline_min_max_bound_prices_witness :
  exists lo hi,
    min (computeSparklinePoints (two_at (lit 100))) = Some lo
    /\ max (computeSparklinePoints (two_at (lit 100))) = Some hi
    /\ In lo (map price (two_at (lit 100))) /\ In hi (map price (two_at (lit 100)))
    /\ Forall (fun e => le lo (price e) = true /\ le (price e) hi = true)
              (two_at (lit 100))
    /\ map key (points (computeSparklinePoints (two_at (lit 100))))
       = rev (map timestamp (two_at (lit 100)))
    /\ map point_price (points (computeSparklinePoints (two_at (lit 100))))
       = rev (map price (two_at (lit 100))).
Proof.
  apply (sparkline_min_max_bound_prices (two_at (lit 100))).
  - cbn. lia.
  - repeat constructor.
Defined.


Lemma fold_max2_NaN (l : list number) : fold_left max2 l NaN = NaN.
Proof. induction l; cbn; auto. Qed.

Lemma fold_min2_NaN (l : list number) : fold_left min2 l NaN = NaN.
Proof. induction l; cbn; auto. Qed.

Lemma fold_max2_has_NaN (l : list number) (init : number) :
  In NaN l -> fold_left max2 l init = NaN.
Proof.
  revert init. induction l as [|x l IH]; intros init Hin; [destruct Hin|].
  destruct Hin as [E|I]; cbn [fold_left].
  - subst x. replace (max2 init NaN) with NaN; [apply fold_max2_NaN|].
    unfold max2. now destruct (isNaN init).
  - now apply IH.
Qed.

Lemma fold_min2_has_NaN (l : list number) (init : number) :
  In NaN l -> fold_left min2 l init = NaN.
Proof.
  revert init. induction l as [|x l IH]; intros init Hin; [destruct Hin|].
  destruct Hin as [E|I]; cbn [fold_left].
  - subst x. replace (min2 init NaN) with NaN; [apply fold_min2_NaN|].
    unfold min2. now destruct (isNaN init).
  - now apply IH.
Qed.

(** X11.  One price that is [NaN] among two or more samples blanks the
    whole sparkline: [min] and [max] are [NaN], and every point, also those
    of the good samples, has [NaN] for its normalized height. *)
Theorem sparkline_nan_price_blanks_chart (entries : list PriceSample) :
  (2 <= List.length entries)%nat ->
  Exists (fun e => isNaN (price e) = true) entries ->
  min (computeSparklinePoints entries) = Some NaN
  /\ max (computeSparklinePoints entries) = Some NaN
  /\ List.length (points (computeSparklinePoints entries)) = List.length entries
  /\ Forall (fun pt => normalized pt = NaN) (points (computeSparklinePoints entries)).
Proof.
  intros Hlen Hex. unfold computeSparklinePoints.
  destruct (Nat.ltb_spec (List.length entries) 2) as [Hlt|_]; [lia|].
  cbn [min max points].
  assert (Hin : In NaN (map price (rev entries))).
  { apply Exists_exists in Hex. destruct Hex as (e & He & Hn).
    apply in_map_iff. exists e. split; [|now apply -> in_rev].
    destruct (price e); try discriminate. reflexivity. }
  unfold Math_max, Math_min.
  rewrite (fold_max2_has_NaN _ _ Hin), (fold_min2_has_NaN _ _ Hin).
  repeat split.
  - now rewrite length_map, length_rev.
  - apply Forall_map. apply Forall_forall. intros e _. cbn.
    unfold sub, SFsub. destruct (price e); reflexivity.
Qed.

Lemma sparkline_nan_price_blanks_chart_witness :
  min (computeSparklinePoints (two_at NaN)) = Some NaN
  /\ max (computeSparklinePoints (two_at NaN)) = Some NaN
  /\ List.length (points (computeSparklinePoints (two_at NaN)))
     = List.length (two_at NaN)
  /\ Forall (fun pt => normalized pt = NaN)
            (points (computeSparklinePoints (two_at NaN))).
Proof.
  apply (sparkline_nan_price_blanks_chart (two_at NaN)).
  - cbn. lia.
  - apply Exists_cons_hd. reflexivity.
Defined.


(** X9.  When the newest and the oldest sample of a window have the same
    finite price by [===] (in particular when the window has one sample),
    the change is a zero and the percentage is a zero, whatever that price
    is; the change is [-0] exactly when the newest price is [-0] and the
    oldest is [+0], and [+0] in every other case. *)
Theorem computeMetrics_flat_window (first : PriceSample) (rest : list PriceSample) :
  is_finite (price first) = true ->
  strict_eq (price (last rest first)) (price first) = true ->
  let metrics := computeMetrics (first :: rest) in
  is_zero (change metrics)
  /\ (change metrics = neg_zero
      <-> price first = neg_zero /\ price (last rest first) = pos_zero)
  /\ is_zero (percentage metrics).
Proof.
  intros Hfin Hsame metrics. subst metrics. unfold computeMetrics.
  cbn [List.length Nat.eqb nth_error Nat.sub].
  replace (nth_error (first :: rest) (List.length rest - 0))
    with (Some (last rest first)).
  2:{ rewrite Nat.sub_0_r, (nth_error_final rest first first).
      destruct rest; [reflexivity|]. reflexivity. }
  cbn [change percentage].
  destruct (price first) as [s| | |s m e]; try discriminate.
  - (* the newest price is a zero: so is the oldest *)
    destruct (strict_eq_zero _ _ Hsame) as [s' ->].
    destruct s, s'; (split; [|split]);
      first [ now (eexists; vm_compute; reflexivity)
            | split; [intros E; vm_compute in E; discriminate
                     | intros [E1 E2]; discriminate]
            | split; [intros _; split; reflexivity | intros _; reflexivity] ].
  - (* a finite price that is not zero: the oldest is the same number *)
    rewrite (strict_eq_finite _ _ _ _ Hsame), sub_diag_finite.
    split; [now exists false|]. split.
    + split; [intros E; discriminate | intros [E _]; discriminate].
    + destruct (strict_neq _ _); [|now eexists].
      unfold div, mul, pos_zero. cbn. destruct s; cbn; now eexists.
Qed.

Lemma computeMetrics_flat_window_witness :
  let metrics :=
    computeMetrics
      ({| symbol := None; price := neg_zero; timestamp := lit 2000 |}
       :: [{| symbol := None; price := pos_zero; timestamp := lit 1000 |}]) in
  is_zero (change metrics)
  /\ (change metrics = neg_zero
      <-> price {| symbol := None; price := neg_zero; timestamp := lit 2000 |}
          = neg_zero
          /\ price (last [{| symbol := None; price := pos_zero;
                             timestamp := lit 1000 |}]
                      {| symbol := None; price := neg_zero;
                         timestamp := lit 2000 |})
             = pos_zero)
  /\ is_zero (percentage metrics).
Proof.
  apply (computeMetrics_flat_window
           {| symbol := None; price := neg_zero; timestamp := lit 2000 |}
           [{| symbol := None; price := pos_zero; timestamp := lit 1000 |}]);
    reflexivity.
Defined.


Lemma open_at_all :
  forallb (fun d => forallb (fun h => forallb (fun m => open_at d h m)
                                        (seq 0 60)) (seq 0 24)) (seq 0 7)
  = true.
Proof. vm_compute. reflexivity. Qed.

(** X12.  For every day of the week [d] (0 is Sunday), hour [h] and minute
    [m] of a valid date, [isUsMarketOpen] answers [true] exactly from Monday
    to Friday between 14:30 and 21:00 UTC, both ends included. *)
Theorem isUsMarketOpen_hours (d h m : nat) :
  (d < 7)%nat -> (h < 24)%nat -> (m < 60)%nat ->
  isUsMarketOpen (lit (Z.of_nat d)) (lit (Z.of_nat h)) (lit (Z.of_nat m))
  = ((1 <=? d) && (d <=? 5) && (14 * 60 + 30 <=? h * 60 + m)
     && (h * 60 + m <=? 21 * 60))%nat.
Proof.
  intros Hd Hh Hm.
  pose proof open_at_all as Hall.
  rewrite forallb_forall in Hall.
  specialize (Hall d ltac:(apply in_seq; lia)).
  rewrite forallb_forall in Hall.
  specialize (Hall h ltac:(apply in_seq; lia)).
  rewrite forallb_forall in Hall.
  specialize (Hall m ltac:(apply in_seq; lia)).
  unfold open_at in Hall. now apply Bool.eqb_prop in Hall.
Qed.

Lemma isUsMarketOpen_hours_witness :
  isUsMarketOpen (lit (Z.of_nat 1)) (lit (Z.of_nat 15)) (lit (Z.of_nat 0))
  = ((1 <=? 1) && (1 <=? 5) && (14 * 60 + 30 <=? 15 * 60 + 0)
     && (15 * 60 + 0 <=? 21 * 60))%nat.
Proof. apply (isUsMarketOpen_hours 1 15 0); lia. Defined.


End MarketMore.

(* ================================================================== *)
(** ** More about the updates buffer and the message handler *)
(* ================================================================== *)

Module FeedMore.
Import Js Feed Guards.

Lemma filter_id {A : Type} (f : A -> bool) (l : list A) :
  Forall (fun x => f x = true) l -> filter f l = l.
Proof.
  induction 1 as [|x l Hx _ IH]; cbn; [reflexivity|].
  now rewrite Hx, IH.
Qed.

Lemma pushUpdate_unfold (u : PriceUpdate) (prev : list PriceUpdate) :
  pushUpdate u prev =
  u :: firstn (MAX_ITEMS - 1)
         (filter (fun item => negb (String.eqb (key item) (key u))) prev).
Proof. reflexivity. Qed.

(** X1.  Putting the same update into the buffer a second time leaves the
    buffer exactly as the first time left it: a trade that is delivered
    twice in a row is shown once. *)
Theorem pushUpdate_idempotent (update : PriceUpdate) (prev : list PriceUpdate) :
  pushUpdate update (pushUpdate update prev) = pushUpdate update prev.
Proof.
  rewrite (pushUpdate_unfold update prev).
  set (rest := firstn _ _).
  rewrite pushUpdate_unfold. cbn [filter].
  rewrite String.eqb_refl. cbn [negb].
  f_equal.
  rewrite filter_id.
  - subst rest. rewrite firstn_firstn. now rewrite Nat.min_id.
  - subst rest. apply ListFacts.Forall_firstn.
    apply Forall_forall. intros x Hx. apply filter_In in Hx. tauto.
Qed.

(** X2.  An update whose key is not in the buffer goes to the front; the
    entries that were there keep their order behind it, and only the first
    [MAX_ITEMS - 1] = 19 of them stay: the oldest is the one evicted. *)
Theorem pushUpdate_new_key (update : PriceUpdate) (prev : list PriceUpdate) :
  Forall (fun item => key item <> key update) prev ->
  pushUpdate update prev = update :: firstn (MAX_ITEMS - 1) prev.
Proof.
  intros Hnew. rewrite pushUpdate_unfold. f_equal. f_equal.
  apply filter_id. eapply Forall_impl; [|exact Hnew].
  intros x Hx. cbv beta. apply negb_true_iff. now apply String.eqb_neq.
Qed.

Lemma pushUpdate_new_key_witness :
  pushUpdate App.sample_update [other_update]
  = App.sample_update :: firstn (MAX_ITEMS - 1) [other_update].
Proof.
  apply (pushUpdate_new_key App.sample_update [other_update]).
  repeat constructor. discriminate.
Defined.

Section WithBuiltins.
Context `{Builtins}.

(** X3.  A [null] among the trades of a message ends the loop: the trades
    before it are handled as usual, the trades after it are never looked
    at, valid or not. *)
Theorem forEachTrade_stops_at_null (symbolForSession : string)
  (before after : list value) (v : View) :
  forEachTrade symbolForSession (before ++ JNull :: after) v
  = forEachTrade symbolForSession before v.
Proof.
  revert v. induction before as [|trade before IH]; intros v; cbn [app forEachTrade].
  - reflexivity.
  - destruct (decodeTrade symbolForSession trade); auto.
Qed.

Lemma decodeTrade_other_symbol (symbolForSession : string) (trade : value) :
  get trade "s" <> JString symbolForSession ->
  decodeTrade symbolForSession trade = Thrown
  \/ decodeTrade symbolForSession trade = Dropped.
Proof.
  intros Hs. unfold decodeTrade.
  destruct trade; auto;
    (destruct (get _ "s") as [| | | |s| |] eqn:E; auto;
     destruct (String.eqb s symbolForSession) eqn:Es;
     [apply String.eqb_eq in Es; subst; congruence|];
     right; cbn [negb]; now rewrite !orb_true_r).
Qed.

(** X4.  A message none of whose trades carries the symbol of the session
    changes nothing: not the buffer, not the highlight, not the error
    message, and nothing is handed to persistence. *)
Theorem handleMessage_ignores_other_symbols (symbolForSession data : string)
  (payload : value) (items : list value) (v : View) :
  JSON_parse data = Some payload ->
  get payload "data" = JArray items ->
  Forall (fun trade => get trade "s" <> JString symbolForSession) items ->
  handleMessage symbolForSession data v = v.
Proof.
  intros Hp Hd Hall. unfold handleMessage. rewrite Hp, Hd. clear Hp Hd.
  induction Hall as [|trade items Ht _ IH]; cbn [forEachTrade]; [reflexivity|].
  destruct (decodeTrade_other_symbol symbolForSession trade Ht) as [E|E];
    now rewrite E.
Qed.

Lemma decodeTrade_numeric (symbolForSession : string) (trade : value) (u : PriceUpdate) :
  decodeTrade symbolForSession trade = Accepted u -> numeric u.
Proof.
  unfold decodeTrade.
  destruct trade; try discriminate;
    (destruct (get _ "s"); try discriminate;
     match goal with |- (if ?c then _ else _) = _ -> _ => destruct c eqn:E end;
     try discriminate;
     intros [= <-]; cbn;
     repeat (apply orb_false_iff in E; destruct E as [E ?]); now split).
Qed.

Lemma pushUpdate_Forall (P : PriceUpdate -> Prop) (u : PriceUpdate) prev :
  P u -> Forall P prev -> Forall P (pushUpdate u prev).
Proof.
  intros Hu Hp. apply ListFacts.Forall_firstn. constructor; [exact Hu|].
  now apply ListFacts.Forall_filter.
Qed.

Lemma forEachTrade_numeric (sym : string) (trades : list value) (v : View) :
  Forall numeric (updates v) -> Forall numeric (started v) ->
  Forall numeric (updates (forEachTrade sym trades v))
  /\ Forall numeric (started (forEachTrade sym trades v)).
Proof.
  revert v. induction trades as [|trade trades IH]; intros v Hu Hs; cbn [forEachTrade].
  - now split.
  - destruct (decodeTrade sym trade) as [| |u] eqn:E; auto.
    apply IH; cbn.
    + apply pushUpdate_Forall; [now apply (decodeTrade_numeric sym trade)|exact Hu].
    + apply Forall_app. split; [exact Hs|]. constructor; [|constructor].
      now apply (decodeTrade_numeric sym trade).
Qed.

(** X5.  Whatever messages a session handles, starting from the empty
    buffer: no update in the buffer, and no update handed to
    [persistAndCheckUpdate], has [NaN] for its price or its timestamp. *)
Theorem accepted_trades_are_numeric (symbolForSession : string)
  (messages : list string) :
  let v := fold_left (fun v data => handleMessage symbolForSession data v)
                     messages initial in
  Forall (fun u => isNaN (price u) = false /\ isNaN (timestamp u) = false)
         (updates v)
  /\ Forall (fun u => isNaN (price u) = false /\ isNaN (timestamp u) = false)
            (started v).
Proof.
  cbv zeta.
  assert (Hgen : forall v, Forall numeric (updates v) -> Forall numeric (started v) ->
     Forall numeric (updates (fold_left (fun v data => handleMessage symbolForSession data v) messages v))
     /\ Forall numeric (started (fold_left (fun v data => handleMessage symbolForSession data v) messages v))).
  { induction messages as [|m ms IH]; intros v Hu Hs; cbn [fold_left]; [now split|].
    apply IH; unfold handleMessage; destruct (JSON_parse m); auto;
      now apply forEachTrade_numeric. }
  apply Hgen; constructor.
Qed.

End WithBuiltins.

Lemma handleMessage_ignores_other_symbols_witness :
  handleMessage (H := App.demo_builtins) "TSLA" "trade" initial = initial.
Proof.
  apply (handleMessage_ignores_other_symbols (H := App.demo_builtins)
           "TSLA" "trade" App.tick_payload
           [JObject [("s", JString "AAPL"); ("p", JNumber (lit 101));
                     ("t", JNumber (lit 1000))]]).
  - reflexivity.
  - reflexivity.
  - repeat constructor. discriminate.
Defined.

End FeedMore.

(* ================================================================== *)
(** ** More about the history table *)
(* ================================================================== *)

Module StoreMore.
Import Js JsFacts OrderFacts JsMore Store App ListFacts SortFacts StoreFacts AlertStoreFacts.

(** A pruning DELETE removes nothing when the symbol has no more rows than
    the limit. *)
Lemma prune_within_limit {A : Type} (before : A -> A -> bool) (id : A -> Z)
  (f : A -> bool) (limit : nat) (t : list A) :
  (List.length (filter f t) <= limit)%nat ->
  filter (fun r => negb (f r && negb (id_in (id r)
            (map id (firstn limit (order_by before (filter f t)))))))
         t = t.
Proof.
  intros Hlen. apply filter_all. intros r Hr.
  destruct (f r) eqn:F; [|reflexivity]. cbn.
  rewrite negb_involutive. apply id_in_In. apply in_map.
  rewrite firstn_all2.
  - apply (Permutation_in r (Permutation_sym (order_by_perm before (filter f t)))).
    apply filter_In. now split.
  - now rewrite (Permutation_length (order_by_perm before (filter f t))).
Qed.

(** X13.  While a symbol has fewer than [DB_MAX_ITEMS] = 60 stored
    records, persisting an update whose price and timestamp are numbers
    only appends: the table afterwards is the table before followed by the
    new row, with the next id and with the price and the timestamp as
    SQLite gives them back (a zero without its sign); nothing is deleted,
    and nothing is checked for duplicates.  An update whose price or
    timestamp is NaN is refused by the [NOT NULL] columns and leaves the
    table as it was. *)
Theorem persistUpdate_below_cap (update : Feed.PriceUpdate) (db : Db) :
  (List.length (updates_of (Feed.symbol update) db) < DB_MAX_ITEMS)%nat ->
  price_updates (persistUpdate update db)
  = if rejected (Feed.price update) (Feed.timestamp update)
    then price_updates db
    else price_updates db ++
         [{| pu_id := price_updates_seq db + 1;
             pu_symbol := Feed.symbol update;
             pu_price := stored_number (Feed.price update);
             pu_timestamp := stored_number (Feed.timestamp update) |}].
Proof.
  intros Hlen.
  destruct (rejected (Feed.price update) (Feed.timestamp update)) eqn:E;
    [now rewrite persistUpdate_rejected|].
  rewrite persistUpdate_accepted by exact E.
  set (inserted := insert_price_update _ _ _ db).
  assert (Hrows : price_updates db ++
                  [{| pu_id := price_updates_seq db + 1;
                      pu_symbol := Feed.symbol update;
                      pu_price := stored_number (Feed.price update);
                      pu_timestamp := stored_number (Feed.timestamp update) |}]
                  = price_updates inserted)
    by (unfold inserted; now rewrite (insert_accepted _ _ _ _ E)).
  rewrite Hrows.
  unfold prune_price_updates, select_recent_updates. cbn [price_updates].
  apply (prune_within_limit timestamp_desc pu_id
           (fun r => String.eqb (pu_symbol r) (Feed.symbol update))).
  change (filter _ (price_updates inserted))
    with (updates_of (Feed.symbol update) inserted).
  unfold inserted. rewrite updates_of_insert by exact E. lia.
Qed.

Lemma persistUpdate_below_cap_witness :
  price_updates (persistUpdate sample_update (sample_updates "AAPL" 3))
  = if rejected (Feed.price sample_update) (Feed.timestamp sample_update)
    then price_updates (sample_updates "AAPL" 3)
    else price_updates (sample_updates "AAPL" 3) ++
         [{| pu_id := price_updates_seq (sample_updates "AAPL" 3) + 1;
             pu_symbol := Feed.symbol sample_update;
             pu_price := stored_number (Feed.price sample_update);
             pu_timestamp := stored_number (Feed.timestamp sample_update) |}].
Proof.
  apply (persistUpdate_below_cap sample_update (sample_updates "AAPL" 3)).
  vm_compute. lia.
Defined.

Lemma prune_price_updates_wf (symbol : string) (limit : nat) (db : Db) :
  wf_updates db -> wf_updates (prune_price_updates symbol limit db).
Proof.
  intros (Hnd & Hle & Hts). unfold wf_updates, prune_price_updates. cbn.
  repeat split.
  - now apply NoDup_map_filter.
  - now apply Forall_filter.
  - now apply Forall_filter.
Qed.

Lemma updates_of_other_prune (symbol other : string) (limit : nat) (db : Db) :
  other <> symbol ->
  updates_of other (prune_price_updates symbol limit db) = updates_of other db.
Proof.
  intros Hne. unfold updates_of, prune_price_updates. cbn [price_updates].
  induction (price_updates db) as [|r t IH]; [reflexivity|]. cbn [filter].
  destruct (String.eqb (pu_symbol r) other) eqn:Eo.
  - apply String.eqb_eq in Eo.
    assert (Es : String.eqb (pu_symbol r) symbol = false)
      by (apply String.eqb_neq; congruence).
    rewrite Es. cbn [andb negb filter].
    apply String.eqb_eq in Eo. rewrite Eo. now f_equal.
  - destruct (negb _); cbn [filter]; rewrite ?Eo; exact IH.
Qed.

Lemma updates_of_other_insert (symbol other : string) (price timestamp : number)
  (db : Db) :
  other <> symbol ->
  updates_of other (insert_price_update symbol price timestamp db)
  = updates_of other db.
Proof.
  intros Hne.
  destruct (rejected price timestamp) eqn:E;
    [now rewrite insert_rejected | rewrite (insert_accepted _ _ _ _ E)].
  unfold updates_of. cbn [price_updates].
  rewrite filter_app. cbn.
  assert (Es : String.eqb symbol other = false)
    by (apply String.eqb_neq; congruence).
  rewrite Es. apply app_nil_r.
Qed.

(** X14.  If no symbol has more than 60 stored records, then after
    persisting an update with a numeric timestamp no symbol has, and the
    table is still well formed. *)
Theorem persistUpdate_respects_cap (update : Feed.PriceUpdate) (db : Db) :
  wf_updates db ->
  isNaN (Feed.timestamp update) = false ->
  (forall symbol, (List.length (updates_of symbol db) <= DB_MAX_ITEMS)%nat) ->
  wf_updates (persistUpdate update db)
  /\ forall symbol,
       (List.length (updates_of symbol (persistUpdate update db))
        <= DB_MAX_ITEMS)%nat.
Proof.
  intros Hwf Ht Hcap.
  destruct (rejected (Feed.price update) (Feed.timestamp update)) eqn:E;
    [rewrite persistUpdate_rejected by exact E; now split|].
  rewrite persistUpdate_accepted by exact E.
  set (inserted := insert_price_update _ _ _ db).
  assert (Hwf' : wf_updates inserted) by now apply insert_price_update_wf.
  split; [now apply prune_price_updates_wf|].
  intros symbol.
  destruct (string_dec symbol (Feed.symbol update)) as [->|Hne].
  - destruct (prune_price_updates_spec (Feed.symbol update) DB_MAX_ITEMS
                inserted Hwf') as (Hlen & _).
    rewrite Hlen. apply Nat.le_min_l.
  - rewrite updates_of_other_prune by exact Hne.
    unfold inserted. rewrite updates_of_other_insert by exact Hne.
    apply Hcap.
Qed.


Lemma persistUpdate_respects_cap_witness :
  wf_updates (persistUpdate sample_update (sample_updates "AAPL" 3))
  /\ forall symbol,
       (List.length (updates_of symbol
                       (persistUpdate sample_update (sample_updates "AAPL" 3)))
        <= DB_MAX_ITEMS)%nat.
Proof.
  apply (persistUpdate_respects_cap sample_update (sample_updates "AAPL" 3)).
  - apply wf_updates_sound. vm_compute. reflexivity.
  - reflexivity.
  - intros symbol. unfold updates_of.
    etransitivity; [apply filter_length_le|]. vm_compute. lia.
Defined.

(** *** The refill query *)

Lemma select_recent_updates_sorted (symbol : string) (limit : nat) (db : Db) :
  wf_updates db ->
  StronglySorted (fun a b => timestamp_desc a b = true)
    (order_by timestamp_desc (updates_of symbol db)).
Proof.
  intros (_ & _ & Hts).
  apply (order_by_sorted timestamp_desc stored timestamp_desc_total
           timestamp_desc_trans).
  now apply Forall_filter.
Qed.

Lemma StronglySorted_firstn {A : Type} (R : A -> A -> Prop) (l : list A) (n : nat) :
  StronglySorted R l -> StronglySorted R (firstn n l).
Proof.
  intros Hs. revert n. induction Hs as [|x l Hs IH Hx]; intros [|n]; cbn;
    try constructor; auto.
  now apply Forall_firstn.
Qed.

Lemma StronglySorted_map {A B : Type} (f : A -> B) (R : A -> A -> Prop)
  (R' : B -> B -> Prop) (l : list A) :
  (forall a b, R a b -> R' (f a) (f b)) ->
  StronglySorted R l -> StronglySorted R' (map f l).
Proof.
  intros Hf. induction 1 as [|x l Hs IH Hx]; cbn; constructor; auto.
  apply Forall_map. revert Hx. apply Forall_impl. auto.
Qed.

Section WithBuiltins.
Context `{Builtins}.

Lemma loadedFrom_fields (index : nat) (rows : list PriceUpdateRow) :
  Forall stored rows ->
  map Feed.symbol (loadedFrom index rows) = map pu_symbol rows
  /\ map Feed.timestamp (loadedFrom index rows) = map pu_timestamp rows
  /\ List.length (loadedFrom index rows) = List.length rows.
Proof.
  intros Hrows. revert index.
  induction Hrows as [|r rows Hr _ IH]; intros index; cbn [loadedFrom map List.length].
  - repeat split.
  - destruct (IH (S index)) as (Hs & Ht & Hl).
    cbn [Feed.symbol Feed.timestamp]. unfold stored in Hr. rewrite Hr, Hs, Ht, Hl.
    repeat split.
Qed.

(** X15.  The buffer that [loadCachedUpdates] builds from a well-formed
    table: it has at most [MAX_ITEMS] = 20 entries, all of the requested
    symbol, carrying the stored timestamps, newest first; and no stored
    record of the symbol that is left out is newer than one that is
    shown. *)
Theorem refill_shows_newest_of_symbol (symbol : string) (db : Db) :
  wf_updates db ->
  let rows := select_recent_updates symbol Feed.MAX_ITEMS db in
  let buffer := loadedFrom 0 rows in
  (List.length buffer <= Feed.MAX_ITEMS)%nat
  /\ Forall (fun u => Feed.symbol u = symbol) buffer
  /\ map Feed.timestamp buffer = map pu_timestamp rows
  /\ StronglySorted (fun a b => ge a b = true) (map Feed.timestamp buffer)
  /\ (forall shown left_out,
         In shown rows -> In left_out (updates_of symbol db) ->
         ~ In left_out rows ->
         ge (pu_timestamp shown) (pu_timestamp left_out) = true).
Proof.
  intros Hwf rows buffer.
  pose proof (select_recent_updates_sorted symbol Feed.MAX_ITEMS db Hwf) as Hsorted.
  assert (Hin : forall r, In r rows -> In r (updates_of symbol db)).
  { intros r Hr. unfold rows, select_recent_updates in Hr.
    apply In_firstn in Hr.
    now apply (Permutation_in r (order_by_perm timestamp_desc _)) in Hr. }
  assert (Hstored : Forall stored rows).
  { apply Forall_forall. intros r Hr. apply Hin in Hr.
    destruct Hwf as (_ & _ & Hts). rewrite Forall_forall in Hts.
    apply Hts. unfold updates_of in Hr. now apply filter_In in Hr. }
  destruct (loadedFrom_fields 0 rows Hstored) as (Hsym & Hts & Hlen).
  fold buffer in Hsym, Hts, Hlen.
  repeat split.
  - rewrite Hlen. unfold rows, select_recent_updates. apply firstn_le_length.
  - assert (Hall : Forall (fun s => s = symbol) (map Feed.symbol buffer)).
    { rewrite Hsym. apply Forall_map. apply Forall_forall. intros r Hr.
      apply Hin in Hr. unfold updates_of in Hr. apply filter_In in Hr.
      now apply String.eqb_eq. }
    rewrite Forall_map in Hall. exact Hall.
  - exact Hts.
  - rewrite Hts. unfold rows, select_recent_updates.
    apply (StronglySorted_map pu_timestamp (fun a b => timestamp_desc a b = true)).
    + auto.
    + now apply StronglySorted_firstn.
  - intros shown left_out Hs Hl Hout.
    change (timestamp_desc shown left_out = true).
    apply (sorted_split timestamp_desc
             (order_by timestamp_desc (updates_of symbol db)) Feed.MAX_ITEMS);
      auto.
    apply (Permutation_in left_out
             (Permutation_sym (order_by_perm timestamp_desc _))) in Hl.
    rewrite <- (firstn_skipn Feed.MAX_ITEMS
                  (order_by timestamp_desc (updates_of symbol db))) in Hl.
    apply in_app_or in Hl as [Hl|Hl]; [contradiction|exact Hl].
Qed.

End WithBuiltins.

Lemma refill_shows_newest_of_symbol_witness :
  (List.length (loadedFrom (H := demo_builtins) 0
      (select_recent_updates "AAPL" Feed.MAX_ITEMS (sample_updates "AAPL" 3)))
   <= Feed.MAX_ITEMS)%nat.
Proof.
  refine (proj1 (refill_shows_newest_of_symbol (H := demo_builtins)
                   "AAPL" (sample_updates "AAPL" 3) _)).
  apply wf_updates_sound. vm_compute. reflexivity.
Defined.

End StoreMore.

(* ================================================================== *)
(** ** Writes followed by reads *)
(* ================================================================== *)

Module RoundTrip.
Import Js JsFacts OrderFacts JsMore Store App ListFacts SortFacts StoreFacts
  AlertStoreFacts StoreMore Guards.

(** A row that is strictly newer than every other row comes first under
    [ORDER BY timestamp DESC]. *)
Lemma order_by_newest_first (n : PriceUpdateRow) (l : list PriceUpdateRow) :
  Forall stored l -> NoDup (map pu_id l) -> In n l ->
  (forall y, In y l -> pu_id y <> pu_id n ->
             lt (pu_timestamp y) (pu_timestamp n) = true) ->
  exists rest, order_by timestamp_desc l = n :: rest.
Proof.
  intros Hst Hnd Hn Hnew.
  pose proof (order_by_perm timestamp_desc l) as Hperm.
  pose proof (order_by_sorted timestamp_desc stored timestamp_desc_total
                timestamp_desc_trans l Hst) as Hsorted.
  destruct (order_by timestamp_desc l) as [|h t].
  - apply Permutation_nil in Hperm. subst l. destruct Hn.
  - assert (Hh : In h l) by (apply (Permutation_in h Hperm); now left).
    destruct (Z.eq_dec (pu_id h) (pu_id n)) as [E|Hne].
    + exists t. f_equal. now apply (id_injective pu_id l Hnd).
    + exfalso.
      assert (Hnt : In n t).
      { apply (Permutation_in n (Permutation_sym Hperm)) in Hn.
        destruct Hn as [->|Hn]; [congruence|exact Hn]. }
      inversion Hsorted as [|? ? _ Hall]; subst.
      rewrite Forall_forall in Hall. specialize (Hall n Hnt).
      cbv beta in Hall. unfold timestamp_desc, ge in Hall.
      specialize (Hnew h Hh Hne).
      rewrite Forall_forall in Hst.
      rewrite (lt_not_le _ _ (Hst h Hh) (Hst n Hn)) in Hnew.
      unfold le in Hnew. rewrite Hall in Hnew. discriminate.
Qed.

(** X16.  A persisted update with a numeric price and timestamp that is
    strictly newer than every stored record of its symbol survives the
    pruning and is the first row of the next refill query for that symbol,
    with its price and timestamp as SQLite gives them back (a zero without
    its sign). *)
Theorem persisted_newest_trade_heads_refill (update : Feed.PriceUpdate) (db : Db) :
  wf_updates db ->
  isNaN (Feed.price update) = false ->
  isNaN (Feed.timestamp update) = false ->
  Forall (fun r => lt (pu_timestamp r) (Feed.timestamp update) = true)
         (updates_of (Feed.symbol update) db) ->
  exists rest,
    select_recent_updates (Feed.symbol update) Feed.MAX_ITEMS
      (persistUpdate update db)
    = {| pu_id := price_updates_seq db + 1;
         pu_symbol := Feed.symbol update;
         pu_price := stored_number (Feed.price update);
         pu_timestamp := stored_number (Feed.timestamp update) |} :: rest.
Proof.
  intros Hwf Hp Ht Hnewer.
  assert (E : rejected (Feed.price update) (Feed.timestamp update) = false)
    by (unfold rejected; now rewrite Hp, Ht).
  set (symbol := Feed.symbol update).
  set (n := {| pu_id := price_updates_seq db + 1; pu_symbol := symbol;
               pu_price := stored_number (Feed.price update);
               pu_timestamp := stored_number (Feed.timestamp update) |}).
  set (inserted := insert_price_update symbol (Feed.price update)
                     (Feed.timestamp update) db).
  assert (Hwf1 : wf_updates inserted) by now apply insert_price_update_wf.
  assert (HL1 : updates_of symbol inserted = updates_of symbol db ++ [n]).
  { unfold inserted. rewrite (insert_accepted _ _ _ _ E).
    unfold updates_of. cbn [price_updates].
    rewrite filter_app. cbn [filter pu_symbol]. now rewrite String.eqb_refl. }
  assert (Hold : forall y, In y (updates_of symbol db) -> pu_id y <> pu_id n).
  { intros y Hy. destruct Hwf as (_ & Hle & _). rewrite Forall_forall in Hle.
    unfold updates_of in Hy. apply filter_In in Hy as [Hy _].
    specialize (Hle y Hy). cbn. lia. }
  assert (Hlt : forall l, incl l (updates_of symbol inserted) ->
            forall y, In y l -> pu_id y <> pu_id n ->
                      lt (pu_timestamp y) (pu_timestamp n) = true).
  { intros l Hl y Hy Hne. apply Hl in Hy. rewrite HL1 in Hy.
    apply in_app_or in Hy as [Hy|[<-|[]]]; [|congruence].
    rewrite Forall_forall in Hnewer. cbn [pu_timestamp n].
    rewrite lt_stored_number. now apply Hnewer. }
  assert (Hwf_of : forall d, wf_updates d ->
            Forall stored (updates_of symbol d)
            /\ NoDup (map pu_id (updates_of symbol d))).
  { intros d (Hnd & _ & Hts). split.
    - now apply Forall_filter.
    - now apply NoDup_map_filter. }
  destruct (Hwf_of inserted Hwf1) as (Hst1 & Hnd1).
  assert (Hn1 : In n (updates_of symbol inserted)).
  { rewrite HL1. apply in_or_app. right. now left. }
  destruct (order_by_newest_first n _ Hst1 Hnd1 Hn1
              (Hlt _ (incl_refl _))) as (t1 & Hhead1).
  set (pruned := prune_price_updates symbol DB_MAX_ITEMS inserted).
  assert (Hwf2 : wf_updates pruned) by now apply prune_price_updates_wf.
  assert (HL2 : updates_of symbol pruned
                = filter (fun r => id_in (pu_id r)
                            (map pu_id (select_recent_updates symbol DB_MAX_ITEMS
                                          inserted)))
                         (updates_of symbol inserted)).
  { unfold pruned, updates_of, prune_price_updates. cbn [price_updates].
    apply (prune_matching_rows (fun r => String.eqb (pu_symbol r) symbol)). }
  destruct (Hwf_of pruned Hwf2) as (Hst2 & Hnd2).
  assert (Hn2 : In n (updates_of symbol pruned)).
  { rewrite HL2. apply filter_In. split; [exact Hn1|].
    unfold select_recent_updates. rewrite Hhead1.
    unfold DB_MAX_ITEMS. cbn [firstn map id_in existsb].
    now rewrite Z.eqb_refl. }
  assert (Hincl : incl (updates_of symbol pruned) (updates_of symbol inserted)).
  { rewrite HL2. apply incl_filter. }
  destruct (order_by_newest_first n _ Hst2 Hnd2 Hn2 (Hlt _ Hincl))
    as (t2 & Hhead2).
  exists (firstn (Feed.MAX_ITEMS - 1) t2).
  rewrite persistUpdate_accepted by exact E. fold symbol inserted pruned.
  unfold select_recent_updates. rewrite Hhead2. reflexivity.
Qed.

Lemma persisted_newest_trade_heads_refill_witness :
  exists rest,
    select_recent_updates (Feed.symbol sample_update) Feed.MAX_ITEMS
      (persistUpdate sample_update (sample_updates "AAPL" 60))
    = {| pu_id := price_updates_seq (sample_updates "AAPL" 60) + 1;
         pu_symbol := Feed.symbol sample_update;
         pu_price := stored_number (Feed.price sample_update);
         pu_timestamp := stored_number (Feed.timestamp sample_update) |}
      :: rest.
Proof.
  apply (persisted_newest_trade_heads_refill sample_update
           (sample_updates "AAPL" 60)).
  - apply wf_updates_sound. vm_compute. reflexivity.
  - reflexivity.
  - reflexivity.
  - apply Forall_forall. intros r Hr.
    assert (Hall : forallb (fun r => lt (pu_timestamp r) (Feed.timestamp sample_update))
                     (updates_of (Feed.symbol sample_update)
                        (sample_updates "AAPL" 60)) = true)
      by (vm_compute; reflexivity).
    rewrite forallb_forall in Hall. now apply Hall.
Defined.

(** *** The alert list *)

Lemma triggered_asc_price_asc_spec (a b : PriceAlertRow) :
  triggered_asc_price_asc a b = true <->
  pa_triggered a < pa_triggered b
  \/ (pa_triggered a = pa_triggered b /\ le (pa_price a) (pa_price b) = true).
Proof.
  unfold triggered_asc_price_asc.
  rewrite orb_true_iff, andb_true_iff, Z.ltb_lt, Z.eqb_eq. tauto.
Qed.

Lemma triggered_asc_price_asc_total (a b : PriceAlertRow) :
  priced a -> priced b ->
  triggered_asc_price_asc a b = true \/ triggered_asc_price_asc b a = true.
Proof.
  intros Ha Hb. rewrite !triggered_asc_price_asc_spec.
  destruct (Z.lt_trichotomy (pa_triggered a) (pa_triggered b)) as [L|[E|L]];
    [now left; left| |now right; left].
  destruct (le_total _ _ Ha Hb); [left|right]; right; split; auto.
Qed.

Lemma triggered_asc_price_asc_trans (a b c : PriceAlertRow) :
  priced a -> priced b -> priced c ->
  triggered_asc_price_asc a b = true -> triggered_asc_price_asc b c = true ->
  triggered_asc_price_asc a c = true.
Proof.
  intros Ha Hb Hc. rewrite !triggered_asc_price_asc_spec.
  intros [L1|[E1 P1]] [L2|[E2 P2]]; try (left; lia).
  right. split; [lia|]. now apply (le_trans _ (pa_price b) _).
Qed.

(** X18.  The alert list that [loadAlerts] builds from a well-formed table
    whose thresholds are numbers: it has at most [ALERT_MAX_ITEMS] = 20
    entries, all of the requested symbol; no untriggered alert comes after
    a triggered one; and among alerts of the same state the thresholds
    ascend. *)
Theorem loadAlerts_list_shape (symbol : string) (db : Db) :
  wf_alerts db ->
  Forall (fun r => isNaN (pa_price r) = false) (price_alerts db) ->
  let shown := map toThreshold (select_alerts symbol ALERT_MAX_ITEMS db) in
  (List.length shown <= ALERT_MAX_ITEMS)%nat
  /\ Forall (fun a => App.symbol a = symbol) shown
  /\ StronglySorted
       (fun a b => (triggered a = true -> triggered b = true)
                   /\ (triggered a = triggered b ->
                       le (price a) (price b) = true))
       shown.
Proof.
  intros (Hnd & Hle & Htr) Hpr shown.
  assert (Hin : forall r, In r (select_alerts symbol ALERT_MAX_ITEMS db) ->
                          In r (alerts_of symbol db)).
  { intros r Hr. unfold select_alerts in Hr. apply In_firstn in Hr.
    now apply (Permutation_in r (order_by_perm triggered_asc_price_asc _)) in Hr. }
  repeat split.
  - unfold shown. rewrite length_map. apply firstn_le_length.
  - unfold shown. apply Forall_map. apply Forall_forall. intros r Hr.
    apply Hin in Hr. unfold alerts_of in Hr. apply filter_In in Hr as [_ Hr].
    cbn. now apply String.eqb_eq.
  - unfold shown, select_alerts.
    assert (Hflag : Forall (fun r => priced r
                             /\ (pa_triggered r = 0 \/ pa_triggered r = 1))
                      (alerts_of symbol db)).
    { apply Forall_filter. apply Forall_forall. intros r Hr.
      rewrite Forall_forall in Hpr, Htr. split; auto. now apply Hpr. }
    assert (Hsorted : StronglySorted
              (fun a b => triggered_asc_price_asc a b = true
                          /\ (pa_triggered a = 0 \/ pa_triggered a = 1)
                          /\ (pa_triggered b = 0 \/ pa_triggered b = 1))
              (order_by triggered_asc_price_asc (alerts_of symbol db))).
    { pose proof (order_by_sorted triggered_asc_price_asc priced
                    triggered_asc_price_asc_total triggered_asc_price_asc_trans
                    (alerts_of symbol db)) as Hs.
      assert (Hp : Forall priced (alerts_of symbol db))
        by (revert Hflag; apply Forall_impl; tauto).
      specialize (Hs Hp).
      assert (Hf : Forall (fun r => pa_triggered r = 0 \/ pa_triggered r = 1)
                     (order_by triggered_asc_price_asc (alerts_of symbol db))).
      { apply (Forall_perm _ (alerts_of symbol db)).
        - symmetry. apply order_by_perm.
        - revert Hflag. apply Forall_impl. tauto. }
      revert Hf. induction Hs as [|x l Hs IH Hx]; intros Hf; constructor.
      - apply IH. now inversion Hf.
      - inversion Hf as [|? ? Hfx Hfl]; subst.
        rewrite Forall_forall in *. intros y Hy. repeat split; auto. }
    refine (StronglySorted_map toThreshold _ _ _ _
              (StronglySorted_firstn _ _ _ Hsorted)).
    intros a b (Hord & Hfa & Hfb).
    apply triggered_asc_price_asc_spec in Hord. cbn.
    split.
    + intros Ea. apply Z.eqb_eq in Ea. apply Z.eqb_eq. lia.
    + intros Eab.
      assert (pa_triggered a = pa_triggered b).
      { destruct Hfa as [Ea|Ea], Hfb as [Eb|Eb]; rewrite Ea, Eb in *;
          try reflexivity; discriminate. }
      destruct Hord as [?|[_ ?]]; [lia|assumption].
Qed.

Lemma loadAlerts_list_shape_witness :
  (List.length (map toThreshold
                  (select_alerts "AAPL" ALERT_MAX_ITEMS (sample_alerts "AAPL" 3)))
   <= ALERT_MAX_ITEMS)%nat.
Proof.
  refine (proj1 (loadAlerts_list_shape "AAPL" (sample_alerts "AAPL" 3) _ _)).
  - apply wf_alerts_sound. vm_compute. reflexivity.
  - apply Forall_forall. intros r Hr.
    assert (Hall : forallb (fun r => negb (isNaN (pa_price r)))
                     (price_alerts (sample_alerts "AAPL" 3)) = true)
      by (vm_compute; reflexivity).
    rewrite forallb_forall in Hall. apply negb_true_iff. now apply Hall.
Defined.

(** X19.  While a symbol has fewer than 20 alerts, saving one appends one
    untriggered row with the next id and deletes nothing; removing that
    alert again gives back the very rows that were stored before. *)
Theorem saveAlert_then_remove_restores (symbol : string) (d : Direction)
  (price : number) (db : Db) :
  wf_alerts db ->
  (List.length (alerts_of symbol db) < ALERT_MAX_ITEMS)%nat ->
  price_alerts (saveAlert symbol d price db)
  = price_alerts db ++
    [{| pa_id := price_alerts_seq db + 1; pa_symbol := symbol;
        pa_direction := direction_text d; pa_price := price;
        pa_triggered := 0 |}]
  /\ price_alerts (delete_price_alert (price_alerts_seq db + 1)
                     (saveAlert symbol d price db))
     = price_alerts db.
Proof.
  intros (Hnd & Hle & _) Hlen.
  assert (Hsave : price_alerts (saveAlert symbol d price db)
                  = price_alerts (insert_price_alert symbol (direction_text d)
                                    price db)).
  { unfold saveAlert, prune_price_alerts. cbn [price_alerts].
    set (inserted := insert_price_alert _ _ _ db).
    apply (prune_within_limit triggered_asc_id_desc pa_id
             (fun r => String.eqb (pa_symbol r) symbol)).
    unfold inserted, insert_price_alert. cbn [price_alerts].
    rewrite filter_app, length_app. cbn. rewrite String.eqb_refl. cbn.
    unfold alerts_of in Hlen. lia. }
  split; [exact Hsave|].
  unfold delete_price_alert. cbn [price_alerts]. rewrite Hsave.
  unfold insert_price_alert. cbn [price_alerts].
  rewrite filter_app. cbn. rewrite Z.eqb_refl. cbn. rewrite app_nil_r.
  apply filter_all. intros r Hr. rewrite Forall_forall in Hle.
  specialize (Hle r Hr). apply negb_true_iff. apply Z.eqb_neq. lia.
Qed.

Lemma saveAlert_then_remove_restores_witness :
  price_alerts (delete_price_alert (price_alerts_seq (sample_alerts "AAPL" 3) + 1)
                  (saveAlert "AAPL" above (lit 150) (sample_alerts "AAPL" 3)))
  = price_alerts (sample_alerts "AAPL" 3).
Proof.
  refine (proj2 (saveAlert_then_remove_restores "AAPL" above (lit 150)
                   (sample_alerts "AAPL" 3) _ _)).
  - apply wf_alerts_sound. vm_compute. reflexivity.
  - vm_compute. lia.
Defined.

(** X20.  Marking alerts as triggered is idempotent and commutative, and
    marking twice is marking the union: two evaluations that overlap leave
    the same table in whichever order their UPDATEs land. *)
Theorem mark_triggered_idempotent_commutes (ids ids' : list Z) (db : Db) :
  mark_triggered ids (mark_triggered ids db) = mark_triggered ids db
  /\ mark_triggered ids (mark_triggered ids' db)
     = mark_triggered ids' (mark_triggered ids db)
  /\ mark_triggered ids (mark_triggered ids' db)
     = mark_triggered (ids ++ ids') db.
Proof.
  assert (Hcomp : forall a b,
    mark_triggered a (mark_triggered b db)
    = {| price_updates := price_updates db;
         price_updates_seq := price_updates_seq db;
         price_alerts :=
           map (fun r =>
                  if id_in (pa_id r) a || id_in (pa_id r) b
                  then {| pa_id := pa_id r; pa_symbol := pa_symbol r;
                          pa_direction := pa_direction r; pa_price := pa_price r;
                          pa_triggered := 1 |}
                  else r)
               (price_alerts db);
         price_alerts_seq := price_alerts_seq db |}).
  { intros a b. unfold mark_triggered. cbn. f_equal. rewrite map_map.
    apply map_ext. intros r.
    destruct (id_in (pa_id r) b) eqn:Eb; cbn [pa_id]; rewrite ?Eb;
      destruct (id_in (pa_id r) a) eqn:Ea; reflexivity. }
  repeat split.
  - rewrite Hcomp. unfold mark_triggered. f_equal. apply map_ext. intros r.
    now rewrite orb_diag.
  - rewrite !Hcomp. f_equal. apply map_ext. intros r. now rewrite orb_comm.
  - rewrite Hcomp. unfold mark_triggered. f_equal. apply map_ext. intros r.
    unfold id_in. now rewrite existsb_app.
Qed.

End RoundTrip.

(* ================================================================== *)
(** ** What every write of the component maintains *)
(* ================================================================== *)

Module AppMore.
Import Js JsFacts OrderFacts JsMore Store App ListFacts SortFacts StoreFacts
  AlertStoreFacts AppFacts AsyncFacts StoreMore FeedMore Guards.

Section WithBuiltins.
Context `{Builtins}.

Lemma forEachTrade_started (sym : string) (trades : list value) (v : Feed.View) :
  exists news,
    Feed.started (Feed.forEachTrade sym trades v) = Feed.started v ++ news
    /\ Forall (fun u => isNaN (Feed.timestamp u) = false) news.
Proof.
  revert v. induction trades as [|trade trades IH]; intros v; cbn [Feed.forEachTrade].
  - exists []. now rewrite app_nil_r.
  - destruct (Feed.decodeTrade sym trade) as [| |u] eqn:E.
    + exists []. now rewrite app_nil_r.
    + apply IH.
    + destruct (IH (Feed.acceptUpdate u v)) as (news & Hs & Hn).
      exists (u :: news). split.
      * rewrite Hs. cbn. now rewrite <- app_assoc.
      * constructor; [|exact Hn].
        now destruct (decodeTrade_numeric sym trade u E).
Qed.

Lemma handleMessage_accepted (sym data : string) (v : Feed.View) :
  Forall (fun u => isNaN (Feed.timestamp u) = false)
    (skipn (List.length (Feed.started v))
           (Feed.started (Feed.handleMessage sym data v))).
Proof.
  unfold Feed.handleMessage.
  destruct (JSON_parse data) as [payload|].
  - destruct (forEachTrade_started sym
                (match get payload "data" with JArray items => items | _ => [] end) v)
      as (news & -> & Hn).
    rewrite skipn_app, skipn_all, Nat.sub_diag. exact Hn.
  - rewrite skipn_all. constructor.
Qed.

Section StoreInvariant.
Variable D : Db -> Prop.
Variable G : Stage -> Prop.
Hypothesis resume_keeps :
  forall t st s, D (db s) -> G st ->
                 D (db (snd (resume t st s))) /\ G (fst (resume t st s)).
Hypothesis G_fresh :
  forall st, match st with
             | PersistInsert _ | SaveInsert _ _ _ => False
             | _ => True
             end -> G st.
Hypothesis G_PersistInsert :
  forall u, isNaN (Feed.timestamp u) = false -> G (PersistInsert u).
Hypothesis G_handleSaveAlert :
  forall d text s, G (fst (handleSaveAlert d text s)).

Lemma store_inv_ext (s s' : State) :
  db s' = db s -> pool s' = pool s -> store_inv D G s -> store_inv D G s'.
Proof. unfold store_inv. now intros -> ->. Qed.

Lemma advance_store_inv (t : nat) (s : State) :
  store_inv D G s -> store_inv D G (advance t s).
Proof.
  intros Hs. pose proof Hs as (Hd & Hp). unfold advance.
  destruct (find _ (pool s)) as [task|] eqn:F; [|exact Hs].
  apply find_some in F as [Htask _].
  rewrite Forall_forall in Hp. pose proof (Hp task Htask) as Hg.
  destruct (resume_keeps t (stage task) s Hd Hg) as (Hd' & Hg').
  destruct (resume t (stage task) s) as [st' s'] eqn:E. cbn [fst snd] in *.
  destruct (resume_pool _ _ _ _ _ E) as [Ep _].
  split; cbn; [exact Hd'|].
  rewrite Ep. apply settle_Forall; [now apply Forall_forall|exact Hg'].
Qed.

Lemma call_store_inv (f : State -> Stage * State) (s : State) :
  starter f -> (forall s0, G (fst (f s0))) ->
  store_inv D G s -> store_inv D G (call f s).
Proof.
  intros Hf Hg (Hd & Hp). unfold call.
  destruct (Hf s) as [_ (Ed & Ep & _)]. specialize (Hg s).
  destruct (f s) as [st s1]. cbn [fst snd] in *.
  unfold store_inv, spawn. cbn. rewrite Ed, Ep. split; [exact Hd|].
  destruct st; try exact Hp;
    (apply Forall_app; split; [exact Hp|repeat constructor; exact Hg]).
Qed.

Lemma refillEffect_store_inv (s : State) :
  store_inv D G s -> store_inv D G (refillEffect s).
Proof.
  intros Hs. unfold refillEffect. destruct (dbOpen s); [|exact Hs].
  apply call_store_inv; [apply loadAlerts_starter| |].
  - intros s0. unfold loadAlerts. destruct (dbOpen s0); now apply G_fresh.
  - apply call_store_inv; [apply loadCachedUpdates_starter| |exact Hs].
    intros s0. unfold loadCachedUpdates. destruct (dbOpen s0); now apply G_fresh.
Qed.

Lemma step_store_inv (s : State) (e : Event) :
  store_inv D G s -> store_inv D G (step s e).
Proof.
  intro Hs. destruct e as [ | sym data | t | raw | d text | a]; cbn [step].
  - unfold onDbReady. destruct (dbOpen s); [exact Hs|].
    apply refillEffect_store_inv. revert Hs. now apply store_inv_ext.
  - unfold onMessage.
    pose proof (handleMessage_accepted sym data (feed s)) as Hacc.
    set (v := Feed.handleMessage sym data (feed s)) in *.
    revert Hacc.
    generalize (skipn (List.length (Feed.started (feed s))) (Feed.started v)).
    assert (Hv : store_inv D G (with_feed v s))
      by (revert Hs; now apply store_inv_ext).
    revert Hv. generalize (with_feed v s). intros s1 Hs1 accepted Hacc.
    revert s1 Hs1. induction Hacc as [|u rest Hu _ IH]; intros s1 Hs1;
      [exact Hs1|].
    cbn [fold_left]. apply IH.
    apply call_store_inv; [apply persistAndCheckUpdate_starter| |exact Hs1].
    intros s0. unfold persistAndCheckUpdate, checkAlertsForUpdate.
    destruct (dbOpen s0); [now apply G_PersistInsert|now apply G_fresh].
  - now apply advance_store_inv.
  - unfold applySymbol.
    destruct (String.eqb _ ""); [revert Hs; now apply store_inv_ext|].
    destruct (String.eqb _ (activeSymbol s));
      [revert Hs; now apply store_inv_ext|].
    apply refillEffect_store_inv. revert Hs. now apply store_inv_ext.
  - apply call_store_inv; [apply handleSaveAlert_starter| |exact Hs].
    intros s0. apply G_handleSaveAlert.
  - apply call_store_inv; [apply handleRemoveAlert_starter| |exact Hs].
    intros s0. unfold handleRemoveAlert. destruct (dbOpen s0); now apply G_fresh.
Qed.

Lemma run_store_inv (events : list Event) (s : State) :
  store_inv D G s -> store_inv D G (run events s).
Proof.
  revert s. induction events as [|e rest IH]; intros s Hs; [exact Hs|].
  cbn [run fold_left]. apply IH. now apply step_store_inv.
Qed.

End StoreInvariant.

Lemma resume_keeps_wf_updates (t : nat) (st : Stage) (s : State) :
  wf_updates (db s) -> timestamped st ->
  wf_updates (db (snd (resume t st s))) /\ timestamped (fst (resume t st s)).
Proof.
  intros Hwf Hg.
  destruct st; cbn [resume]; try insert_cases; cbn [fst snd];
    unfold checkAlertsForUpdate, loadAlerts; cbn;
    try (destruct (dbOpen s); cbn);
    try (destruct (triggeredIds _ _); cbn);
    (split; [|exact I]);
    first [ exact Hwf
          | now apply insert_price_update_wf
          | now apply prune_price_updates_wf ].
Qed.

(** X17.  In every run of the component over a well-formed history table
    (unique ids within the sequence, numeric timestamps), whatever arrives
    and however the callbacks interleave, the table stays well formed: the
    component never stores a record whose timestamp is [NaN]. *)
Theorem stored_trades_stay_well_formed (stored : Db) (allowed : bool)
  (events : list Event) :
  wf_updates stored ->
  wf_updates (db (run events (initial stored allowed))).
Proof.
  intros Hwf.
  apply (run_store_inv wf_updates timestamped resume_keeps_wf_updates).
  - intros st Hst. destruct st; try exact I; destruct Hst.
  - intros u Hu. exact Hu.
  - intros d text s. unfold handleSaveAlert.
    destruct (dbOpen s); [|exact I]. now destruct (_ || _).
  - split; [exact Hwf|constructor].
Qed.

Lemma resume_keeps_thresholds (t : nat) (st : Stage) (s : State) :
  Forall (fun r => positive (pa_price r)) (price_alerts (db s)) ->
  threshold_ok st ->
  Forall (fun r => positive (pa_price r)) (price_alerts (db (snd (resume t st s))))
  /\ threshold_ok (fst (resume t st s)).
Proof.
  intros Hd Hg.
  destruct st; cbn [resume]; try insert_cases; cbn [fst snd];
    unfold checkAlertsForUpdate, loadAlerts; cbn;
    try (destruct (dbOpen s); cbn);
    try (destruct (triggeredIds _ _); cbn);
    (split; [|exact I]);
    first [ exact Hd
          | now rewrite (proj1 (insert_price_update_alerts _ _ _ _))
          | now apply Forall_filter
          | apply Forall_app; split; [exact Hd|constructor; [exact Hg|constructor]]
          | apply Forall_map; revert Hd; apply Forall_impl; intros r Hr;
            destruct (id_in _ _); exact Hr ].
Qed.

(** X21.  In every run of the component over a table whose alert
    thresholds are numbers greater than zero, every stored threshold stays
    a number greater than zero: [handleSaveAlert] lets no other value
    through, and nothing else writes a threshold. *)
Theorem stored_thresholds_stay_positive (stored : Db) (allowed : bool)
  (events : list Event) :
  Forall (fun r => isNaN (pa_price r) = false /\ gt (pa_price r) (lit 0) = true)
         (price_alerts stored) ->
  Forall (fun r => isNaN (pa_price r) = false /\ gt (pa_price r) (lit 0) = true)
         (price_alerts (db (run events (initial stored allowed)))).
Proof.
  intros Hpos.
  apply (run_store_inv (fun d => Forall (fun r => positive (pa_price r))
                                   (price_alerts d))
           threshold_ok resume_keeps_thresholds).
  - intros st Hst. destruct st; try exact I; destruct Hst.
  - intros u _. exact I.
  - intros d text s. unfold handleSaveAlert.
    destruct (dbOpen s); [|exact I].
    destruct (isNaN _) eqn:En; [exact I|]. cbn [orb].
    destruct (le _ _) eqn:El; [exact I|]. cbn. split; [exact En|].
    unfold gt. change (SFltb ?a ?b) with (lt a b).
    rewrite lt_not_le; [now rewrite El|reflexivity|exact En].
  - split; [exact Hpos|constructor].
Qed.

End WithBuiltins.

Lemma stored_trades_stay_well_formed_witness :
  wf_updates (db (run (H := demo_builtins) replay_trace
                    (initial one_stored_trade true))).
Proof.
  apply (stored_trades_stay_well_formed (H := demo_builtins)).
  apply wf_updates_sound. vm_compute. reflexivity.
Defined.

Lemma stored_thresholds_stay_positive_witness :
  Forall (fun r => isNaN (pa_price r) = false /\ gt (pa_price r) (lit 0) = true)
         (price_alerts (db (run (H := demo_builtins) first_trade
                              (initial two_alerts true)))).
Proof.
  apply (stored_thresholds_stay_positive (H := demo_builtins)).
  repeat constructor.
Defined.

End AppMore.

(* ================================================================== *)
(** ** A callback that runs undisturbed *)
(* ================================================================== *)

Module SequentialFacts.
Import Js JsFacts Store App ListFacts SortFacts StoreFacts
  AlertStoreFacts AppFacts AsyncFacts Guards.

Lemma mark_triggered_nil (d : Db) : mark_triggered [] d = d.
Proof.
  unfold mark_triggered. cbn. rewrite map_id. now destruct d.
Qed.

Lemma find_task_last (t : nat) (st : Stage) (p : list Task) :
  Forall (fun task => (tag task < t)%nat) p ->
  find (fun task => Nat.eqb (tag task) t) (p ++ [{| tag := t; stage := st |}])
  = Some {| tag := t; stage := st |}.
Proof.
  induction 1 as [|task p Ht _ IH]; cbn.
  - now rewrite Nat.eqb_refl.
  - destruct (Nat.eqb_spec (tag task) t); [lia|exact IH].
Qed.

Lemma find_task_absent (t : nat) (p : list Task) :
  Forall (fun task => (tag task < t)%nat) p ->
  find (fun task => Nat.eqb (tag task) t) p = None.
Proof.
  induction 1 as [|task p Ht _ IH]; cbn; [reflexivity|].
  destruct (Nat.eqb_spec (tag task) t); [lia|exact IH].
Qed.

Lemma settle_last (t : nat) (st st' : Stage) (p : list Task) :
  Forall (fun task => (tag task < t)%nat) p ->
  settle t st' (p ++ [{| tag := t; stage := st |}])
  = p ++ match st' with
         | Finished => []
         | _ => [{| tag := t; stage := st' |}]
         end.
Proof.
  induction 1 as [|task p Ht _ IH]; cbn.
  - rewrite Nat.eqb_refl. now destruct st'.
  - destruct (Nat.eqb_spec (tag task) t); [lia|]. now rewrite IH.
Qed.

Lemma snd_match {A B C : Type} (l : list A) (x y : B) (c : C) :
  snd (match l with [] => (x, c) | _ :: _ => (y, c) end) = c.
Proof. now destruct l. Qed.

Lemma fst_match {A B C : Type} (l : list A) (x y : B) (c : C) :
  fst (match l with [] => (x, c) | _ :: _ => (y, c) end)
  = match l with [] => x | _ :: _ => y end.
Proof. now destruct l. Qed.

Section WithBuiltins.
Context `{Builtins}.

Lemma advance_at (t : nat) (st : Stage) (p : list Task) (s : State) :
  pool s = p ++ [{| tag := t; stage := st |}] ->
  Forall (fun task => (tag task < t)%nat) p ->
  advance t s
  = with_pool (p ++ match fst (resume t st s) with
                    | Finished => []
                    | st' => [{| tag := t; stage := st' |}]
                    end)
              (snd (resume t st s)).
Proof.
  intros Hp Hlt. unfold advance. rewrite Hp, (find_task_last t st p Hlt).
  cbn [stage].
  destruct (resume t st s) as [st' s'] eqn:E. cbn [fst snd].
  destruct (resume_pool _ _ _ _ _ E) as [Ep _].
  rewrite Ep, Hp, (settle_last t st st' p Hlt). now destruct st'.
Qed.

Lemma advance_absent (t : nat) (s : State) :
  Forall (fun task => (tag task < t)%nat) (pool s) -> advance t s = s.
Proof.
  intros Hlt. unfold advance. now rewrite (find_task_absent t (pool s) Hlt).
Qed.

Ltac resume_innermost st p Hlt :=
  match goal with
  | |- context [advance ?t ?x] =>
      lazymatch x with
      | context [advance] => fail
      | _ => rewrite (advance_at t st p x) by (reflexivity || exact Hlt)
      end
  end.

Ltac absent_innermost Hlt :=
  match goal with
  | |- context [advance ?t ?x] =>
      lazymatch x with
      | context [advance] => fail
      | _ => rewrite (advance_absent t x) by exact Hlt
      end
  end.

Lemma run_absent (t m : nat) (s : State) :
  Forall (fun task => (tag task < t)%nat) (pool s) ->
  run (repeat (Resume t) m) s = s.
Proof.
  intros Hlt. induction m as [|m IH]; [reflexivity|].
  cbn [repeat]. unfold run in *. cbn [fold_left step].
  now rewrite advance_absent.
Qed.

(** X22.  [persistAndCheckUpdate(update)] run to its end with nothing in
    between, the database being open: the database ends as [persistUpdate]
    followed by marking exactly the untriggered alerts of the update's
    symbol that the update triggers; each of them is fired once, by this
    callback; one notification per fired alert is scheduled when
    notifications are allowed and none when they are not (the alerts are
    marked all the same); the alert list is reloaded when something fired
    and left alone otherwise; the callback is gone from the pool, and the
    feed and the subscribed symbol are as before. *)
Theorem persistAndCheckUpdate_sequential (update : Feed.PriceUpdate) (s : State) :
  dbOpen s = true ->
  Forall (fun task => (tag task < next_tag s)%nat) (pool s) ->
  let t := next_tag s in
  let s' := run (repeat (Resume t) 7) (call (persistAndCheckUpdate update) s) in
  let stored := persistUpdate update (db s) in
  let rows := select_untriggered (Feed.symbol update) stored in
  let ids := triggeredIds update rows in
  db s' = mark_triggered ids stored
  /\ fired s' = fired s ++ map (fun i => {| rule := i; by_task := t |}) ids
  /\ scheduled s'
     = scheduled s ++
       (if notificationAllowed s
        then map (notification update) (filter (isTriggered update) rows)
        else [])
  /\ alerts s'
     = match ids with
       | [] => alerts s
       | _ => map toThreshold
                (select_alerts (Feed.symbol update) ALERT_MAX_ITEMS (db s'))
       end
  /\ pool s' = pool s
  /\ feed s' = feed s
  /\ activeSymbol s' = activeSymbol s.
Proof.
  intros Hopen Hlt t s' stored rows ids.
  assert (Hids : triggeredIds update rows = ids) by reflexivity.
  clearbody ids.
  assert (Hhead :
    exists k s4,
      (k <= 4)%nat
      /\ run (repeat (Resume t) k) (call (persistAndCheckUpdate update) s)
         = with_pool (pool s ++ match ids with
                                | [] => []
                                | _ => [{| tag := t; stage := CheckMark update ids |}]
                                end) s4
      /\ db s4 = stored
      /\ fired s4 = fired s ++ map (fun i => {| rule := i; by_task := t |}) ids
      /\ scheduled s4
         = scheduled s ++
           (if notificationAllowed s
            then map (notification update) (filter (isTriggered update) rows)
            else [])
      /\ alerts s4 = alerts s /\ feed s4 = feed s
      /\ activeSymbol s4 = activeSymbol s /\ dbOpen s4 = true).
  { unfold call, persistAndCheckUpdate. rewrite Hopen.
    destruct (rejected (Feed.price update) (Feed.timestamp update)) eqn:R.
    - (* the INSERT throws; the evaluation follows at once *)
      assert (Hst : db s = stored)
        by (symmetry; now apply persistUpdate_rejected).
      exists 3%nat. cbn [repeat run fold_left step].
      resume_innermost (PersistInsert update) (pool s) Hlt.
      cbn [resume]. rewrite (run_insert_rejected _ _ _ _ R).
      unfold checkAlertsForUpdate.
      cbn [dbOpen with_db with_pool spawn]. rewrite Hopen. cbn [fst snd].
      resume_innermost (CheckSelect update) (pool s) Hlt.
      cbn [resume fst snd db with_db with_pool spawn].
      rewrite Hst. fold rows.
      resume_innermost (CheckEvaluate update rows) (pool s) Hlt.
      cbn [resume]. rewrite Hids. rewrite snd_match, fst_match.
      match goal with
      | |- context [with_pool (pool s ++ _) ?S] => exists S
      end.
      split; [lia|]. split.
      + now destruct ids.
      + cbn. rewrite Hopen, ?Hst.
        destruct (notificationAllowed s); repeat split;
          now rewrite ?app_nil_r.
    - assert (Hst : prune_price_updates (Feed.symbol update) DB_MAX_ITEMS
                      (insert_price_update (Feed.symbol update)
                         (Feed.price update) (Feed.timestamp update) (db s))
                    = stored)
        by (symmetry; now apply persistUpdate_accepted).
      exists 4%nat. cbn [repeat run fold_left step].
      resume_innermost (PersistInsert update) (pool s) Hlt.
      cbn [resume]. rewrite (run_insert_accepted _ _ _ _ R). cbn [fst snd].
      resume_innermost (PersistPrune update) (pool s) Hlt.
      cbn [resume]. unfold checkAlertsForUpdate.
      cbn [dbOpen with_db with_pool spawn]. rewrite Hopen. cbn [fst snd].
      resume_innermost (CheckSelect update) (pool s) Hlt.
      cbn [resume fst snd db with_db with_pool spawn].
      rewrite Hst. fold rows.
      resume_innermost (CheckEvaluate update rows) (pool s) Hlt.
      cbn [resume]. rewrite Hids. rewrite snd_match, fst_match.
      match goal with
      | |- context [with_pool (pool s ++ _) ?S] => exists S
      end.
      split; [lia|]. split.
      + now destruct ids.
      + cbn. rewrite Hopen, ?Hst.
        destruct (notificationAllowed s); repeat split;
          now rewrite ?app_nil_r. }
  destruct Hhead as (k & s4 & Hk & Hrunk & Hdb & Hfired & Hsched & Halerts
                     & Hfeed & Hsym & Hopen4).
  assert (Hsplit : s' = run (repeat (Resume t) (4 - k))
                          (run (repeat (Resume t) 3)
                             (run (repeat (Resume t) k)
                                (call (persistAndCheckUpdate update) s)))).
  { unfold s', run. rewrite <- !fold_left_app, <- !repeat_app.
    now replace (k + (3 + (4 - k)))%nat with 7%nat by lia. }
  rewrite Hsplit, Hrunk. clear Hsplit Hrunk.
  set (rest := repeat (Resume t) (4 - k)).
  cbn [repeat run fold_left step].
  destruct ids as [|i ids'] eqn:Eids.
  - rewrite app_nil_r.
    do 3 absent_innermost Hlt.
    unfold rest. rewrite run_absent by exact Hlt.
    cbn. rewrite mark_triggered_nil. repeat split; assumption.
  - resume_innermost (CheckMark update (i :: ids')) (pool s) Hlt.
    cbn [resume]. unfold loadAlerts.
    cbn [dbOpen with_db with_pool]. rewrite Hopen4. cbn [fst snd].
    resume_innermost (AlertsSelect (Feed.symbol update)) (pool s) Hlt.
    cbn [resume fst snd].
    resume_innermost (AlertsSet
      (select_alerts (Feed.symbol update) ALERT_MAX_ITEMS
         (db (with_pool
                (pool s ++ [{| tag := t; stage := AlertsSelect (Feed.symbol update) |}])
                (with_db (mark_triggered (i :: ids') (db s4))
                   (with_pool
                      (pool s ++ [{| tag := t; stage := CheckMark update (i :: ids') |}])
                      s4))))))
      (pool s) Hlt.
    unfold rest. rewrite run_absent by (cbn; now rewrite app_nil_r).
    cbn. rewrite app_nil_r, Hdb. repeat split; assumption.
Qed.

(** X23.  [handleSaveAlert] run to its end with nothing in between, the
    database being open: when the text does not read as a number greater
    than zero, nothing is written and the alert list stays; otherwise the
    database ends as [saveAlert] of the active symbol and the alert list is
    the one read back from it. *)
Theorem handleSaveAlert_sequential (alertDirection : Direction)
  (alertPriceText : string) (s : State) :
  dbOpen s = true ->
  Forall (fun task => (tag task < next_tag s)%nat) (pool s) ->
  let price := ToNumber (JString alertPriceText) in
  let s' := run (repeat (Resume (next_tag s)) 4)
                (call (handleSaveAlert alertDirection alertPriceText) s) in
  (isNaN price || le price (lit 0) = true ->
   db s' = db s /\ alerts s' = alerts s /\ pool s' = pool s)
  /\ (isNaN price || le price (lit 0) = false ->
      db s' = saveAlert (activeSymbol s) alertDirection price (db s)
      /\ alerts s'
         = map toThreshold
             (select_alerts (activeSymbol s) ALERT_MAX_ITEMS (db s'))
      /\ pool s' = pool s).
Proof.
  intros Hopen Hlt price s'. subst s'.
  unfold call, handleSaveAlert. rewrite Hopen. fold price.
  assert (Hlt' : Forall (fun task => (tag task < S (next_tag s))%nat) (pool s)).
  { revert Hlt. apply Forall_impl. intros task Ht. lia. }
  split; intros Hguard; rewrite Hguard; cbn [repeat run fold_left step].
  - do 4 absent_innermost Hlt. cbn. repeat split.
  - set (t := next_tag s).
    resume_innermost (SaveInsert (activeSymbol s) alertDirection price) (pool s) Hlt.
    cbn [resume fst snd].
    resume_innermost (SavePrune (activeSymbol s)) (pool s) Hlt.
    cbn [resume]. unfold loadAlerts.
    cbn [dbOpen with_db with_pool spawn]. rewrite Hopen. cbn [fst snd].
    resume_innermost (AlertsSelect (activeSymbol s)) (pool s) Hlt.
    cbn [resume fst snd].
    match goal with
    | |- context [AlertsSet ?rows] =>
        resume_innermost (AlertsSet rows) (pool s) Hlt
    end.
    cbn. rewrite app_nil_r. repeat split.
Qed.

(** X24.  [handleRemoveAlert(alertId)] run to its end with nothing in
    between, the database being open: the row of that id is deleted, the
    alert list is read back for the active symbol, and no alert of that id
    is in it. *)
Theorem handleRemoveAlert_sequential (alertId : Z) (s : State) :
  dbOpen s = true ->
  Forall (fun task => (tag task < next_tag s)%nat) (pool s) ->
  let s' := run (repeat (Resume (next_tag s)) 3)
                (call (handleRemoveAlert alertId) s) in
  db s' = delete_price_alert alertId (db s)
  /\ alerts s'
     = map toThreshold (select_alerts (activeSymbol s) ALERT_MAX_ITEMS (db s'))
  /\ Forall (fun a => id a <> alertId) (alerts s')
  /\ pool s' = pool s.
Proof.
  intros Hopen Hlt s'. subst s'.
  unfold call, handleRemoveAlert. rewrite Hopen.
  cbn [repeat run fold_left step].
  set (t := next_tag s).
  resume_innermost (RemoveDelete alertId (activeSymbol s)) (pool s) Hlt.
  cbn [resume]. unfold loadAlerts.
  cbn [dbOpen with_db with_pool spawn]. rewrite Hopen. cbn [fst snd].
  resume_innermost (AlertsSelect (activeSymbol s)) (pool s) Hlt.
  cbn [resume fst snd].
  match goal with
  | |- context [AlertsSet ?rows] =>
      resume_innermost (AlertsSet rows) (pool s) Hlt
  end.
  cbn [resume db alerts pool with_alerts with_pool with_db spawn fst snd].
  rewrite app_nil_r. repeat split.
  apply Forall_map. apply Forall_forall. intros r Hr. cbn [id toThreshold].
  unfold select_alerts in Hr. apply In_firstn in Hr.
  apply (Permutation_in r (order_by_perm triggered_asc_price_asc _)) in Hr.
  unfold alerts_of in Hr. apply filter_In in Hr as [Hr _].
  cbn [price_alerts delete_price_alert] in Hr. apply filter_In in Hr as [_ Hr].
  apply negb_true_iff in Hr. now apply Z.eqb_neq in Hr.
Qed.

End WithBuiltins.

Lemma persistAndCheckUpdate_sequential_witness :
  db (run (H := demo_builtins)
        (repeat (Resume (next_tag (run (H := demo_builtins) [DbReady]
                                     (initial two_alerts true)))) 7)
        (call (persistAndCheckUpdate at_threshold_update)
           (run (H := demo_builtins) [DbReady] (initial two_alerts true))))
  = mark_triggered
      (triggeredIds at_threshold_update
         (select_untriggered (Feed.symbol at_threshold_update)
            (persistUpdate at_threshold_update
               (db (run (H := demo_builtins) [DbReady] (initial two_alerts true))))))
      (persistUpdate at_threshold_update
         (db (run (H := demo_builtins) [DbReady] (initial two_alerts true)))).
Proof.
  refine (proj1 (persistAndCheckUpdate_sequential (H := demo_builtins)
                   at_threshold_update
                   (run (H := demo_builtins) [DbReady] (initial two_alerts true))
                   _ _)).
  - reflexivity.
  - repeat constructor.
Defined.

Lemma handleSaveAlert_sequential_witness :
  isNaN (ToNumber (Builtins := quote_builtins) (JString "150"))
  || le (ToNumber (Builtins := quote_builtins) (JString "150")) (lit 0) = false
  /\ db (run (H := quote_builtins)
           (repeat (Resume (next_tag (run (H := quote_builtins) [DbReady]
                                        (initial two_alerts true)))) 4)
           (call (handleSaveAlert (H := quote_builtins) above "150")
              (run (H := quote_builtins) [DbReady] (initial two_alerts true))))
     = saveAlert
         (activeSymbol (run (H := quote_builtins) [DbReady]
                          (initial two_alerts true)))
         above (ToNumber (Builtins := quote_builtins) (JString "150"))
         (db (run (H := quote_builtins) [DbReady] (initial two_alerts true))).
Proof.
  assert (Hvalid :
    isNaN (ToNumber (Builtins := quote_builtins) (JString "150"))
    || le (ToNumber (Builtins := quote_builtins) (JString "150")) (lit 0) = false)
    by (vm_compute; reflexivity).
  split; [exact Hvalid|].
  refine (proj1 (proj2 (handleSaveAlert_sequential (H := quote_builtins)
                          above "150"
                          (run (H := quote_builtins) [DbReady]
                             (initial two_alerts true)) _ _) Hvalid)).
  - reflexivity.
  - repeat constructor.
Defined.

Lemma handleRemoveAlert_sequential_witness :
  db (run (H := demo_builtins)
        (repeat (Resume (next_tag (run (H := demo_builtins) [DbReady]
                                     (initial two_alerts true)))) 3)
        (call (handleRemoveAlert 1)
           (run (H := demo_builtins) [DbReady] (initial two_alerts true))))
  = delete_price_alert 1
      (db (run (H := demo_builtins) [DbReady] (initial two_alerts true))).
Proof.
  refine (proj1 (handleRemoveAlert_sequential (H := demo_builtins) 1
                   (run (H := demo_builtins) [DbReady] (initial two_alerts true))
                   _ _)).
  - reflexivity.
  - repeat constructor.
Defined.

End SequentialFacts.

(* ================================================================== *)
(** ** The refill after the database opens *)
(* ================================================================== *)

Module RefillFacts.
Import Js JsFacts Store App ListFacts AppFacts AsyncFacts Guards SequentialFacts.

Lemma find_task_at (t : nat) (st : Stage) (p q : list Task) :
  Forall (fun task => (tag task < t)%nat) p ->
  find (fun task => Nat.eqb (tag task) t) (p ++ {| tag := t; stage := st |} :: q)
  = Some {| tag := t; stage := st |}.
Proof.
  induction 1 as [|task p Ht _ IH]; cbn.
  - now rewrite Nat.eqb_refl.
  - destruct (Nat.eqb_spec (tag task) t); [lia|exact IH].
Qed.

Lemma settle_at (t : nat) (st st' : Stage) (p q : list Task) :
  Forall (fun task => (tag task < t)%nat) p ->
  settle t st' (p ++ {| tag := t; stage := st |} :: q)
  = p ++ match st' with
         | Finished => q
         | _ => {| tag := t; stage := st' |} :: q
         end.
Proof.
  induction 1 as [|task p Ht _ IH]; cbn.
  - rewrite Nat.eqb_refl. now destruct st'.
  - destruct (Nat.eqb_spec (tag task) t); [lia|]. now rewrite IH.
Qed.

Section WithBuiltins.
Context `{Builtins}.

Lemma advance_within (t : nat) (st : Stage) (p q : list Task) (s : State) :
  pool s = p ++ {| tag := t; stage := st |} :: q ->
  Forall (fun task => (tag task < t)%nat) p ->
  advance t s
  = with_pool (p ++ match fst (resume t st s) with
                    | Finished => q
                    | st' => {| tag := t; stage := st' |} :: q
                    end)
              (snd (resume t st s)).
Proof.
  intros Hp Hlt. unfold advance. rewrite Hp, (find_task_at t st p q Hlt).
  cbn [stage].
  destruct (resume t st s) as [st' s'] eqn:E. cbn [fst snd].
  destruct (resume_pool _ _ _ _ _ E) as [Ep _].
  rewrite Ep, Hp, (settle_at t st st' p q Hlt). now destruct st'.
Qed.

Ltac resume_within st p q Hlt :=
  match goal with
  | |- context [advance ?t ?x] =>
      lazymatch x with
      | context [advance] => fail
      | _ => rewrite (advance_within t st p q x);
             [ | solve [reflexivity | cbn; now rewrite <- app_assoc]
               | exact Hlt ]
      end
  end.

(** X30.  The database opens and the two callbacks of the refill effect
    run to their ends, one after the other: the buffer becomes the cached
    trades of the active symbol ([loadCachedUpdates] over the newest 20
    stored records), with no highlight and no error message; the alert
    list becomes the stored alerts of the active symbol; the database is
    only read, and both callbacks are gone from the pool. *)
Theorem refill_sequential (s : State) :
  dbOpen s = false ->
  Forall (fun task => (tag task < next_tag s)%nat) (pool s) ->
  let t := next_tag s in
  let s' := run [Resume t; Resume t; Resume (S t); Resume (S t)] (step s DbReady) in
  dbOpen s' = true
  /\ Feed.updates (feed s')
     = loadedFrom 0 (select_recent_updates (activeSymbol s) Feed.MAX_ITEMS (db s))
  /\ Feed.freshTimestamp (feed s') = None
  /\ Feed.errorMessage (feed s') = None
  /\ alerts s'
     = map toThreshold (select_alerts (activeSymbol s) ALERT_MAX_ITEMS (db s))
  /\ db s' = db s
  /\ pool s' = pool s.
Proof.
  intros Hclosed Hlt t s'. subst s'.
  assert (Hlt' : Forall (fun task => (tag task < S t)%nat) (pool s)).
  { revert Hlt. apply Forall_impl. intros task Ht. unfold t. lia. }
  cbn [step]. unfold onDbReady. rewrite Hclosed.
  unfold refillEffect. cbn [dbOpen].
  unfold call, loadCachedUpdates, loadAlerts. cbn [dbOpen spawn fst snd].
  cbn [run fold_left step].
  fold t.
  resume_within (CachedSelect (activeSymbol s)) (pool s)
    [{| tag := S t; stage := AlertsSelect (activeSymbol s) |}] Hlt.
  cbn [resume fst snd].
  match goal with
  | |- context [CachedSet ?rows] =>
      resume_within (CachedSet rows) (pool s)
        [{| tag := S t; stage := AlertsSelect (activeSymbol s) |}] Hlt
  end.
  cbn [resume fst snd].
  resume_within (AlertsSelect (activeSymbol s)) (pool s) (@nil Task) Hlt'.
  cbn [resume fst snd].
  match goal with
  | |- context [AlertsSet ?rows] =>
      resume_within (AlertsSet rows) (pool s) (@nil Task) Hlt'
  end.
  cbn [resume fst snd db alerts pool feed dbOpen with_alerts with_pool with_db
       with_feed spawn Feed.updates Feed.freshTimestamp Feed.errorMessage
       activeSymbol].
  rewrite app_nil_r. repeat split.
Qed.

End WithBuiltins.

Lemma refill_sequential_witness :
  Feed.updates
    (feed (run (H := demo_builtins)
             [Resume (next_tag (initial one_stored_trade true));
              Resume (next_tag (initial one_stored_trade true));
              Resume (S (next_tag (initial one_stored_trade true)));
              Resume (S (next_tag (initial one_stored_trade true)))]
             (step (H := demo_builtins) (initial one_stored_trade true) DbReady)))
  = loadedFrom (H := demo_builtins) 0
      (select_recent_updates (activeSymbol (initial one_stored_trade true))
         Feed.MAX_ITEMS (db (initial one_stored_trade true))).
Proof.
  refine (proj1 (proj2 (refill_sequential (H := demo_builtins)
                          (initial one_stored_trade true) _ _))).
  - reflexivity.
  - constructor.
Defined.

End RefillFacts.

(* ================================================================== *)
(** ** Facts about [trim] *)
(* ================================================================== *)

Module StringFacts.
Import Js.

Lemma append_empty (s : string) : (s ++ EmptyString)%string = s.
Proof. induction s as [|c s IH]; cbn; [reflexivity|]. now rewrite IH. Qed.

Lemma append_assoc (a b c : string) :
  ((a ++ b) ++ c)%string = (a ++ (b ++ c))%string.
Proof. induction a as [|x a IH]; cbn; [reflexivity|]. now rewrite IH. Qed.

Lemma trimStart_eq (a : ascii) (r1 : string) :
  trimStart (String.String a r1)
  = if is_space a then trimStart r1
    else match r1 with
         | EmptyString => String.String a r1
         | String.String b r2 =>
             if is_space2 a b then trimStart r2
             else match r2 with
                  | EmptyString => String.String a r1
                  | String.String c r3 =>
                      if is_space3 a b c then trimStart r3
                      else String.String a r1
                  end
         end.
Proof. destruct r1 as [|b [|c r3]]; reflexivity. Qed.

Lemma is_space2_lead (a b : ascii) : is_space2 a b = true -> is_space a = false.
Proof.
  unfold is_space2, is_space. intros Hs.
  apply andb_true_iff in Hs as [Ha _]. apply Nat.eqb_eq in Ha.
  now rewrite Ha.
Qed.

Lemma is_space3_lead (a b c : ascii) :
  is_space3 a b c = true -> is_space a = false /\ is_space2 a b = false.
Proof.
  unfold is_space3, is_space2, is_space. cbv zeta.
  set (x := nat_of_ascii a).
  intros Hs.
  assert (Hx : (x = 225 \/ x = 226 \/ x = 227 \/ x = 239)%nat).
  { destruct (Nat.eqb_spec x 225); [now left|].
    destruct (Nat.eqb_spec x 226); [now right; left|].
    destruct (Nat.eqb_spec x 227); [now right; right; left|].
    destruct (Nat.eqb_spec x 239); [now right; right; right|].
    cbn in Hs. discriminate. }
  destruct Hx as [-> | [-> | [-> | ->]]]; split; reflexivity.
Qed.

Lemma white_trimStart (w s : string) :
  white w = true -> trimStart (w ++ s) = trimStart s.
Proof.
  destruct w as [|a [|b [|c [|d w]]]]; cbn [white]; try discriminate;
    intros Hw; cbn [append]; rewrite trimStart_eq.
  - now rewrite Hw.
  - now rewrite (is_space2_lead a b Hw), Hw.
  - destruct (is_space3_lead a b c Hw) as [-> ->]. now rewrite Hw.
Qed.

Lemma blank_trimStart (s : string) : blank s -> trimStart s = EmptyString.
Proof.
  induction 1 as [|w s Hw _ IH]; [reflexivity|]. now rewrite white_trimStart.
Qed.

Lemma trimStart_split (s : string) :
  (exists head, s = (head ++ trimStart s)%string /\ blank head)
  /\ trimStart (trimStart s) = trimStart s.
Proof.
  assert (Hgen : forall n s, (String.length s <= n)%nat ->
            (exists head, s = (head ++ trimStart s)%string /\ blank head)
            /\ trimStart (trimStart s) = trimStart s).
  { clear s. induction n as [|n IH]; intros s Hn.
    - destruct s; [|cbn in Hn; lia]. split; [exists EmptyString|]; repeat split.
      constructor.
    - destruct s as [|a r1].
      { split; [exists EmptyString|]; repeat split. constructor. }
      assert (Hstrip : forall w rest,
                String.String a r1 = (w ++ rest)%string -> white w = true ->
                (String.length rest <= n)%nat ->
                (exists head, String.String a r1
                              = (head ++ trimStart rest)%string
                              /\ blank head)
                /\ trimStart (trimStart rest) = trimStart rest).
      { intros w rest Es Hw Hlen.
        destruct (IH rest Hlen) as ((head & Eh & Hb) & Hfix).
        split; [|exact Hfix].
        exists (w ++ head)%string. split.
        - rewrite Es, append_assoc. now rewrite <- Eh.
        - clear - Hw Hb.
          destruct w as [|x [|y [|z [|d w]]]]; cbn in Hw; try discriminate.
          + now apply (blank_more (String.String x EmptyString)).
          + now apply (blank_more (String.String x (String.String y EmptyString))).
          + now apply (blank_more
                         (String.String x (String.String y
                            (String.String z EmptyString)))). }
      assert (Hkeep : trimStart (String.String a r1) = String.String a r1 ->
                (exists head, String.String a r1
                              = (head ++ trimStart (String.String a r1))%string
                              /\ blank head)
                /\ trimStart (trimStart (String.String a r1))
                   = trimStart (String.String a r1)).
      { intros E. split; [|now rewrite E].
        exists EmptyString. split; [now rewrite E|constructor]. }
      cbn in Hn.
      rewrite trimStart_eq in *.
      destruct (is_space a) eqn:Ea.
      { apply (Hstrip (String.String a EmptyString) r1);
          [reflexivity|exact Ea|lia]. }
      destruct r1 as [|b r2]; [now apply Hkeep|].
      destruct (is_space2 a b) eqn:Eb.
      { apply (Hstrip (String.String a (String.String b EmptyString)) r2);
          [reflexivity|exact Eb|cbn in Hn; lia]. }
      destruct r2 as [|c r3]; [now apply Hkeep|].
      destruct (is_space3 a b c) eqn:Ec.
      { apply (Hstrip (String.String a (String.String b (String.String c EmptyString))) r3);
          [reflexivity|exact Ec|cbn in Hn; lia]. }
      now apply Hkeep. }
  apply (Hgen (String.length s)). apply Nat.le_refl.
Qed.

Lemma trimEnd_split (s : string) :
  exists tail, s = (trimEnd s ++ tail)%string /\ blank tail.
Proof.
  induction s as [|c rest (tail & Et & Hb)].
  - exists EmptyString. split; [reflexivity|constructor].
  - cbn [trimEnd]. cbv zeta.
    destruct (white (String.String c (trimEnd rest))) eqn:Hw.
    + exists (String.String c (trimEnd rest) ++ tail)%string. split.
      * cbn. now rewrite <- Et.
      * now constructor.
    + exists tail. split; [|exact Hb]. cbn. now rewrite <- Et.
Qed.

Lemma trim_blank (s : string) : trim s = EmptyString <-> blank s.
Proof.
  unfold trim. split.
  - intros Ht.
    destruct (trimStart_split s) as ((head & Eh & Hb) & Hfix).
    destruct (trimEnd_split (trimStart s)) as (tail & Et & Htail).
    rewrite Ht in Et. cbn in Et.
    assert (Hempty : trimStart s = EmptyString).
    { rewrite <- Hfix. apply blank_trimStart. now rewrite Et. }
    rewrite Hempty, append_empty in Eh. now rewrite Eh.
  - intros Hb. now rewrite (blank_trimStart s Hb).
Qed.

End StringFacts.

Module TokenFacts.
Import Js Session StringFacts.

(** X25.  [hasToken] holds exactly when the environment variable is set
    and is not made of white space only, white space being what
    [String.prototype.trim] removes (the white space and line terminator
    characters of the language, U+00A0 and U+FEFF among them): an unset,
    empty or blank token counts as no token. *)
Theorem hasToken_iff (env : option string) :
  hasToken env = true <-> exists token, env = Some token /\ ~ blank token.
Proof.
  unfold hasToken, FINNHUB_TOKEN.
  assert (Hlen : forall s, (0 <? String.length s)%nat = true <-> s <> EmptyString).
  { intros [|c s]; cbn; split; congruence. }
  rewrite Hlen. split.
  - intros Hne. destruct env as [token|].
    + exists token. split; [reflexivity|]. intros Hb. apply Hne.
      now apply trim_blank.
    + now destruct Hne.
  - intros (token & -> & Hnb) Ht. apply Hnb. now apply trim_blank.
Qed.

End TokenFacts.

(* ================================================================== *)
(** ** What the screen shows *)
(* ================================================================== *)

Module ScreenFacts.
Import Js JsFacts Store App ListFacts AppFacts AsyncFacts StringFacts Screen Guards.

Lemma strict_eq_refl (x : number) : isNaN x = false -> strict_eq x x = true.
Proof.
  unfold strict_eq, SFeqb, SFcompare.
  destruct x as [s|s| |s m e]; try discriminate; intros _;
    try (now destruct s).
  rewrite Z.compare_refl, compare_cont_Eq, Pos.compare_refl. now destruct s.
Qed.

(** X6.  Once a trade is accepted it is the first entry of the buffer, the
    header's latest price is its price, its row is the highlighted one, and
    the error message is cleared. *)
Theorem accepted_trade_is_shown (update : Feed.PriceUpdate)
  (v : Feed.View) :
  isNaN (Feed.timestamp update) = false ->
  let v' := Feed.acceptUpdate update v in
  hd_error (Feed.updates v') = Some update
  /\ Market.latest (metrics (Feed.updates v')) = Some (Feed.price update)
  /\ isFresh (Feed.freshTimestamp v') update = true
  /\ Feed.errorMessage v' = None.
Proof.
  intros Ht v'. unfold v', Feed.acceptUpdate. cbn [Feed.updates Feed.freshTimestamp
    Feed.errorMessage].
  change (Feed.pushUpdate update (Feed.updates v))
    with (update :: firstn (Feed.MAX_ITEMS - 1)
            (filter (fun item => negb (String.eqb (Feed.key item) (Feed.key update)))
               (Feed.updates v))).
  repeat split.
  - unfold metrics, Market.computeMetrics.
    cbn [map List.length Nat.eqb nth_error Nat.sub].
    rewrite Nat.sub_0_r, (MarketFacts.nth_error_final _ _ (toSample update)).
    reflexivity.
  - cbn. now apply strict_eq_refl.
Qed.

Lemma accepted_trade_is_shown_witness :
  hd_error (Feed.updates (Feed.acceptUpdate sample_update Feed.initial))
  = Some sample_update.
Proof.
  refine (proj1 (accepted_trade_is_shown sample_update Feed.initial _)).
  reflexivity.
Defined.

Section WithBuiltins.
Context `{Builtins}.

Lemma pushUpdate_length (u : Feed.PriceUpdate) (prev : list Feed.PriceUpdate) :
  (List.length (Feed.pushUpdate u prev) <= Feed.MAX_ITEMS)%nat.
Proof. unfold Feed.pushUpdate. apply firstn_le_length. Qed.

Lemma forEachTrade_length (sym : string) (trades : list value) (v : Feed.View) :
  (List.length (Feed.updates v) <= Feed.MAX_ITEMS)%nat ->
  (List.length (Feed.updates (Feed.forEachTrade sym trades v)) <= Feed.MAX_ITEMS)%nat.
Proof.
  revert v. induction trades as [|trade trades IH]; intros v Hv;
    cbn [Feed.forEachTrade]; [exact Hv|].
  destruct (Feed.decodeTrade sym trade); auto.
  apply IH. cbn. apply pushUpdate_length.
Qed.

Lemma handleMessage_length (sym data : string) (v : Feed.View) :
  (List.length (Feed.updates v) <= Feed.MAX_ITEMS)%nat ->
  (List.length (Feed.updates (Feed.handleMessage sym data v)) <= Feed.MAX_ITEMS)%nat.
Proof.
  intros Hv. unfold Feed.handleMessage. destruct (JSON_parse data); [|exact Hv].
  now apply forEachTrade_length.
Qed.

Lemma loadedFrom_length (index : nat) (rows : list PriceUpdateRow) :
  List.length (loadedFrom index rows) = List.length rows.
Proof.
  revert index. induction rows as [|r rows IH]; intros index; cbn;
    [reflexivity|]. now rewrite IH.
Qed.

Lemma view_inv_ext (P : string -> Prop) (s s' : State) :
  activeSymbol s' = activeSymbol s -> feed s' = feed s -> pool s' = pool s ->
  view_inv P s -> view_inv P s'.
Proof. unfold view_inv. now intros -> -> ->. Qed.

Lemma resume_view (P : string -> Prop) (t : nat) (st : Stage) (s : State) :
  view_inv P s -> bounded st ->
  activeSymbol (snd (resume t st s)) = activeSymbol s
  /\ (List.length (Feed.updates (feed (snd (resume t st s)))) <= Feed.MAX_ITEMS)%nat
  /\ bounded (fst (resume t st s)).
Proof.
  intros (_ & _ & Hlen & _) Hb.
  destruct st; cbn [resume fst snd];
    unfold checkAlertsForUpdate, loadAlerts;
    cbn [fst snd activeSymbol feed with_db with_alerts with_feed dbOpen];
    try (destruct (dbOpen s));
    try (destruct (triggeredIds _ _));
    try (destruct (run_insert_price_update _ _ _ _));
    cbn [fst snd activeSymbol feed with_db with_alerts with_feed Feed.updates
         bounded];
    try (destruct (dbOpen s));
    try (destruct (triggeredIds _ _));
    cbn [fst snd activeSymbol feed with_db with_alerts with_feed Feed.updates
         bounded];
    repeat split;
    first [ exact Hlen | exact I
          | unfold select_recent_updates; apply firstn_le_length
          | rewrite loadedFrom_length; exact Hb ].
Qed.

Lemma advance_view (P : string -> Prop) (t : nat) (s : State) :
  view_inv P s -> view_inv P (advance t s).
Proof.
  intros Hs. pose proof Hs as (Hne & Horigin & Hlen & Hp). unfold advance.
  destruct (find _ (pool s)) as [task|] eqn:F; [|exact Hs].
  apply find_some in F as [Htask _].
  rewrite Forall_forall in Hp. pose proof (Hp task Htask) as Hb.
  destruct (resume_view P t (stage task) s Hs Hb) as (Ha & Hl & Hb').
  destruct (resume t (stage task) s) as [st' s'] eqn:E. cbn [fst snd] in *.
  destruct (resume_pool _ _ _ _ _ E) as [Ep _].
  unfold view_inv. cbn. rewrite Ha, Ep. repeat split; auto.
  apply settle_Forall; [now apply Forall_forall|exact Hb'].
Qed.

Lemma call_view (P : string -> Prop) (f : State -> Stage * State) (s : State) :
  (forall s0, activeSymbol (snd (f s0)) = activeSymbol s0
              /\ feed (snd (f s0)) = feed s0
              /\ pool (snd (f s0)) = pool s0
              /\ bounded (fst (f s0))) ->
  view_inv P s -> view_inv P (call f s).
Proof.
  intros Hf (Hne & Horigin & Hlen & Hp). unfold call.
  destruct (Hf s) as (Ea & Ef & Ep & Hb).
  destruct (f s) as [st s1]. cbn [fst snd] in *.
  unfold view_inv, spawn. cbn. rewrite Ea, Ef, Ep. repeat split; auto.
  destruct st; try exact Hp;
    (apply Forall_app; split; [exact Hp|constructor; [exact Hb|constructor]]).
Qed.

Ltac starter_view :=
  intros s0;
  unfold loadAlerts, loadCachedUpdates, persistAndCheckUpdate,
    checkAlertsForUpdate, handleSaveAlert, handleRemoveAlert;
  destruct (dbOpen s0); cbn; try (destruct (_ || _); cbn);
  repeat split; exact I.

Lemma refillEffect_view (P : string -> Prop) (s : State) :
  view_inv P s -> view_inv P (refillEffect s).
Proof.
  intros Hs. unfold refillEffect. destruct (dbOpen s); [|exact Hs].
  apply call_view; [starter_view|].
  apply call_view; [starter_view|exact Hs].
Qed.

Lemma step_view (P : string -> Prop) (s : State) (e : Event) :
  (forall raw, e = ApplySymbol raw -> P (toUpperCase (trim raw))) ->
  view_inv P s -> view_inv P (step s e).
Proof.
  intros Hraw Hs. pose proof Hs as (Hne & Horigin & Hlen & Hp).
  destruct e as [ | sym data | t | raw | d text | a]; cbn [step].
  - unfold onDbReady. destruct (dbOpen s); [exact Hs|].
    apply refillEffect_view. revert Hs. now apply view_inv_ext.
  - unfold onMessage.
    set (v := Feed.handleMessage sym data (feed s)).
    generalize (skipn (List.length (Feed.started (feed s))) (Feed.started v)).
    assert (Hv : view_inv P (with_feed v s)).
    { unfold view_inv. cbn. repeat split; auto.
      now apply handleMessage_length. }
    revert Hv. generalize (with_feed v s). intros s1 Hs1 accepted.
    revert s1 Hs1. induction accepted as [|u rest IH]; intros s1 Hs1;
      [exact Hs1|].
    cbn [fold_left]. apply IH. apply call_view; [starter_view|exact Hs1].
  - now apply advance_view.
  - unfold applySymbol.
    destruct (String.eqb _ "") eqn:Eempty;
      [unfold view_inv; cbn; repeat split; auto|].
    destruct (String.eqb _ (activeSymbol s));
      [unfold view_inv; cbn; repeat split; auto|].
    apply refillEffect_view. unfold view_inv. cbn. repeat split; auto.
    + now apply String.eqb_neq.
    + lia.
  - apply call_view; [starter_view|exact Hs].
  - apply call_view; [starter_view|exact Hs].
Qed.

Lemma run_view (P : string -> Prop) (events : list Event) (s : State) :
  (forall raw, In (ApplySymbol raw) events -> P (toUpperCase (trim raw))) ->
  view_inv P s -> view_inv P (run events s).
Proof.
  revert s. induction events as [|e rest IH]; intros s Hraw Hs; [exact Hs|].
  cbn [run fold_left]. apply IH.
  - intros raw Hin. apply Hraw. now right.
  - apply step_view; [|exact Hs]. intros raw ->. apply Hraw. now left.
Qed.

Lemma initial_view (P : string -> Prop) (stored : Db) (allowed : bool) :
  P DEFAULT_SYMBOL -> view_inv P (initial stored allowed).
Proof.
  intro Hdefault.
  unfold view_inv. cbn. repeat split; try discriminate; try constructor;
    try exact Hdefault.
  unfold Feed.MAX_ITEMS. lia.
Qed.


(** X7.  In every state the component can reach (trades arriving, the
    buffer being refilled from the cache, symbols being switched, in any
    interleaving), the buffer holds at most [MAX_ITEMS] = 20 entries. *)
Theorem buffer_never_exceeds_cap (stored : Db) (allowed : bool)
  (events : list Event) :
  (List.length (Feed.updates (feed (run events (initial stored allowed))))
   <= Feed.MAX_ITEMS)%nat.
Proof.
  pose proof (run_view (fun _ => True) events _ (fun _ _ => I)
                (initial_view (fun _ => True) stored allowed I)) as Hinv.
  destruct Hinv as (_ & _ & Hlen & _).
  exact Hlen.
Qed.

End WithBuiltins.
End ScreenFacts.

(* ================================================================== *)
(** ** More about the WebSocket effect *)
(* ================================================================== *)

Module SessionMore.
Import Js Session SessionFacts Owners.

Lemma nth_error_indexed {A B : Type} (f : nat * A -> B) (l : list A) (a i : nat) :
  nth_error (map f (combine (seq a (List.length l)) l)) i
  = match nth_error l i with
    | Some c => Some (f ((a + i)%nat, c))
    | None => None
    end.
Proof.
  revert a i. induction l as [|x l IH]; intros a i; cbn.
  - now destruct i.
  - destruct i as [|i]; cbn.
    + now rewrite Nat.add_0_r.
    + rewrite IH. now rewrite Nat.add_succ_r.
Qed.

Lemma closures_setManualClose (self i : nat) (s : State) :
  nth_error (closures (setManualClose self s)) i
  = match nth_error (closures s) i with
    | Some c => Some (if Nat.eqb i self
                      then {| manualClose := true;
                              symbolForSession := symbolForSession c |}
                      else c)
    | None => None
    end.
Proof.
  unfold setManualClose. cbn [closures].
  rewrite (nth_error_indexed
             (fun ic => if Nat.eqb (fst ic) self
                        then {| manualClose := true;
                                symbolForSession := symbolForSession (snd ic) |}
                        else snd ic)).
  reflexivity.
Qed.

Lemma manualClose_of_setManualClose (self i : nat) (s : State) :
  manualClose_of i (setManualClose self s)
  = manualClose_of i s || Nat.eqb i self.
Proof.
  unfold manualClose_of. rewrite closures_setManualClose.
  destruct (nth_error (closures s) i) as [c|]; [|reflexivity].
  destruct (Nat.eqb i self); cbn; now rewrite ?orb_true_r, ?orb_false_r.
Qed.

Lemma symbol_of_setManualClose (self i : nat) (s : State) :
  symbol_of i (setManualClose self s) = symbol_of i s.
Proof.
  unfold symbol_of. rewrite closures_setManualClose.
  destruct (nth_error (closures s) i) as [c|]; [|reflexivity].
  now destruct (Nat.eqb i self).
Qed.

Lemma length_setManualClose (self : nat) (s : State) :
  List.length (closures (setManualClose self s)) = List.length (closures s).
Proof.
  unfold setManualClose. cbn [closures].
  rewrite length_map, length_combine, length_seq. apply Nat.min_id.
Qed.

(** What the state fields become under the building blocks. *)
Lemma clearReconnect_same (s : State) :
  closures (clearReconnect s) = closures s
  /\ current (clearReconnect s) = current s
  /\ sockets (clearReconnect s) = sockets s
  /\ calls (clearReconnect s) = calls s
  /\ wsRef (clearReconnect s) = wsRef s.
Proof. unfold clearReconnect. now destruct (timer_set s). Qed.

Lemma closeSocket_same (s : State) :
  closures (closeSocket s) = closures s
  /\ current (closeSocket s) = current s
  /\ sockets (closeSocket s) = sockets s
  /\ timers (closeSocket s) = timers s
  /\ reconnectTimerRef (closeSocket s) = reconnectTimerRef s
  /\ wsRef (closeSocket s) = None.
Proof. unfold closeSocket. destruct (wsRef s) eqn:E; cbn; auto 10. Qed.

Section WithEnv.
Variable env : option string.

Lemma manualClose_of_cleanup (i : nat) (s : State) :
  manualClose_of i (cleanup env s)
  = manualClose_of i s
    || match current s with Some self => Nat.eqb i self | None => false end.
Proof.
  unfold cleanup. destruct (current s) as [self|]; [|now rewrite orb_false_r].
  rewrite <- manualClose_of_setManualClose.
  unfold manualClose_of. cbn [closures].
  destruct (hasToken env); [|reflexivity].
  destruct (closeSocket_same (clearReconnect (setManualClose self s)))
    as (-> & _).
  now destruct (clearReconnect_same (setManualClose self s)) as (-> & _).
Qed.

Lemma current_cleanup (s : State) : current (cleanup env s) = None.
Proof.
  unfold cleanup. destruct (current s) eqn:E; [reflexivity|exact E].
Qed.

Lemma cleanup_all_manual (s : State) :
  older_manual s -> forall i, manualClose_of i (cleanup env s) = true.
Proof.
  intros Hs i. rewrite manualClose_of_cleanup.
  destruct (manualClose_of i s) eqn:M; [reflexivity|].
  rewrite (Hs i M). cbn. apply Nat.eqb_refl.
Qed.

Lemma closures_effect (activeSymbol : string) (s : State) :
  closures (effect env activeSymbol s)
  = closures s ++ [{| manualClose := false; symbolForSession := activeSymbol |}]
  /\ current (effect env activeSymbol s) = Some (List.length (closures s)).
Proof.
  unfold effect. destruct (hasToken env); cbn [negb].
  - split; reflexivity.
  - cbn [closures current setStatus].
    match goal with
    | |- context [closeSocket (clearReconnect ?s0)] =>
        destruct (closeSocket_same (clearReconnect s0)) as (-> & -> & _);
        destruct (clearReconnect_same s0) as (-> & -> & _)
    end.
    split; reflexivity.
Qed.

Lemma effect_older_manual (activeSymbol : string) (s : State) :
  (forall i, manualClose_of i s = true) ->
  older_manual (effect env activeSymbol s).
Proof.
  intros Hall i Hi.
  destruct (closures_effect activeSymbol s) as (Hc & ->).
  unfold manualClose_of in Hi. rewrite Hc in Hi.
  destruct (Nat.lt_ge_cases i (List.length (closures s))) as [Hlt|Hge].
  - rewrite nth_error_app1 in Hi by exact Hlt.
    specialize (Hall i). unfold manualClose_of in Hall. congruence.
  - destruct (Nat.eq_dec i (List.length (closures s))) as [->|Hne];
      [reflexivity|].
    rewrite nth_error_app2 in Hi by exact Hge.
    destruct (i - List.length (closures s))%nat as [|[|n]] eqn:E;
      cbn in Hi; try discriminate. lia.
Qed.

Lemma step_older_manual (s : State) (e : Event) :
  older_manual s -> older_manual (step env s e).
Proof.
  intros Hs. destruct e as [sym| |k|k|k|h|m]; cbn [step].
  - apply effect_older_manual. now apply cleanup_all_manual.
  - intros i Hi. now rewrite (cleanup_all_manual s Hs i) in Hi.
  - unfold onopen. now destruct (nth_error (sockets s) k).
  - unfold onerror. now destruct (nth_error (sockets s) k).
  - unfold onclose. destruct (nth_error (sockets s) k) as [ws|]; [|exact Hs].
    destruct (manualClose_of (created_by ws) s); [exact Hs|].
    unfold scheduleReconnect. now destruct (_ || _).
  - unfold ontimeout. now destruct (find _ (timers s)).
  - exact Hs.
Qed.

Lemma run_older_manual (events : list Event) (s : State) :
  older_manual s -> older_manual (run env events s).
Proof.
  revert s. induction events as [|e rest IH]; intros s Hs; [exact Hs|].
  cbn [run fold_left]. apply IH. now apply step_older_manual.
Qed.

Lemma initial_older_manual : older_manual initial.
Proof. intros i Hi. unfold manualClose_of in Hi. cbn in Hi. now destruct i. Qed.

(** X26.  In every state the session can reach, the close of a socket that
    was made by an earlier run of the effect (before a symbol switch or an
    unmount) changes nothing: no status change, no reconnect timer. *)
Theorem stale_socket_close_is_ignored (events : list Event) (k : nat)
  (ws : Socket) :
  let s := run env events initial in
  nth_error (sockets s) k = Some ws ->
  current s <> Some (created_by ws) ->
  step env s (Closed k) = s.
Proof.
  intros s Hk Hstale. cbn [step]. unfold onclose. rewrite Hk.
  destruct (manualClose_of (created_by ws) s) eqn:M; [reflexivity|].
  exfalso. apply Hstale.
  now apply (run_older_manual events initial initial_older_manual).
Qed.

(** *** After the teardown *)

Lemma sockets_cleanup (s : State) : sockets (cleanup env s) = sockets s.
Proof.
  unfold cleanup. destruct (current s) as [self|]; [|reflexivity].
  destruct (hasToken env); [|reflexivity]. cbn [sockets].
  destruct (closeSocket_same (clearReconnect (setManualClose self s)))
    as (_ & _ & -> & _).
  now destruct (clearReconnect_same (setManualClose self s)) as (_ & _ & -> & _).
Qed.

Lemma cleanup_torn_down (self : nat) (s : State) :
  timer_inv s -> older_manual s ->
  (hasToken env = false -> quiet s) ->
  current s = Some self ->
  torn_down (cleanup env s).
Proof.
  intros Hinv Hold Hquiet C.
  assert (Hall := cleanup_all_manual s Hold).
  assert (Hcur := current_cleanup s).
  unfold torn_down. split; [exact Hcur|]. split; [exact Hall|].
  unfold cleanup. rewrite C.
  destruct (hasToken env) eqn:T.
  - cbn.
    destruct (clearReconnect_inv (setManualClose self s) Hinv)
      as (_ & Ht & Hr & _).
    destruct (closeSocket_same (clearReconnect (setManualClose self s)))
      as (_ & _ & _ & -> & -> & ->).
    repeat split; auto.
  - destruct (Hquiet eq_refl) as (_ & Ht & _ & _ & Hw & Hr). cbn.
    repeat split; auto.
Qed.

Lemma torn_down_step (s : State) (e : Event) :
  torn_down s -> is_render e = false ->
  torn_down (step env s e) /\ sockets (step env s e) = sockets s.
Proof.
  intros (Hc & Hm & Ht & Hr & Hw) He.
  destruct e as [sym| |k|k|k|h|m]; try discriminate; cbn [step].
  - unfold cleanup. rewrite Hc. repeat split; auto.
  - unfold onopen. destruct (nth_error (sockets s) k); repeat split; auto.
  - unfold onerror. destruct (nth_error (sockets s) k); repeat split; auto.
  - unfold onclose. destruct (nth_error (sockets s) k) as [ws|];
      [rewrite Hm|]; repeat split; auto.
  - unfold ontimeout. rewrite Ht. cbn. repeat split; auto.
  - repeat split; auto.
Qed.

Lemma torn_down_run (later : list Event) (s : State) :
  torn_down s -> Forall (fun e => is_render e = false) later ->
  torn_down (run env later s) /\ sockets (run env later s) = sockets s.
Proof.
  intros Hs Hl. revert s Hs.
  induction Hl as [|e later He _ IH]; intros s Hs; [now split|].
  cbn [run fold_left].
  destruct (torn_down_step s e Hs He) as (Hs' & Hso).
  destruct (IH _ Hs') as (Hs'' & Hso'). split; [exact Hs''|].
  unfold run in Hso'. now rewrite Hso'.
Qed.

Lemma current_step (s : State) (e : Event) :
  current (step env s e)
  = match e with
    | Render _ => Some (List.length (closures (cleanup env s)))
    | Unmount => None
    | _ => current s
    end.
Proof.
  destruct e as [sym| |k|k|k|h|m]; cbn [step].
  - now destruct (closures_effect sym (cleanup env s)) as (_ & ->).
  - apply current_cleanup.
  - unfold onopen. now destruct (nth_error (sockets s) k).
  - unfold onerror. now destruct (nth_error (sockets s) k).
  - unfold onclose. destruct (nth_error (sockets s) k) as [ws|]; [|reflexivity].
    destruct (manualClose_of (created_by ws) s); [reflexivity|].
    unfold scheduleReconnect. now destruct (_ || _).
  - unfold ontimeout. now destruct (find _ (timers s)).
  - reflexivity.
Qed.

Lemma reached_quiet (events : list Event) :
  hasToken env = false -> quiet (run env events initial).
Proof.
  intros T. now destruct (run_quiet env T events initial (initial_quiet)).
Qed.

Lemma idle_is_torn_down (events : list Event) :
  current (run env events initial) = None ->
  torn_down (run env events initial).
Proof.
  induction events as [|e events IH] using rev_ind.
  - intros _. repeat split. intros i. unfold manualClose_of. cbn. now destruct i.
  - unfold run in *. rewrite fold_left_app. cbn [fold_left].
    set (s := fold_left (step env) events initial) in *.
    intros Hc. rewrite current_step in Hc.
    destruct e as [sym| |k|k|k|h|m]; try discriminate;
      try (now apply torn_down_step; [apply IH|]).
    cbn [step]. destruct (current s) as [self|] eqn:C.
    + apply (cleanup_torn_down self); auto.
      * apply (run_inv env events initial (initial_inv)).
      * apply (run_older_manual events initial initial_older_manual).
      * intros T. now apply reached_quiet.
    + unfold cleanup. rewrite C. now apply IH.
Qed.

(** X27.  After the unmount, whatever socket and timer events still
    arrive, and until the effect runs again: no socket is constructed, no
    timer is pending, and both refs stay cleared. *)
Theorem teardown_is_final (events later : list Event) :
  Forall (fun e => is_render e = false) later ->
  let s := run env events initial in
  let s' := run env later (step env s Unmount) in
  sockets s' = sockets s
  /\ timers s' = [] /\ reconnectTimerRef s' = None /\ wsRef s' = None
  /\ current s' = None.
Proof.
  intros Hlater s s'.
  assert (Hdown : torn_down (step env s Unmount)).
  { pose proof (idle_is_torn_down (events ++ [Unmount])) as Hidle.
    unfold run in Hidle. rewrite fold_left_app in Hidle. cbn [fold_left] in Hidle.
    apply Hidle. apply current_cleanup. }
  destruct (torn_down_run later _ Hdown Hlater) as ((Hc & _ & Ht & Hr & Hw) & Hso).
  fold s' in Hc, Ht, Hr, Hw, Hso.
  repeat split; auto.
  rewrite Hso. cbn [step]. apply sockets_cleanup.
Qed.

(** *** Who owns the pending timer, and what a socket subscribes to *)

Lemma timers_cleanup_nil (events : list Event) :
  timers (cleanup env (run env events initial)) = [].
Proof.
  set (s := run env events initial).
  destruct (current s) as [self|] eqn:C.
  - destruct (cleanup_torn_down self s) as (_ & _ & Ht & _); auto.
    + apply (run_inv env events initial initial_inv).
    + apply (run_older_manual events initial initial_older_manual).
    + intros T. now apply reached_quiet.
  - unfold cleanup. rewrite C.
    now destruct (idle_is_torn_down events C) as (_ & _ & Ht & _).
Qed.

Lemma timers_effect_nil (activeSymbol : string) (s : State) :
  timers s = [] -> timers (effect env activeSymbol s) = [].
Proof.
  intros Ht. unfold effect. destruct (hasToken env); cbn [negb]; [exact Ht|].
  cbn [timers setStatus].
  match goal with
  | |- context [closeSocket (clearReconnect ?s0)] =>
      destruct (closeSocket_same (clearReconnect s0)) as (_ & _ & _ & -> & _);
      unfold clearReconnect; destruct (timer_set s0); cbn [timers]
  end; now rewrite Ht.
Qed.

Lemma reached_timers_owned (events : list Event) :
  timers_owned (run env events initial).
Proof.
  induction events as [|e events IH] using rev_ind; [constructor|].
  pose proof (run_older_manual events initial initial_older_manual) as Hold.
  pose proof (timers_cleanup_nil events) as Hnil.
  unfold run in *. rewrite fold_left_app. cbn [fold_left].
  set (s := fold_left (step env) events initial) in *.
  unfold timers_owned in *. rewrite current_step.
  destruct e as [sym| |k|k|k|h|m]; cbn [step].
  - rewrite (timers_effect_nil sym _ Hnil). constructor.
  - rewrite Hnil. constructor.
  - unfold onopen. now destruct (nth_error (sockets s) k).
  - unfold onerror. now destruct (nth_error (sockets s) k).
  - unfold onclose. destruct (nth_error (sockets s) k) as [ws|]; [|exact IH].
    destruct (manualClose_of (created_by ws) s) eqn:M; [exact IH|].
    unfold scheduleReconnect. cbn [manualClose_of closures setStatus].
    change (manualClose_of (created_by ws) (setStatus closed None s))
      with (manualClose_of (created_by ws) s).
    rewrite M. cbn [orb].
    destruct (timer_set _); [exact IH|]. cbn [timers setStatus].
    apply Forall_app. split; [exact IH|].
    constructor; [|constructor]. cbn. now apply Hold.
  - unfold ontimeout. destruct (find _ (timers s)); [|exact IH].
    cbn [timers connect]. now apply ListFacts.Forall_filter.
  - exact IH.
Qed.

Lemma reached_current_valid (events : list Event) :
  current_valid (run env events initial).
Proof.
  induction events as [|e events IH] using rev_ind; [intros i; discriminate|].
  unfold run in *. rewrite fold_left_app. cbn [fold_left].
  set (s := fold_left (step env) events initial) in *.
  intros i. rewrite current_step.
  destruct e as [sym| |k|k|k|h|m]; cbn [step]; try discriminate.
  - intros [= <-].
    destruct (closures_effect sym (cleanup env s)) as (-> & _).
    rewrite length_app. cbn. lia.
  - unfold onopen. destruct (nth_error (sockets s) k); apply IH.
  - unfold onerror. destruct (nth_error (sockets s) k); apply IH.
  - unfold onclose. destruct (nth_error (sockets s) k) as [ws|]; [|apply IH].
    destruct (manualClose_of (created_by ws) s); [apply IH|].
    unfold scheduleReconnect. destruct (_ || _); apply IH.
  - unfold ontimeout. destruct (find _ (timers s)); apply IH.
  - apply IH.
Qed.

(** X28.  When a socket of the session that is not closed on purpose
    closes and the reconnect timer then elapses, exactly one new socket is
    constructed, for the same run of the effect and with the same URL; it
    becomes the current socket, the status is [connecting] with no error
    message, and no timer is left pending. *)
Theorem reconnect_opens_socket_for_same_session (events : list Event)
  (k : nat) (ws : Socket) :
  let s := run env events initial in
  nth_error (sockets s) k = Some ws ->
  manualClose_of (created_by ws) s = false ->
  exists h,
    reconnectTimerRef (step env s (Closed k)) = Some h
    /\ let s' := step env (step env s (Closed k)) (Elapsed h) in
       sockets s'
       = sockets s ++ [{| url := "wss://ws.finnhub.io?token=" ++ FINNHUB_TOKEN env;
                          created_by := created_by ws |}]
       /\ wsRef s' = Some (List.length (sockets s))
       /\ connectionStatus s' = connecting
       /\ errorMessage s' = None
       /\ timers s' = [] /\ reconnectTimerRef s' = None.
Proof.
  intros s Hk Hm.
  assert (Hinv : timer_inv s) by apply (run_inv env events initial initial_inv).
  pose proof (run_older_manual events initial initial_older_manual) as Hold.
  assert (Hown : timers_owned (step env s (Closed k))).
  { pose proof (reached_timers_owned (events ++ [Closed k])) as Hown.
    unfold run in Hown. rewrite fold_left_app in Hown. exact Hown. }
  fold s in Hold.
  assert (Hcur : current (step env s (Closed k)) = Some (created_by ws)).
  { rewrite current_step. now apply Hold. }
  assert (Hso : sockets (step env s (Closed k)) = sockets s).
  { cbn [step]. unfold onclose. rewrite Hk, Hm. unfold scheduleReconnect.
    now destruct (_ || _). }
  destruct (scheduleReconnect_spec (created_by ws) (setStatus closed None s)
              Hinv Hm) as (_ & (h & by_run & Ht & Hr) & _).
  assert (Hstep : step env s (Closed k)
                  = scheduleReconnect (created_by ws) (setStatus closed None s)).
  { cbn [step]. unfold onclose. now rewrite Hk, Hm. }
  rewrite <- Hstep in Ht, Hr.
  exists h. split; [exact Hr|].
  unfold timers_owned in Hown. rewrite Ht in Hown.
  inversion Hown as [|? ? Hby _]; subst. cbn [scheduled_by] in Hby.
  rewrite Hcur in Hby. injection Hby as <-.
  cbn zeta.
  change (step env (step env s (Closed k)) (Elapsed h))
    with (ontimeout env h (step env s (Closed k))).
  unfold ontimeout. rewrite Ht. cbn [find handle].
  rewrite Nat.eqb_refl.
  cbn [connect sockets wsRef connectionStatus errorMessage timers
       reconnectTimerRef scheduled_by filter handle].
  rewrite Nat.eqb_refl. cbn [negb].
  rewrite Hso. repeat split.
Qed.

Lemma symbol_of_app (i : nat) (s s' : State) (c : Closure) :
  closures s' = closures s ++ [c] ->
  (i < List.length (closures s))%nat ->
  symbol_of i s' = symbol_of i s.
Proof.
  intros Hc Hi. unfold symbol_of. rewrite Hc. now rewrite nth_error_app1.
Qed.

Lemma subscribes_own_ext (s s' : State) :
  closures s' = closures s -> sockets s' = sockets s -> calls s' = calls s ->
  subscribes_own s -> subscribes_own s'.
Proof.
  unfold subscribes_own, symbol_of. now intros -> -> ->.
Qed.

Lemma subscribes_own_close (s s' : State) (closed_calls : list Call) :
  (forall i, symbol_of i s' = symbol_of i s) ->
  List.length (closures s') = List.length (closures s) ->
  sockets s' = sockets s ->
  calls s' = calls s ++ closed_calls ->
  Forall (fun c => match c with Close _ => True | _ => False end) closed_calls ->
  subscribes_own s -> subscribes_own s'.
Proof.
  intros Hsym Hlen Hso Hca Hcl (Hs & Hc). unfold subscribes_own.
  rewrite Hlen, Hso, Hca. split; [exact Hs|].
  apply Forall_app. split.
  - revert Hc. apply Forall_impl. intros [k sym|k]; [|auto].
    intros (ws & Hws & E). exists ws. now rewrite Hsym.
  - revert Hcl. apply Forall_impl. now intros [k sym|k].
Qed.

Lemma cleanup_subscribes_own (s : State) :
  subscribes_own s -> subscribes_own (cleanup env s).
Proof.
  intros Hs. unfold cleanup. destruct (current s) as [self|] eqn:C; [|exact Hs].
  destruct (hasToken env).
  - set (s1 := setManualClose self s).
    destruct (clearReconnect_same s1) as (Hc1 & _ & Hso1 & Hca1 & _).
    destruct (closeSocket_same (clearReconnect s1)) as (Hc2 & _ & Hso2 & _).
    apply (subscribes_own_close s _
             (match wsRef (clearReconnect s1) with
              | Some k => [Close k] | None => [] end)); cbn; auto.
    + intros i. unfold symbol_of. cbn [closures]. rewrite Hc2, Hc1.
      apply (symbol_of_setManualClose self i s).
    + rewrite Hc2, Hc1. apply length_setManualClose.
    + now rewrite Hso2, Hso1.
    + unfold closeSocket. destruct (wsRef (clearReconnect s1)); cbn.
      * now rewrite Hca1.
      * now rewrite Hca1, app_nil_r.
    + destruct (wsRef (clearReconnect s1)); repeat constructor.
  - apply (subscribes_own_close s _ []); cbn; auto.
    + intros i. apply (symbol_of_setManualClose self i s).
    + apply length_setManualClose.
    + now rewrite app_nil_r.
Qed.

Lemma subscribes_own_grow (s s' : State) (c : Closure) (news : list Socket)
  (closed_calls : list Call) :
  closures s' = closures s ++ [c] ->
  sockets s' = sockets s ++ news ->
  Forall (fun ws => (created_by ws <= List.length (closures s))%nat) news ->
  calls s' = calls s ++ closed_calls ->
  Forall (fun c => match c with Close _ => True | _ => False end) closed_calls ->
  subscribes_own s -> subscribes_own s'.
Proof.
  intros Hc Hso Hnew Hca Hcl (Hs & Hcalls). unfold subscribes_own.
  rewrite Hso, Hca, Hc, length_app. cbn [List.length]. split.
  - apply Forall_app. split.
    + revert Hs. apply Forall_impl. intros ws Hws. lia.
    + revert Hnew. apply Forall_impl. intros ws Hws. lia.
  - apply Forall_app. split.
    + rewrite Forall_forall in Hs.
      revert Hcalls. apply Forall_impl. intros [k sym|k]; [|auto].
      intros (ws & Hws & E). exists ws. split.
      * rewrite nth_error_app1; [exact Hws|].
        apply nth_error_Some. congruence.
      * rewrite <- E. apply (symbol_of_app _ s s' c Hc).
        apply Hs. eapply nth_error_In, Hws.
    + revert Hcl. apply Forall_impl. now intros [k sym|k].
Qed.

Lemma effect_subscribes_own (activeSymbol : string) (s : State) :
  subscribes_own s -> subscribes_own (effect env activeSymbol s).
Proof.
  intros Hs. unfold effect. destruct (hasToken env); cbn [negb].
  - eapply (subscribes_own_grow s _ _ _ []); cbn; try reflexivity; auto;
      try (now rewrite app_nil_r); repeat constructor.
  - match goal with
    | |- subscribes_own (setStatus _ _ (closeSocket (clearReconnect ?s0))) =>
        set (s1 := s0);
        destruct (clearReconnect_same s1) as (Hc1 & _ & Hso1 & Hca1 & _);
        destruct (closeSocket_same (clearReconnect s1)) as (Hc2 & _ & Hso2 & _);
        apply (subscribes_own_grow s _
                 {| manualClose := false; symbolForSession := activeSymbol |} []
                 (match wsRef (clearReconnect s1) with
                  | Some k => [Close k] | None => [] end)); cbn; auto
    end.
    + now rewrite Hc2, Hc1.
    + now rewrite Hso2, Hso1, app_nil_r.
    + unfold closeSocket. destruct (wsRef (clearReconnect s1)); cbn.
      * now rewrite Hca1.
      * now rewrite Hca1, app_nil_r.
    + destruct (wsRef (clearReconnect s1)); repeat constructor.
Qed.

Lemma reached_subscribes_own (events : list Event) :
  subscribes_own (run env events initial).
Proof.
  induction events as [|e events IH] using rev_ind;
    [split; constructor|].
  pose proof (reached_timers_owned events) as Hown.
  pose proof (reached_current_valid events) as Hval.
  unfold run in *. rewrite fold_left_app. cbn [fold_left].
  set (s := fold_left (step env) events initial) in *.
  destruct e as [sym| |k|k|k|h|m]; cbn [step].
  - now apply effect_subscribes_own, cleanup_subscribes_own.
  - now apply cleanup_subscribes_own.
  - unfold onopen. destruct (nth_error (sockets s) k) as [ws|] eqn:Hk;
      [|exact IH].
    destruct IH as (Hs & Hc). split; [exact Hs|]. cbn [calls setStatus].
    apply Forall_app. split; [exact Hc|].
    constructor; [|constructor]. now exists ws.
  - unfold onerror. destruct (nth_error (sockets s) k); exact IH.
  - unfold onclose. destruct (nth_error (sockets s) k) as [ws|]; [|exact IH].
    destruct (manualClose_of (created_by ws) s); [exact IH|].
    unfold scheduleReconnect. destruct (_ || _); exact IH.
  - unfold ontimeout. destruct (find _ (timers s)) as [t|] eqn:F; [|exact IH].
    apply find_some in F as [Ht _].
    unfold timers_owned in Hown. rewrite Forall_forall in Hown.
    specialize (Hval _ (Hown t Ht)).
    destruct IH as (Hs & Hc). split; cbn.
    + apply Forall_app. split; [exact Hs|]. repeat constructor. exact Hval.
    + revert Hc. apply Forall_impl. intros [k sym|k]; [|auto].
      intros (ws & Hws & E). exists ws. split; [|exact E].
      rewrite nth_error_app1; [exact Hws|]. apply nth_error_Some. congruence.
  - exact IH.
Qed.

(** X29.  Every subscription the component has sent went out on a socket
    it constructed, and names the symbol that was active when the effect
    run that constructed that socket started, also when the socket opened
    after the user had switched symbols. *)
Theorem subscribe_names_session_symbol (events : list Event) (k : nat)
  (sym : string) :
  let s := run env events initial in
  In (SendSubscribe k sym) (calls s) ->
  exists ws self c,
    nth_error (sockets s) k = Some ws
    /\ created_by ws = self
    /\ nth_error (closures s) self = Some c
    /\ symbolForSession c = sym.
Proof.
  intros s Hin.
  destruct (reached_subscribes_own events) as (Hs & Hc). fold s in Hs, Hc.
  rewrite Forall_forall in Hc. destruct (Hc _ Hin) as (ws & Hws & E).
  rewrite Forall_forall in Hs.
  pose proof (Hs ws (nth_error_In _ _ Hws)) as Hlt.
  apply nth_error_Some in Hlt.
  unfold symbol_of in E.
  destruct (nth_error (closures s) (created_by ws)) as [c|] eqn:Ec;
    [|congruence].
  now exists ws, (created_by ws), c.
Qed.

End WithEnv.

Lemma stale_socket_close_is_ignored_witness :
  step (Some "token") (run (Some "token") switched initial) (Closed 0)
  = run (Some "token") switched initial.
Proof.
  apply (stale_socket_close_is_ignored (Some "token") switched 0
           {| url := "wss://ws.finnhub.io?token=token"; created_by := 0 |}).
  - reflexivity.
  - vm_compute. discriminate.
Defined.

Lemma teardown_is_final_witness :
  sockets (run (Some "token") after_unmount
             (step (Some "token") (run (Some "token") streaming initial) Unmount))
  = sockets (run (Some "token") streaming initial).
Proof.
  refine (proj1 (teardown_is_final (Some "token") streaming after_unmount _)).
  repeat constructor.
Defined.

Lemma reconnect_opens_socket_for_same_session_witness :
  exists h,
    reconnectTimerRef (step (Some "token") (run (Some "token") streaming initial)
                         (Closed 0)) = Some h
    /\ sockets (step (Some "token")
                  (step (Some "token") (run (Some "token") streaming initial)
                     (Closed 0))
                  (Elapsed h))
       = sockets (run (Some "token") streaming initial) ++
         [{| url := "wss://ws.finnhub.io?token=" ++ FINNHUB_TOKEN (Some "token");
             created_by := created_by
                             {| url := "wss://ws.finnhub.io?token=token";
                                created_by := 0 |} |}].
Proof.
  destruct (reconnect_opens_socket_for_same_session (Some "token") streaming 0
              {| url := "wss://ws.finnhub.io?token=token"; created_by := 0 |}
              eq_refl eq_refl) as (h & Hr & Hso & _).
  exists h. split; [exact Hr|exact Hso].
Defined.

Lemma subscribe_names_session_symbol_witness :
  exists ws self c,
    nth_error (sockets (run (Some "token") switched initial)) 0 = Some ws
    /\ created_by ws = self
    /\ nth_error (closures (run (Some "token") switched initial)) self = Some c
    /\ symbolForSession c = "AAPL".
Proof.
  apply (subscribe_names_session_symbol (Some "token") switched 0 "AAPL").
  vm_compute. now left.
Defined.

End SessionMore.
